(** * Energy-constrained velocity-profile optimiser: model and properties

    A shallow embedding of the [optim] package (config, state, weather, car,
    constraints, profiles, main), of the route interpolation and CSV export
    of [route/fetch_route.py] and of the panel-tilt search of
    [charging/optim_angle.py].

    Numbers.  Python floats and numpy [float64] values are modelled by the
    real numbers with exact arithmetic; rounding, overflow, [inf] and [nan]
    are outside that model.  In particular numpy turns a division by zero
    into [inf] or [nan]; statements whose meaning depends on a quotient
    assume its divisor is not zero.  Python integers are [Z].  What the
    power model does when a product overflows is settled on a second
    rendering of it, [Car64], over binary64 numbers.

    Arrays.  A numpy value is either a scalar or a one-dimensional array
    ([nd]); binary operations follow numpy's broadcasting rule and raise
    [ValueError] on incompatible shapes.

    Effects.  Evaluation either returns a value, raises a Python exception,
    or (for the unbounded [while True] loop of the power model, which is run
    with a step budget) exhausts its budget.

    Libraries.  The geodesic distance of geopy, which may reject a point,
    and Python's [round] are parameters of the route model; the solar model
    starts from the fields of the UTC time that [datetime] and [pytz]
    compute, and its arcsine and arccosine are the total functions of the
    reals, where numpy returns [nan] for an argument that rounding has
    pushed outside [-1, 1].  Network requests, plotting and printing are
    not modelled. *)

From Stdlib Require Import Reals Lra Lia List ZArith Psatz Bool.
From Stdlib Require Import Floats.
Import ListNotations.
Open Scope R_scope.
Set Warnings "-inexact-float".

(** ** Outcomes of an evaluation *)

Inductive exn : Set := ValueError | IndexError.

Inductive result (A : Type) : Type :=
| Ok (a : A)
| Raise (e : exn)
| OutOfFuel.

Arguments Ok {A} a.
Arguments Raise {A} e.
Arguments OutOfFuel {A}.

Definition bind {A B : Type} (m : result A) (k : A -> result B) : result B :=
  match m with
  | Ok a => k a
  | Raise e => Raise e
  | OutOfFuel => OutOfFuel
  end.

Declare Scope result_scope.
Delimit Scope result_scope with result.
Notation "x <- m ;; k" := (bind m (fun x => k))
  (at level 61, m at next level, right associativity) : result_scope.
Notation "' p <- m ;; k" := (bind m (fun x => match x with p => k end))
  (at level 61, p pattern, m at next level, right associativity) : result_scope.
Open Scope result_scope.

(** An evaluation halts when some step budget yields a value or an
    exception. *)
Definition halts {A : Type} (run : nat -> result A) : Prop :=
  exists fuel, run fuel <> OutOfFuel.

(** ** The numpy fragment used by the package *)

Module NumPy.

(** A numpy value: a scalar (also a plain Python number) or a 1-D array. *)
Inductive nd (A : Type) : Type :=
| Scalar (x : A)
| Array (xs : list A).

Arguments Scalar {A} x.
Arguments Array {A} xs.

Fixpoint zip_with {A B C : Type} (f : A -> B -> C) (xs : list A) (ys : list B)
  : list C :=
  match xs, ys with
  | x :: xs', y :: ys' => f x y :: zip_with f xs' ys'
  | _, _ => []
  end.

(** Operations against Python scalars only: applied elementwise. *)
Definition ndmap {A B : Type} (f : A -> B) (a : nd A) : nd B :=
  match a with
  | Scalar x => Scalar (f x)
  | Array xs => Array (map f xs)
  end.

(** Elementwise binary operation with broadcasting: shapes [(n,)] and
    [(m,)] are compatible when [n = m] or one of them is 1. *)
Definition bin {A B C : Type} (f : A -> B -> C) (a : nd A) (b : nd B)
  : result (nd C) :=
  match a, b with
  | Scalar x, Scalar y => Ok (Scalar (f x y))
  | Scalar x, Array ys => Ok (Array (map (f x) ys))
  | Array xs, Scalar y => Ok (Array (map (fun x => f x y) xs))
  | Array xs, Array ys =>
      if Nat.eqb (length xs) (length ys) then Ok (Array (zip_with f xs ys))
      else match xs, ys with
           | [x], _ => Ok (Array (map (f x) ys))
           | _, [y] => Ok (Array (map (fun x => f x y) xs))
           | _, _ => Raise ValueError
           end
  end.

Definition add := bin Rplus.
Definition sub := bin Rminus.
Definition mul := bin Rmult.
Definition div := bin Rdiv.

Definition Rltb (x y : R) : bool := if Rlt_dec x y then true else false.

(** [np.all] *)
Definition all (c : nd bool) : bool :=
  match c with
  | Scalar b => b
  | Array bs => forallb (fun b => b) bs
  end.

(** [np.where(c, a, b)] *)
Definition where_ (c : nd bool) (a b : nd R) : result (nd R) :=
  ab <- bin pair a b ;;
  bin (fun (t : bool) (p : R * R) => if t then fst p else snd p) c ab.

(** [a[:-1]] and [a[1:]] *)
Definition but_last {A : Type} (xs : list A) : list A := removelast xs.
Definition but_first {A : Type} (xs : list A) : list A := tl xs.

(** [a.cumsum()] *)
Fixpoint cumsum_from (acc : R) (xs : list R) : list R :=
  match xs with
  | [] => []
  | x :: xs' => (acc + x) :: cumsum_from (acc + x) xs'
  end.

Definition cumsum (a : nd R) : nd R :=
  match a with
  | Scalar x => Array [x]
  | Array xs => Array (cumsum_from 0 xs)
  end.

Definition to_list {A : Type} (a : nd A) : list A :=
  match a with
  | Scalar x => [x]
  | Array xs => xs
  end.

(** [np.sum] *)
Definition sum (a : nd R) : R := fold_left Rplus (to_list a) 0.

(** [np.min] and [np.max]: a zero-size array has no minimum. *)
Definition min (a : nd R) : result R :=
  match to_list a with
  | [] => Raise ValueError
  | x :: xs => Ok (fold_left Rmin xs x)
  end.

Definition max (a : nd R) : result R :=
  match to_list a with
  | [] => Raise ValueError
  | x :: xs => Ok (fold_left Rmax xs x)
  end.

(** [a[i]] for an integer [i]: negative indices count from the end. *)
Definition getitem (a : list R) (i : Z) : result R :=
  let n := Z.of_nat (length a) in
  if ((0 <=? i) && (i <? n))%Z then Ok (nth (Z.to_nat i) a 0)
  else if ((- n <=? i) && (i <? 0))%Z then Ok (nth (Z.to_nat (n + i)) a 0)
  else Raise IndexError.

Fixpoint getitems (a : list R) (idx : list Z) : result (list R) :=
  match idx with
  | [] => Ok []
  | i :: idx' =>
      x <- getitem a i ;;
      xs <- getitems a idx' ;;
      Ok (x :: xs)
  end.

(** [a[idx]] for an integer array (or integer scalar) [idx]. *)
Definition take (a : list R) (idx : nd Z) : result (nd R) :=
  match idx with
  | Scalar i => x <- getitem a i ;; Ok (Scalar x)
  | Array ixs => xs <- getitems a ixs ;; Ok (Array xs)
  end.

(** [np.floor_divide(a, step).astype(int)] for a Python scalar [step]. *)
Definition floor_divide (a : nd R) (step : R) : nd Z :=
  ndmap (fun x => Zfloor (x / step)) a.

(** [a.clip(lo)] *)
Definition clip (a : nd R) (lo : R) : nd R := ndmap (fun x => Rmax x lo) a.

(** [np.ones(n) * c]: a negative dimension is rejected. *)
Definition full (n : Z) (c : R) : result (list R) :=
  if (n <? 0)%Z then Raise ValueError else Ok (repeat c (Z.to_nat n)).

End NumPy.

(** ** config.py *)

Module Config.

Definition BatteryCapacity : R := 3055.
Definition DeepDischargeCap : R := 0.2.

Definition R_In : R := 0.214.
Definition R_Out : R := 0.2785.
Definition Mass : R := 290.
Definition Wheels : Z := 3.
Definition StatorRotorAirGap : R := 1.5 * / 10 ^ 3.

Definition ZeroSpeedCrr : R := 0.0045.
Definition FrontalArea : R := 1.
Definition Cd : R := 0.092.
(** [CDA] is assigned twice; the later assignment is the one in force. *)
Definition CDA : R := 0.12.

Definition PanelArea : R := 4.9.
Definition PanelEfficiency : R := 0.21.

Definition BusVoltage : R := 4.2 * 38.

Definition AirDensity : R := 1.192.
Definition GravityAcc : R := 9.81.
Definition AirViscosity : R := 1.524 * / 10 ^ 5.
Definition Ta : R := 295.

Definition MaxVelocity : R := 35.
Definition MaxCurrent : R := 12.3.
Definition MaxAcc : R := 0.1.

End Config.

(** ** state.py *)

Module State.

(** [InitialGuessVelocity] is assigned twice; the later value is in force. *)
Definition InitialGuessVelocity : R := 32.

Definition StartTime : R := 9 * 3600.
Definition EndTime : R := (12 + 6) * 3600.

Definition InitialBatteryCapacity : R := Config.BatteryCapacity * 1.
Definition FinalBatteryCapacity : R := Config.BatteryCapacity * 0.44.

End State.

(** ** weather.py *)

Module Weather.

(** One row of the environment table read from [sol&wind.csv]. *)
Record row : Type := mk_row {
  ghi : R;
  wind_speed : R;
  wind_direction : R
}.

Definition STEP : R := 5.
Definition NET_PANEL_FACTOR : R := Config.PanelArea * Config.PanelEfficiency.
Definition INIT_TIME : R := State.StartTime / 60 - 8 * 60.

Section Series.

(** The loaded table; its content is not part of the package. *)
Variable _df : list row.

Definition _ghi : list R := map ghi _df.
Definition _wind_speed : list R := map wind_speed _df.
Definition _wind_direction : list R := map wind_direction _df.

Definition bucket_index (input_minutes : NumPy.nd R) : NumPy.nd Z :=
  NumPy.floor_divide (NumPy.ndmap (fun m => m + INIT_TIME) input_minutes) STEP.

Definition get_solar_power (input_minutes : NumPy.nd R) : result (NumPy.nd R) :=
  let idx := bucket_index input_minutes in
  g <- NumPy.take _ghi idx ;;
  Ok (NumPy.ndmap (fun x => x * NET_PANEL_FACTOR) g).

Definition get_wind_data (input_minutes : NumPy.nd R)
  : result (NumPy.nd R * NumPy.nd R) :=
  let idx := bucket_index input_minutes in
  s <- NumPy.take _wind_speed idx ;;
  d <- NumPy.take _wind_direction idx ;;
  Ok (s, d).

End Series.

End Weather.

(** ** car.py *)

Module Car.

Import NumPy Config.

Definition EPSILON : R := / 10 ^ 8.

Definition _frictional_tou : R := R_Out * Mass * GravityAcc * ZeroSpeedCrr.
Definition _drag_coeff : R := 0.5 * CDA * AirDensity * (R_Out ^ 3).
Definition _drag_coeff_wR2 : R := _drag_coeff / (R_Out ^ 2).
Definition _slope_coeff : R := Mass * GravityAcc.
Definition _windage_losses_coeff_wR2 : R := (170.4 * / 10 ^ 6) / (R_Out ^ 2).

(** One pass through the body of the [while True] loop, up to and including
    the computation of [cond]: returns [(Pc, Pe, Tw, cond)]. *)
Definition winding_body (tou speed2 Tw_i : nd R)
  : result (nd R * nd R * nd R * nd bool) :=
  let B := ndmap (fun t => 1.6716 - 0.0006 * (Ta + t)) Tw_i in
  i <- mul (ndmap (fun b => 0.561 * b) B) tou ;;
  let resistance := ndmap (fun t => 0.00022425 * t - 0.00820525) Tw_i in
  Pc <- mul (ndmap (fun x => 3 * x ^ 2) i) resistance ;;
  q <- div (ndmap (fun b => 9.602 * / 10 ^ 6 * (b / R_Out) ^ 2) B) resistance ;;
  Pe <- mul q speed2 ;;
  s <- add Pc Pe ;;
  let Tw := ndmap (fun x => 0.455 * x + Ta) s in
  d <- sub Tw Tw_i ;;
  let cond := ndmap (fun x => Rltb (Rabs x) 0.001) d in
  Ok (Pc, Pe, Tw, cond).

(** The loop itself.  The source loop has no bound; [fuel] is the number of
    passes the model is allowed to make. *)
Fixpoint winding_loop (fuel : nat) (tou speed2 Tw_i : nd R)
  : result (nd R * nd R) :=
  match fuel with
  | O => OutOfFuel
  | S fuel' =>
      '(Pc, Pe, Tw, cond) <- winding_body tou speed2 Tw_i ;;
      if all cond then Ok (Pc, Pe)
      else
        Tw_i' <- where_ cond Tw_i Tw ;;
        winding_loop fuel' tou speed2 Tw_i'
  end.

(** Lines 23-24: the wheel torque [tou]. *)
Definition wheel_torque (speed2 slope : nd R) : result (nd R) :=
  let drag_tou := ndmap (fun s2 => _drag_coeff_wR2 * s2) speed2 in
  add (ndmap (fun s => _frictional_tou * cos s) slope) drag_tou.

Definition calculate_power (fuel : nat)
  (speed acceleration slope dir ws wd : nd R) : result (nd R * nd R) :=
  let speed2 := ndmap (fun s => s ^ 2) speed in
  tou <- wheel_torque speed2 slope ;;
  '(Pc, Pe) <- winding_loop fuel tou speed2 (Scalar Ta) ;;
  ts <- mul tou speed ;;
  let P_out := ndmap (fun x => x / R_Out) ts in
  let Pw := ndmap (fun s2 => s2 * _windage_losses_coeff_wR2) speed2 in
  fa <- add (ndmap (fun a => Mass * a) acceleration)
            (ndmap (fun s => _slope_coeff * sin s) slope) ;;
  P_acc <- mul fa speed ;;
  l1 <- add Pw Pc ;;
  l2 <- add l1 Pe ;;
  l3 <- add l2 P_acc ;;
  P_net <- add P_out l3 ;;
  Ok (clip P_net 0, P_out).

End Car.

(** ** car.py in binary64, for one segment

    The power model once more, over Rocq's primitive binary64 numbers and
    for arrays that hold a single number, to settle what the code does when
    an intermediate value leaves the range of the reals: overflow to
    infinity, and [nan].  In place of the slope the function takes the two
    numbers [np.cos(slope)] and [np.sin(slope)], which the C library
    computes (1 and 0 on a flat road).  Python's [**] is written as a
    product, which agrees with it up to the last bit. *)

Module Car64.

Import PrimFloat.

Local Open Scope float_scope.

Definition R_Out : float := 0.2785.
Definition Mass : float := 290.
Definition ZeroSpeedCrr : float := 0.0045.
Definition CDA : float := 0.12.
Definition AirDensity : float := 1.192.
Definition GravityAcc : float := 9.81.
Definition Ta : float := 295.

Definition _frictional_tou : float := R_Out * Mass * GravityAcc * ZeroSpeedCrr.
Definition _drag_coeff : float := 0.5 * CDA * AirDensity * (R_Out * R_Out * R_Out).
Definition _drag_coeff_wR2 : float := _drag_coeff / (R_Out * R_Out).
Definition _slope_coeff : float := Mass * GravityAcc.
Definition _windage_losses_coeff_wR2 : float := (170.4 * 1e-6) / (R_Out * R_Out).

(** One pass of the loop body, lines 31-41: [(Pc, Pe, Tw, cond)]. *)
Definition winding_body (tou speed2 Tw_i : float) : float * float * float * bool :=
  let B := 1.6716 - 0.0006 * (Ta + Tw_i) in
  let i := 0.561 * B * tou in
  let resistance := 0.00022425 * Tw_i - 0.00820525 in
  let Pc := 3 * (i * i) * resistance in
  let Pe := (9.602 * 1e-6 * ((B / R_Out) * (B / R_Out)) / resistance) * speed2 in
  let Tw := 0.455 * (Pc + Pe) + Ta in
  let cond := abs (Tw - Tw_i) <? 0.001 in
  (Pc, Pe, Tw, cond).

Fixpoint winding_loop (fuel : nat) (tou speed2 Tw_i : float)
  : option (float * float) :=
  match fuel with
  | O => None
  | S fuel' =>
      let '(Pc, Pe, Tw, cond) := winding_body tou speed2 Tw_i in
      if cond then Some (Pc, Pe)
      else winding_loop fuel' tou speed2 Tw
  end.

(** [x.clip(0)]: the larger of [x] and 0, and [nan] when [x] is [nan]. *)
Definition clip0 (x : float) : float :=
  if is_nan x then x else if x <? 0 then 0 else x.

Definition calculate_power (fuel : nat)
  (speed acceleration cos_slope sin_slope dir ws wd : float)
  : option (float * float) :=
  let speed2 := speed * speed in
  let drag_tou := _drag_coeff_wR2 * speed2 in
  let tou := _frictional_tou * cos_slope + drag_tou in
  let Tw_i := Ta in
  match winding_loop fuel tou speed2 Tw_i with
  | None => None
  | Some (Pc, Pe) =>
      let P_out := tou * speed / R_Out in
      let Pw := speed2 * _windage_losses_coeff_wR2 in
      let P_acc := (Mass * acceleration + _slope_coeff * sin_slope) * speed in
      let P_net := P_out + (Pw + Pc + Pe + P_acc) in
      Some (clip0 P_net, P_out)
  end.

End Car64.

(** ** constraints.py *)

Module Constraints.

Import NumPy Config.

Definition SafeBatteryLevel : R := BatteryCapacity * DeepDischargeCap.
Definition MaxPower : R := MaxCurrent * BusVoltage.
Definition EPSILON : R := / 10 ^ 8.

(** [[(0, 0)] + [(0.01, MaxVelocity)]*(N-2) + [(0, 0)]]; a list repeated a
    negative number of times is empty. *)
Definition get_bounds (N : Z) : list (R * R) :=
  [(0, 0)] ++ repeat (0.01, MaxVelocity) (Z.to_nat (N - 2)) ++ [(0, 0)].

Definition objective (velocity_profile dx : list R) : result R :=
  s <- add (Array (but_last velocity_profile))
           (Array (but_first velocity_profile)) ;;
  q <- div (ndmap (fun d => 2 * d) (Array dx)) (ndmap (fun x => x + EPSILON) s) ;;
  Ok (sum q).

(** Lines 32-33: the battery trajectory above the safety reserve. *)
Definition battery_profile (P SolP dt : nd R) : result (nd R) :=
  d <- sub P SolP ;;
  e <- mul d dt ;;
  let energy_consumption := ndmap (fun x => x / 3600) (cumsum e) in
  Ok (ndmap (fun c => State.InitialBatteryCapacity - c - SafeBatteryLevel)
            energy_consumption).

Section Series.

Variable _df : list Weather.row.

Definition battery_acc_constraint_func (fuel : nat) (v dx ds dir : list R)
  : result (R * R) :=
  let start_speeds := Array (but_last v) in
  let stop_speeds := Array (but_first v) in
  s <- add start_speeds stop_speeds ;;
  let avg_speed := ndmap (fun x => x / 2) s in
  dt <- div (Array dx) (ndmap (fun x => x + EPSILON) avg_speed) ;;
  dv <- sub stop_speeds start_speeds ;;
  acceleration <- div dv dt ;;
  let minutes := ndmap (fun x => x / 60) (cumsum dt) in
  '(ws, wd) <- Weather.get_wind_data _df minutes ;;
  '(P, _) <- Car.calculate_power fuel avg_speed acceleration
                                 (Array ds) (Array dir) ws wd ;;
  SolP <- Weather.get_solar_power _df minutes ;;
  bp <- battery_profile P SolP dt ;;
  m <- min bp ;;
  M <- max P ;;
  Ok (m, MaxPower - M).

End Series.

(** The solver treats an ["ineq"] constraint as satisfied when every
    component of the constraint function is non-negative. *)
Definition feasible (margins : R * R) : Prop :=
  0 <= fst margins /\ 0 <= snd margins.

End Constraints.

(** ** profiles.py *)

Module Profiles.

Import NumPy Config.

Definition EPSILON : R := / 10 ^ 8.

(** The seven aligned sequences returned by [extract_profiles].  Entries
    that the source fills with [nan] are [None]. *)
Record telemetry : Type := mk_telemetry {
  distances : list R;
  speeds : list R;
  accelerations : list (option R);
  battery_percent : list R;
  consumption : list (option R);
  gain : list (option R);
  elapsed : list R
}.

(** [np.concatenate] rejects zero-dimensional operands. *)
Definition as_1d {A : Type} (a : nd A) : result (list A) :=
  match a with
  | Scalar _ => Raise ValueError
  | Array xs => Ok xs
  end.

(** Lines 26-27. *)
Definition energy_consumption (P dt : nd R) : result (nd R) :=
  e <- mul P dt ;; Ok (ndmap (fun x => x / 3600) e).

Definition energy_gain (SolP dt : nd R) : result (nd R) :=
  e <- mul SolP dt ;; Ok (ndmap (fun x => x / 3600) e).

(** Lines 29 and 31: the battery level after each segment, in Wh. *)
Definition battery_levels (energy_consumption energy_gain : nd R)
  : result (nd R) :=
  net_energy_profile <- sub (cumsum energy_consumption) (cumsum energy_gain) ;;
  Ok (ndmap (fun x => State.InitialBatteryCapacity - x) net_energy_profile).

Section Series.

Variable _df : list Weather.row.

Definition extract_profiles (fuel : nat) (v dx ds dir : list R)
  : result telemetry :=
  let start_speeds := Array (but_last v) in
  let stop_speeds := Array (but_first v) in
  s <- add start_speeds stop_speeds ;;
  let avg_speed := ndmap (fun x => x / 2) s in
  dt <- div (Array dx) (ndmap (fun x => x + EPSILON) avg_speed) ;;
  dv <- sub stop_speeds start_speeds ;;
  acceleration <- div dv dt ;;
  let minutes := ndmap (fun x => x / 60) (cumsum dt) in
  '(ws, wd) <- Weather.get_wind_data _df minutes ;;
  '(P, _) <- Car.calculate_power fuel avg_speed acceleration
                                 (Array ds) (Array dir) ws wd ;;
  SolP <- Weather.get_solar_power _df minutes ;;
  ec <- energy_consumption P dt ;;
  eg <- energy_gain SolP dt ;;
  levels <- battery_levels ec eg ;;
  levels1 <- as_1d levels ;;
  let battery := map (fun x => x * 100 / BatteryCapacity)
                     (State.InitialBatteryCapacity :: levels1) in
  acc1 <- as_1d acceleration ;;
  ec1 <- as_1d ec ;;
  eg1 <- as_1d eg ;;
  Ok (mk_telemetry (0 :: dx) v (None :: map Some acc1) battery
                   (None :: map Some ec1) (None :: map Some eg1)
                   (0 :: to_list (cumsum dt))).

End Series.

End Profiles.

(** ** main.py *)

Module Main.

Import NumPy.

(** What [run_optimise] hands to the external solver. *)
Record nlp : Type := mk_nlp {
  x0 : list R;
  bounds : list (R * R)
}.

Definition N_V (dx : list R) : Z := Z.of_nat (length dx) + 1.

(** [np.concatenate([[0], np.ones(N_V-2) * InitialGuessVelocity, [0]])] *)
Definition initial_profile (n : Z) : result (list R) :=
  interior <- full (n - 2) State.InitialGuessVelocity ;;
  Ok ([0] ++ interior ++ [0]).

Definition run_optimise_setup (dx : list R) : result nlp :=
  velocity_profile <- initial_profile (N_V dx) ;;
  Ok (mk_nlp velocity_profile (Constraints.get_bounds (N_V dx))).

End Main.

(** ** Python built-ins shared by the scripts *)

Module Python.

(** [range(n)] *)
Definition range (n : Z) : list Z := map Z.of_nat (seq 0 (Z.to_nat n)).

End Python.

(** ** route/fetch_route.py *)

Module Route.

(** A [(latitude, longitude)] pair. *)
Definition point : Type := (R * R)%type.

(** Outcome of [interpolate_points]: a list, the [ZeroDivisionError] of
    [distance // interval] for a zero interval, or the [ValueError] with
    which geopy rejects a point. *)
Inductive outcome (A : Type) : Type :=
| Return (a : A)
| ZeroDivisionError
| ValueError.

Arguments Return {A} a.
Arguments ZeroDivisionError {A}.
Arguments ValueError {A}.

(** The inner loop: the points emitted for one leg. *)
Definition leg (start end_ : point) (steps : Z) : list point :=
  map (fun step =>
         let ratio := if (0 <? steps)%Z then IZR step / IZR steps else 0 in
         (fst start + (fst end_ - fst start) * ratio,
          snd start + (snd end_ - snd start) * ratio))
      (Python.range (steps + 1)).

Section Geodesy.

(** [geodesic(start, end).meters] of the geopy library; [None] when geopy
    raises [ValueError], as it does for a latitude outside [-90, 90]. *)
Variable geodesic : point -> point -> option R.

(** The distance of a leg is computed before it is divided by the
    interval, and the legs are visited in order: the first error met is the
    one raised. *)
Fixpoint interpolate_points (points : list point) (interval : R)
  : outcome (list point) :=
  match points with
  | start :: ((end_ :: _) as rest) =>
      match geodesic start end_ with
      | None => ValueError
      | Some distance =>
          if Req_dec_T interval 0 then ZeroDivisionError
          else
            let steps := Zfloor (distance / interval) in
            match interpolate_points rest interval with
            | Return interpolated => Return (leg start end_ steps ++ interpolated)
            | ZeroDivisionError => ZeroDivisionError
            | ValueError => ValueError
            end
      end
  | _ => Return []
  end.

End Geodesy.

(** A cell of the elevation column: a number or the empty string. *)
Inductive cell : Type := Number (x : R) | Blank.

(** A row written by [save_to_csv]: the header
    [Latitude, Longitude, Elevation (m)] or a data row. *)
Inductive row : Type :=
| Header
| Data (lat lon : R) (elev : cell).

Section Csv.

(** [round(elev, 1)] *)
Variable round1 : R -> R.

(** Truth value of an elevation: [None] and zero are false. *)
Definition truthy (elev : option R) : bool :=
  match elev with
  | None => false
  | Some e => if Req_dec_T e 0 then false else true
  end.

Definition elevation_cell (elev : option R) : cell :=
  match elev with
  | Some e => if truthy elev then Number (round1 e) else Blank
  | None => Blank
  end.

(** The rows written to [route_data.csv], in order. *)
Definition save_to_csv (points : list point) (elevations : list (option R))
  : list row :=
  Header ::
  map (fun pe => Data (fst (fst pe)) (snd (fst pe)) (elevation_cell (snd pe)))
      (combine points elevations).

End Csv.

End Route.

(** ** charging/optim_angle.py *)

Module Charging.

(** [np.radians] and [np.degrees] *)
Definition radians (x : R) : R := x * (PI / 180).
Definition degrees (x : R) : R := x * (180 / PI).

(** [np.dot] of two one-dimensional arrays *)
Definition dot (a b : list R) : R :=
  fold_left Rplus (NumPy.zip_with Rmult a b) 0.

(** The fields of the UTC datetime that [solar_position] reads after the
    conversion done by [datetime] and [pytz]. *)
Record utc_time : Type := mk_utc {
  tm_yday : Z;
  hour : Z;
  minute : Z;
  second : Z
}.

(** Lines 21-54 of [solar_position], from the UTC datetime on: returns
    [(elevation, azimuth)] in degrees. *)
Definition solar_position (latitude longitude : R) (utc_dt : utc_time) : R * R :=
  let day_of_year := tm_yday utc_dt in
  let declination :=
    23.45 * sin (radians (360 * (284 + IZR day_of_year) / 365)) in
  let hour_of_day :=
    IZR (hour utc_dt) + IZR (minute utc_dt) / 60 + IZR (second utc_dt) / 3600 in
  let solar_time := hour_of_day + longitude / 15 in
  let hour_angle := 15 * (solar_time - 12) in
  let lat_rad := radians latitude in
  let dec_rad := radians declination in
  let hour_rad := radians hour_angle in
  let elevation :=
    asin (sin lat_rad * sin dec_rad + cos lat_rad * cos dec_rad * cos hour_rad) in
  let azimuth :=
    acos ((sin dec_rad * cos lat_rad - cos dec_rad * sin lat_rad * cos hour_rad)
          / cos elevation) in
  let azimuth := if Rlt_dec 12 solar_time then 2 * PI - azimuth else azimuth in
  (degrees elevation, degrees azimuth).

Definition calculate_irradiance_factor
  (panel_tilt_from_vertical panel_azimuth sun_elevation sun_azimuth : R) : R :=
  let panel_tilt_from_horizontal := 90 - panel_tilt_from_vertical in
  let panel_tilt_rad := radians panel_tilt_from_horizontal in
  let panel_azimuth_rad := radians panel_azimuth in
  let sun_elevation_rad := radians sun_elevation in
  let sun_azimuth_rad := radians sun_azimuth in
  let panel_normal :=
    [sin panel_tilt_rad * sin panel_azimuth_rad;
     sin panel_tilt_rad * cos panel_azimuth_rad;
     cos panel_tilt_rad] in
  let sun_vector :=
    [cos sun_elevation_rad * sin sun_azimuth_rad;
     cos sun_elevation_rad * cos sun_azimuth_rad;
     sin sun_elevation_rad] in
  let cosine_angle := dot panel_normal sun_vector in
  Rmax 0 cosine_angle.

(** [np.argmax] of a non-empty list: the first index of the maximum. *)
Fixpoint argmax_from (best_index : nat) (best : R) (i : nat) (l : list R) : nat :=
  match l with
  | [] => best_index
  | x :: l' =>
      if Rlt_dec best x then argmax_from i x (S i) l'
      else argmax_from best_index best (S i) l'
  end.

Definition argmax (l : list R) : nat :=
  match l with
  | [] => 0%nat
  | x :: l' => argmax_from 0 x 1 l'
  end.

(** The dictionary returned by [optimize_single_period]; the time label of
    a sun position is left out. *)
Record period_result : Type := mk_period_result {
  optimal_tilt_from_vertical : Z;
  optimal_tilt_from_horizontal : Z;
  max_irradiance : R;
  avg_sun_elevation : R;
  sun_positions : list (R * R);
  tilt_angles : list Z;
  irradiance_values : list R
}.

(** Lines 125-175 of [optimize_single_period], from the list [times] on;
    [times] holds the UTC images of the time points generated for the
    period. *)
Definition optimize_single_period (latitude longitude : R)
  (times : list utc_time) (panel_azimuth : R) : period_result :=
  let tilt_angles_from_vertical := Python.range 91 in
  let sun_positions :=
    filter (fun p => if Rlt_dec 0 (fst p) then true else false)
           (map (solar_position latitude longitude) times) in
  let avg_sun_elevation :=
    match sun_positions with
    | [] => 0
    | _ => fold_left Rplus (map fst sun_positions) 0
           / INR (length sun_positions)
    end in
  let total_irradiance :=
    map (fun tilt_from_vertical =>
           let '(irradiance_sum, valid_points) :=
             fold_left
               (fun (acc : R * Z) time_point =>
                  let '(elevation, azimuth) :=
                    solar_position latitude longitude time_point in
                  if Rlt_dec 0 elevation then
                    (fst acc + calculate_irradiance_factor
                                 (IZR tilt_from_vertical) panel_azimuth
                                 elevation azimuth,
                     (snd acc + 1)%Z)
                  else acc)
               times (0, 0%Z) in
           irradiance_sum / IZR (Z.max 1 valid_points))
        tilt_angles_from_vertical in
  let optimal_index := argmax total_irradiance in
  let optimal := nth optimal_index tilt_angles_from_vertical 0%Z in
  match total_irradiance with
  | [] => mk_period_result 0 (90 - 0) 0 avg_sun_elevation sun_positions
            tilt_angles_from_vertical total_irradiance
  | _ => mk_period_result optimal (90 - optimal)
           (nth optimal_index total_irradiance 0)
           avg_sun_elevation sun_positions
           tilt_angles_from_vertical total_irradiance
  end.

(** One entry of [test_cases] in [verify_calculation_logic]; the name is
    only printed. *)
Record test_case : Type := mk_test_case {
  sun_elevation : R;
  sun_azimuth : R;
  expected_optimal_tilt_from_vertical : Z;
  expected_optimal_tilt_from_horizontal : Z
}.

Definition test_cases : list test_case :=
  [mk_test_case 90 0 90 0; mk_test_case 45 0 45 45; mk_test_case 30 90 30 60].

(** The search loop of a test: [(best_irradiance, best_tilt_from_vertical)]. *)
Definition search_step (test : test_case) (best : R * Z) (tilt_from_vertical : Z)
  : R * Z :=
  let irradiance :=
    calculate_irradiance_factor (IZR tilt_from_vertical) 0
      (sun_elevation test) (sun_azimuth test) in
  if Rlt_dec (fst best) irradiance then (irradiance, tilt_from_vertical)
  else best.

Definition search (test : test_case) : R * Z :=
  fold_left (search_step test) (Python.range 91) (0, 0%Z).

(** The verdict printed for a test: [true] for PASS. *)
Definition verdict (test : test_case) : bool :=
  let best_tilt_from_vertical := snd (search test) in
  (Z.abs (best_tilt_from_vertical - expected_optimal_tilt_from_vertical test)
   <? 5)%Z.

Definition verify_calculation_logic : list bool := map verdict test_cases.

End Charging.


(** * Vocabulary of the statements *)

Definition bucket_of (m : R) : Z :=
  Zfloor ((m + Weather.INIT_TIME) / Weather.STEP).

Definition sample_table : list Weather.row :=
  map (fun k => Weather.mk_row (100 * IZR k) (IZR k) (IZR k / 10))
      [0; 1; 2; 3; 4; 5; 6; 7; 8; 9; 10; 11; 12]%Z.

Definition short_table : list Weather.row :=
  [Weather.mk_row 100 3 0.5; Weather.mk_row 200 4 1].

(** [big_sum f n] is [f 0 + f 1 + ... + f (n-1)]. *)
Fixpoint big_sum (f : nat -> R) (n : nat) : R :=
  match n with
  | O => 0
  | S n' => big_sum f n' + f n'
  end.

(** The profile [v] with the speed at waypoint [k] replaced by [x]. *)
Fixpoint replace_at (k : nat) (x : R) (v : list R) : list R :=
  match v, k with
  | [], _ => []
  | _ :: v', O => x :: v'
  | y :: v', S k' => y :: replace_at k' x v'
  end.

(** Travel time attributed to segment [i] by the objective. *)
Definition segment_time (v dx : list R) (i : nat) : R :=
  2 * nth i dx 0 / (nth i v 0 + nth (S i) v 0 + Constraints.EPSILON).

(** [tabulate n g] is the array [g 0, ..., g (n-1)]. *)
Definition tabulate {A : Type} (n : nat) (g : nat -> A) : list A :=
  map g (seq 0 n).

(** The body of the winding-temperature loop, read for one segment with
    wheel torque [tou], squared speed [speed2] and winding temperature [t]. *)
Definition remanence (t : R) : R := 1.6716 - 0.0006 * (Config.Ta + t).

Definition winding_resistance (t : R) : R := 0.00022425 * t - 0.00820525.

Definition copper_loss (tou t : R) : R :=
  3 * (0.561 * remanence t * tou) ^ 2 * winding_resistance t.

Definition eddy_loss (speed2 t : R) : R :=
  9.602 * / 10 ^ 6 * (remanence t / Config.R_Out) ^ 2 / winding_resistance t
  * speed2.

Definition next_temperature (tou speed2 t : R) : R :=
  0.455 * (copper_loss tou t + eddy_loss speed2 t) + Config.Ta.

Definition settled (tou speed2 t : R) : bool :=
  NumPy.Rltb (Rabs (next_temperature tou speed2 t - t)) 0.001.

(** The loop for one segment: the temperature at which it settles. *)
Fixpoint winding_scalar (fuel : nat) (tou speed2 t : R) : option R :=
  match fuel with
  | O => None
  | S fuel' =>
      if settled tou speed2 t then Some t
      else winding_scalar fuel' tou speed2 (next_temperature tou speed2 t)
  end.

(** Losses of all segments at the temperatures [T]. *)
Definition copper_losses (n : nat) (tou T : nat -> R) : NumPy.nd R :=
  NumPy.Array (tabulate n (fun k => copper_loss (tou k) (T k))).

Definition eddy_losses (n : nat) (speed2 T : nat -> R) : NumPy.nd R :=
  NumPy.Array (tabulate n (fun k => eddy_loss (speed2 k) (T k))).

(** One pass of the loop freezes a settled segment and advances the others. *)
Definition frozen_step (tou speed2 T : nat -> R) (k : nat) : R :=
  if settled (tou k) (speed2 k) (T k) then T k
  else next_temperature (tou k) (speed2 k) (T k).

(** The power model read for one segment. *)
Definition torque (speed slope : R) : R :=
  Car._frictional_tou * cos slope + Car._drag_coeff_wR2 * speed ^ 2.

Definition output_power (speed slope : R) : R :=
  torque speed slope * speed / Config.R_Out.

Definition windage_loss (speed : R) : R :=
  speed ^ 2 * Car._windage_losses_coeff_wR2.

Definition acceleration_power (speed acceleration slope : R) : R :=
  (Config.Mass * acceleration + Car._slope_coeff * sin slope) * speed.

(** Net power of a segment whose winding settled at temperature [t]. *)
Definition net_power (speed acceleration slope t : R) : R :=
  Rmax (output_power speed slope
        + (windage_loss speed
           + copper_loss (torque speed slope) t
           + eddy_loss (speed ^ 2) t
           + acceleration_power speed acceleration slope)) 0.

(** The temperature at which a segment settles within [fuel] passes
    (ambient if it does not). *)
Definition settled_temperature (fuel : nat) (speed slope : R) : R :=
  match winding_scalar fuel (torque speed slope) (speed ^ 2) Config.Ta with
  | Some t => t
  | None => Config.Ta
  end.

(** Per-segment quantities derived from a velocity profile [v] and segment
    lengths [dx]. *)
Definition avg_speed_at (v : list R) (k : nat) : R :=
  (nth k v 0 + nth (S k) v 0) / 2.

Definition segment_dt (v dx : list R) (k : nat) : R :=
  nth k dx 0 / (avg_speed_at v k + Constraints.EPSILON).

Definition acceleration_at (v dx : list R) (k : nat) : R :=
  (nth (S k) v 0 - nth k v 0) / segment_dt v dx k.

(** Elapsed minutes at the end of segment [k]. *)
Definition minutes_at (v dx : list R) (k : nat) : R :=
  big_sum (segment_dt v dx) (S k) / 60.

(** A three-waypoint route used to exercise the evaluators. *)
Definition sample_profile : list R := [0; 20; 0].
Definition sample_dx : list R := [600; 600].
Definition sample_slopes : list R := [0.01; -0.02].
Definition sample_headings : list R := [0; 1.5].

(** Per-segment quantities of the evaluators on a route. *)
Definition segment_power (fuel : nat) (v dx ds : list R) (k : nat) : R :=
  net_power (avg_speed_at v k) (acceleration_at v dx k) (nth k ds 0)
            (settled_temperature fuel (avg_speed_at v k) (nth k ds 0)).

Definition segment_solar (df : list Weather.row) (v dx : list R) (k : nat) : R :=
  nth (Z.to_nat (bucket_of (minutes_at v dx k))) (Weather._ghi df) 0
  * Weather.NET_PANEL_FACTOR.

(** Number of segments of a profile. *)
Definition segments (v : list R) : nat := (length v - 1)%nat.

(** Conditions under which both evaluators run to completion on a route:
    at least two waypoints, one length and one slope per segment, non-zero
    divisors, time buckets inside the loaded series, and winding
    temperatures that settle within the budget. *)
Definition evaluable (df : list Weather.row) (fuel : nat) (v dx ds : list R)
  : Prop :=
  (2 <= length v)%nat /\
  length dx = segments v /\
  length ds = segments v /\
  (0 < fuel)%nat /\
  (forall k, (k < segments v)%nat ->
     avg_speed_at v k + Constraints.EPSILON <> 0 /\ nth k dx 0 <> 0) /\
  (forall k, (k < segments v)%nat ->
     (0 <= bucket_of (minutes_at v dx k) < Z.of_nat (length df))%Z) /\
  (forall k, (k < segments v)%nat ->
     winding_scalar fuel (torque (avg_speed_at v k) (nth k ds 0))
                    (avg_speed_at v k ^ 2) Config.Ta <> None).

(** The consecutive pairs of waypoints of a route. *)
Fixpoint legs (points : list Route.point) : list (Route.point * Route.point) :=
  match points with
  | a :: ((b :: _) as rest) => (a, b) :: legs rest
  | _ => []
  end.

(** A leg that geopy accepts, with its distance. *)
Definition measured (geodesic : Route.point -> Route.point -> option R)
  (ab : Route.point * Route.point) (d : R) : Prop :=
  geodesic (fst ab) (snd ab) = Some d.

(** Sum of the leg distances of a route; a rejected leg counts for 0. *)
Definition route_length (geodesic : Route.point -> Route.point -> option R)
  (points : list Route.point) : R :=
  fold_right (fun ab acc =>
                match geodesic (fst ab) (snd ab) with
                | Some d => d + acc
                | None => acc
                end) 0 (legs points).

(** The point at fraction [ratio] of the way from [a] to [b]. *)
Definition between (a b : Route.point) (ratio : R) : Route.point :=
  (fst a + (fst b - fst a) * ratio, snd a + (snd b - snd a) * ratio).

(** A stand-in for the geodesic distance, used on sample routes: metres on
    a flat grid of 100 km per degree, every point being accepted. *)
Definition grid_distance (a b : Route.point) : R :=
  100000 * (Rabs (fst b - fst a) + Rabs (snd b - snd a)).

Definition grid_geodesic (a b : Route.point) : option R :=
  Some (grid_distance a b).

Definition sample_route : list Route.point := [(0, 0); (0.00025, 0); (0.00025, 0.00005)].

Definition declination_of (t : Charging.utc_time) : R :=
  23.45 * sin (Charging.radians (360 * (284 + IZR (Charging.tm_yday t)) / 365)).

Definition solar_time_of (longitude : R) (t : Charging.utc_time) : R :=
  IZR (Charging.hour t) + IZR (Charging.minute t) / 60
  + IZR (Charging.second t) / 3600 + longitude / 15.

Definition hour_angle_of (longitude : R) (t : Charging.utc_time) : R :=
  15 * (solar_time_of longitude t - 12).

Definition arcsin_argument (latitude longitude : R) (t : Charging.utc_time) : R :=
  sin (Charging.radians latitude) * sin (Charging.radians (declination_of t))
  + cos (Charging.radians latitude) * cos (Charging.radians (declination_of t))
    * cos (Charging.radians (hour_angle_of longitude t)).

Definition sun_is_up (p : R * R) : bool := if Rlt_dec 0 (fst p) then true else false.

Definition mean_irradiance (panel_azimuth : R) (positions : list (R * R)) (tilt : Z) : R :=
  fold_left Rplus
    (map (fun p => Charging.calculate_irradiance_factor (IZR tilt) panel_azimuth
                     (fst p) (snd p)) positions) 0
  / IZR (Z.max 1 (Z.of_nat (length positions))).

(** * Properties *)

(** ** Generic facts about the numpy fragment *)

Section NumPyFacts.

Import NumPy.

Lemma zip_with_length {A B C : Type} (f : A -> B -> C) :
  forall xs ys, length xs = length ys -> length (zip_with f xs ys) = length xs.
Proof.
  induction xs as [|x xs IH]; intros [|y ys] H; simpl in *; try congruence.
  f_equal. apply IH. congruence.
Qed.

Lemma zip_with_nth {A B C : Type} (f : A -> B -> C) (da : A) (db : B) (dc : C) :
  forall xs ys k, length xs = length ys -> (k < length xs)%nat ->
    nth k (zip_with f xs ys) dc = f (nth k xs da) (nth k ys db).
Proof.
  induction xs as [|x xs IH]; intros [|y ys] k H Hk; simpl in *; try lia.
  destruct k as [|k]; [reflexivity|]. apply IH; lia.
Qed.

Lemma bin_arrays {A B C : Type} (f : A -> B -> C) (xs : list A) (ys : list B) :
  length xs = length ys ->
  bin f (Array xs) (Array ys) = Ok (Array (zip_with f xs ys)).
Proof.
  intros H. unfold bin. rewrite H, Nat.eqb_refl. reflexivity.
Qed.

Lemma getitem_in_range (a : list R) (i : Z) :
  (0 <= i < Z.of_nat (length a))%Z ->
  getitem a i = Ok (nth (Z.to_nat i) a 0).
Proof.
  intros [H0 H1]. unfold getitem.
  apply Z.leb_le in H0. apply Z.ltb_lt in H1. rewrite H0, H1. reflexivity.
Qed.

Lemma getitem_wraps (a : list R) (i : Z) :
  (- Z.of_nat (length a) <= i < 0)%Z ->
  getitem a i = Ok (nth (Z.to_nat (Z.of_nat (length a) + i)) a 0).
Proof.
  intros [H0 H1]. unfold getitem.
  replace (0 <=? i)%Z with false by (symmetry; apply Z.leb_gt; lia).
  apply Z.leb_le in H0. apply Z.ltb_lt in H1. simpl. rewrite H0, H1. reflexivity.
Qed.

Lemma getitem_out_of_bounds (a : list R) (i : Z) :
  (i < - Z.of_nat (length a) \/ Z.of_nat (length a) <= i)%Z ->
  getitem a i = Raise IndexError.
Proof.
  intros H. unfold getitem.
  destruct H as [H|H].
  - replace (0 <=? i)%Z with false by (symmetry; apply Z.leb_gt; lia).
    replace (- Z.of_nat (length a) <=? i)%Z with false
      by (symmetry; apply Z.leb_gt; lia).
    reflexivity.
  - replace (i <? Z.of_nat (length a))%Z with false
      by (symmetry; apply Z.ltb_ge; lia).
    replace (i <? 0)%Z with false by (symmetry; apply Z.ltb_ge; lia).
    rewrite !andb_false_r. reflexivity.
Qed.

Lemma getitem_never_out_of_fuel (a : list R) (i : Z) :
  (exists x, getitem a i = Ok x) \/ getitem a i = Raise IndexError.
Proof.
  unfold getitem.
  destruct ((0 <=? i) && (i <? Z.of_nat (length a)))%Z; [left; eauto|].
  destruct ((- Z.of_nat (length a) <=? i) && (i <? 0))%Z; [left; eauto|].
  now right.
Qed.

Lemma getitems_in_range (a : list R) (idx : list Z) :
  Forall (fun i => (0 <= i < Z.of_nat (length a))%Z) idx ->
  getitems a idx = Ok (map (fun i => nth (Z.to_nat i) a 0) idx).
Proof.
  induction 1 as [|i idx Hi _ IH]; simpl; [reflexivity|].
  rewrite (getitem_in_range _ _ Hi). simpl. rewrite IH. reflexivity.
Qed.

Lemma getitems_out_of_bounds (a : list R) (idx : list Z) :
  Exists (fun i => (i < - Z.of_nat (length a) \/ Z.of_nat (length a) <= i)%Z) idx ->
  getitems a idx = Raise IndexError.
Proof.
  induction 1 as [i idx Hi|i idx _ IH]; simpl.
  - rewrite (getitem_out_of_bounds _ _ Hi). reflexivity.
  - destruct (getitem_never_out_of_fuel a i) as [[x ->]| ->]; simpl.
    + rewrite IH. reflexivity.
    + reflexivity.
Qed.

End NumPyFacts.

Section WeatherFacts.

Import NumPy.

Lemma INIT_TIME_value : Weather.INIT_TIME = 60.
Proof. unfold Weather.INIT_TIME, State.StartTime. lra. Qed.

Lemma bucket_of_bounds (m : R) :
  5 * IZR (bucket_of m) <= m + Weather.INIT_TIME < 5 * IZR (bucket_of m) + 5.
Proof.
  unfold bucket_of, Weather.STEP.
  pose proof (Zfloor_bound ((m + Weather.INIT_TIME) / 5)) as H. lra.
Qed.

Lemma bucket_of_eq (m : R) (b : Z) :
  5 * IZR b <= m + 60 < 5 * IZR b + 5 -> bucket_of m = b.
Proof.
  intros H. unfold bucket_of. apply Zfloor_eq.
  rewrite INIT_TIME_value. unfold Weather.STEP. lra.
Qed.

Lemma bucket_index_array (ms : list R) :
  Weather.bucket_index (Array ms) = Array (map bucket_of ms).
Proof.
  unfold Weather.bucket_index, floor_divide, ndmap. rewrite map_map. reflexivity.
Qed.

Lemma series_lengths (df : list Weather.row) :
  length (Weather._ghi df) = length df /\
  length (Weather._wind_speed df) = length df /\
  length (Weather._wind_direction df) = length df.
Proof.
  unfold Weather._ghi, Weather._wind_speed, Weather._wind_direction.
  rewrite !length_map. auto.
Qed.

Lemma get_solar_power_in_range (df : list Weather.row) (ms : list R) :
  Forall (fun m => (0 <= bucket_of m < Z.of_nat (length df))%Z) ms ->
  Weather.get_solar_power df (Array ms) =
    Ok (Array (map (fun m => nth (Z.to_nat (bucket_of m)) (Weather._ghi df) 0
                             * Weather.NET_PANEL_FACTOR) ms)).
Proof.
  intros H. unfold Weather.get_solar_power. rewrite bucket_index_array.
  unfold take. rewrite getitems_in_range.
  - simpl. rewrite !map_map. reflexivity.
  - destruct (series_lengths df) as [-> _].
    rewrite Forall_map. exact H.
Qed.

Lemma get_wind_data_in_range (df : list Weather.row) (ms : list R) :
  Forall (fun m => (0 <= bucket_of m < Z.of_nat (length df))%Z) ms ->
  Weather.get_wind_data df (Array ms) =
    Ok (Array (map (fun m => nth (Z.to_nat (bucket_of m)) (Weather._wind_speed df) 0) ms),
        Array (map (fun m => nth (Z.to_nat (bucket_of m)) (Weather._wind_direction df) 0) ms)).
Proof.
  intros H. unfold Weather.get_wind_data. rewrite bucket_index_array.
  destruct (series_lengths df) as (_ & Hs & Hd).
  unfold take. rewrite !getitems_in_range.
  - simpl. rewrite !map_map. reflexivity.
  - rewrite Hd, Forall_map. exact H.
  - rewrite Hs, Forall_map. exact H.
Qed.

(** C6.  Whenever every bucket lies inside the loaded series, the lookups
    use [bucket = floor((m + offset) / step)] with [step = 5] (the bucket is
    the last sampling instant not after [m + offset]), and they return the
    series entry stored at exactly that bucket: irradiance scaled by
    [PanelArea * PanelEfficiency], and the wind speed and wind direction
    pair. *)
Theorem lookup_uses_floor_bucket (df : list Weather.row) (ms : list R) :
  Forall (fun m => (0 <= bucket_of m < Z.of_nat (length df))%Z) ms ->
  Weather.STEP = 5 /\
  Weather.bucket_index (Array ms) =
    Array (map (fun m => Zfloor ((m + Weather.INIT_TIME) / 5)) ms) /\
  (forall m, In m ms ->
     5 * IZR (bucket_of m) <= m + Weather.INIT_TIME < 5 * IZR (bucket_of m) + 5) /\
  Weather.get_solar_power df (Array ms) =
    Ok (Array (map (fun m => nth (Z.to_nat (bucket_of m)) (Weather._ghi df) 0
                             * (Config.PanelArea * Config.PanelEfficiency)) ms)) /\
  Weather.get_wind_data df (Array ms) =
    Ok (Array (map (fun m => nth (Z.to_nat (bucket_of m)) (Weather._wind_speed df) 0) ms),
        Array (map (fun m => nth (Z.to_nat (bucket_of m)) (Weather._wind_direction df) 0) ms)).
Proof.
  intros H. split; [reflexivity|]. split; [apply bucket_index_array|].
  split; [intros m _; apply bucket_of_bounds|].
  split; [apply get_solar_power_in_range, H | apply get_wind_data_in_range, H].
Qed.

Lemma bucket_of_1 : bucket_of 1 = 12%Z.
Proof. apply bucket_of_eq. simpl. lra. Qed.

Lemma lookup_uses_floor_bucket_witness :
  Weather.get_solar_power sample_table (Array [1]) =
    Ok (Array [1200 * (Config.PanelArea * Config.PanelEfficiency)]).
Proof.
  destruct (lookup_uses_floor_bucket sample_table [1]) as (_ & _ & _ & Hs & _).
  - constructor; [|constructor]. rewrite bucket_of_1. simpl. lia.
  - rewrite Hs. simpl. rewrite bucket_of_1. simpl.
    do 3 f_equal. lra.
Defined.

End WeatherFacts.

Section WeatherRange.

Import NumPy.

Lemma bucket_of_m65 : bucket_of (-65) = (-1)%Z.
Proof. apply bucket_of_eq. simpl. lra. Qed.

(** C4, refuted as stated: with a two-entry series, minute [-65] has bucket
    [-1], which is outside [0, 2), yet both lookups return the last entry of
    the series instead of failing. *)
Lemma lookup_wraps_around :
  bucket_of (-65) = (-1)%Z /\
  ~ (0 <= bucket_of (-65) < Z.of_nat (length short_table))%Z /\
  Weather.get_solar_power short_table (Array [-65]) =
    Ok (Array [200 * Weather.NET_PANEL_FACTOR]) /\
  Weather.get_wind_data short_table (Array [-65]) = Ok (Array [4], Array [1]).
Proof.
  split; [apply bucket_of_m65|].
  split; [rewrite bucket_of_m65; simpl; lia|].
  unfold Weather.get_solar_power, Weather.get_wind_data.
  rewrite bucket_index_array. simpl. rewrite bucket_of_m65. simpl.
  split; reflexivity.
Qed.

Lemma Exists_in {A : Type} (P : A -> Prop) (x : A) (xs : list A) :
  In x xs -> P x -> Exists P xs.
Proof. intros Hin Hp. apply Exists_exists. eauto. Qed.

(** C4, as the code behaves.  For a minute whose bucket [b] is outside
    [0, L), where [L] is the length of the series: when [-L <= b < 0] the
    lookups succeed and return the entry at position [L + b]; otherwise
    ([b < -L] or [b >= L]) every call whose argument contains that minute
    raises [IndexError]. *)
Theorem lookup_outside_series (df : list Weather.row) (m : R) :
  let L := Z.of_nat (length df) in
  let b := bucket_of m in
  (b < 0 \/ L <= b)%Z ->
  if ((- L <=? b) && (b <? 0))%Z then
    Weather.get_solar_power df (Array [m]) =
      Ok (Array [nth (Z.to_nat (L + b)) (Weather._ghi df) 0
                 * Weather.NET_PANEL_FACTOR]) /\
    Weather.get_wind_data df (Array [m]) =
      Ok (Array [nth (Z.to_nat (L + b)) (Weather._wind_speed df) 0],
          Array [nth (Z.to_nat (L + b)) (Weather._wind_direction df) 0])
  else
    forall ms, In m ms ->
      Weather.get_solar_power df (Array ms) = Raise IndexError /\
      Weather.get_wind_data df (Array ms) = Raise IndexError.
Proof.
  intros L b Hout.
  destruct (series_lengths df) as (Hg & Hs & Hd).
  destruct ((- L <=? b) && (b <? 0))%Z eqn:Hw.
  - apply andb_true_iff in Hw. destruct Hw as [H1 H2].
    apply Z.leb_le in H1. apply Z.ltb_lt in H2.
    unfold Weather.get_solar_power, Weather.get_wind_data.
    rewrite bucket_index_array. simpl. fold b.
    rewrite !getitem_wraps by (rewrite ?Hg, ?Hs, ?Hd; fold L; lia).
    rewrite Hg, Hs, Hd. fold L. simpl. auto.
  - assert (Hbad : (b < - L \/ L <= b)%Z).
    { apply andb_false_iff in Hw. destruct Hw as [Hw|Hw].
      - apply Z.leb_gt in Hw. lia.
      - apply Z.ltb_ge in Hw. lia. }
    intros ms Hin.
    unfold Weather.get_solar_power, Weather.get_wind_data.
    rewrite bucket_index_array. unfold take.
    rewrite !getitems_out_of_bounds; [auto| | |];
      (apply Exists_exists; exists b; split; [apply in_map, Hin|];
       rewrite ?Hg, ?Hs, ?Hd; exact Hbad).
Qed.

Lemma lookup_outside_series_witness :
  (bucket_of (-65) < 0 \/ Z.of_nat (length short_table) <= bucket_of (-65))%Z /\
  Weather.get_solar_power short_table (Array [-65]) =
    Ok (Array [200 * Weather.NET_PANEL_FACTOR]) /\
  (bucket_of 1 < 0 \/ Z.of_nat (length short_table) <= bucket_of 1)%Z /\
  Weather.get_solar_power short_table (Array [1]) = Raise IndexError.
Proof.
  assert (H1 : (bucket_of (-65) < 0 \/
                Z.of_nat (length short_table) <= bucket_of (-65))%Z)
    by (rewrite bucket_of_m65; simpl; lia).
  assert (H2 : (bucket_of 1 < 0 \/
                Z.of_nat (length short_table) <= bucket_of 1)%Z)
    by (rewrite bucket_of_1; simpl; lia).
  split; [exact H1|]. split.
  - pose proof (lookup_outside_series short_table (-65) H1) as H.
    rewrite bucket_of_m65 in H. simpl in H. apply H.
  - split; [exact H2|].
    pose proof (lookup_outside_series short_table 1 H2) as H.
    rewrite bucket_of_1 in H. simpl in H.
    apply (H [1]). simpl. auto.
Defined.

End WeatherRange.

Section SolverSetup.

Import NumPy.

Lemma framed_repeat_shape {A : Type} (a c : A) (k : nat) :
  let l := [a] ++ repeat c k ++ [a] in
  length l = (k + 2)%nat /\
  nth_error l 0 = Some a /\
  nth_error l (k + 1) = Some a /\
  (forall i, (1 <= i <= k)%nat -> nth_error l i = Some c).
Proof.
  simpl. repeat split.
  - rewrite length_app, repeat_length. simpl. lia.
  - replace (k + 1)%nat with (S k) by lia. simpl.
    rewrite nth_error_app2; rewrite repeat_length; [|lia].
    rewrite Nat.sub_diag. reflexivity.
  - intros i [H1 H2]. destruct i as [|i]; [lia|]. simpl.
    rewrite nth_error_app1 by (rewrite repeat_length; lia).
    apply nth_error_repeat. lia.
Qed.

(** C9.  For [N >= 2] waypoints the bounds have length [N], pin the first and
    last speed to [(0, 0)] and bound each interior speed by
    [(0.01, MaxVelocity)]; the initial guess has length [N], is [0] at both
    ends and [InitialGuessVelocity] at every interior position; and these
    are what [run_optimise] passes to the solver for a route of [N - 1]
    segments. *)
Theorem bounds_and_initial_guess (N : Z) :
  (2 <= N)%Z ->
  let n := Z.to_nat N in
  let b := Constraints.get_bounds N in
  (length b = n /\
   nth_error b 0 = Some (0, 0) /\
   nth_error b (n - 1) = Some (0, 0) /\
   (forall i, (1 <= i <= n - 2)%nat ->
      nth_error b i = Some (0.01, Config.MaxVelocity))) /\
  exists g,
    Main.initial_profile N = Ok g /\
    length g = n /\
    nth_error g 0 = Some 0 /\
    nth_error g (n - 1) = Some 0 /\
    (forall i, (1 <= i <= n - 2)%nat ->
       nth_error g i = Some State.InitialGuessVelocity) /\
    (forall dx, Main.N_V dx = N ->
       Main.run_optimise_setup dx = Ok (Main.mk_nlp g b)).
Proof.
  intros HN n b.
  assert (Hk : Z.to_nat (N - 2) = (n - 2)%nat) by (unfold n; lia).
  assert (Hn : (2 <= n)%nat) by (unfold n; lia).
  split.
  - unfold b, Constraints.get_bounds. rewrite Hk.
    destruct (framed_repeat_shape (0, 0) (0.01, Config.MaxVelocity) (n - 2))
      as (Hl & H0 & Hlast & Hint).
    replace (n - 2 + 2)%nat with n in Hl by lia.
    replace (n - 2 + 1)%nat with (n - 1)%nat in Hlast by lia.
    auto.
  - exists ([0] ++ repeat State.InitialGuessVelocity (n - 2) ++ [0]).
    assert (Hg : Main.initial_profile N =
                 Ok ([0] ++ repeat State.InitialGuessVelocity (n - 2) ++ [0])).
    { unfold Main.initial_profile, full.
      replace (N - 2 <? 0)%Z with false by (symmetry; apply Z.ltb_ge; lia).
      rewrite Hk. reflexivity. }
    destruct (framed_repeat_shape 0 State.InitialGuessVelocity (n - 2))
      as (Hl & H0 & Hlast & Hint).
    replace (n - 2 + 2)%nat with n in Hl by lia.
    replace (n - 2 + 1)%nat with (n - 1)%nat in Hlast by lia.
    repeat split; auto.
    intros dx Hdx. unfold Main.run_optimise_setup. rewrite Hdx, Hg. reflexivity.
Qed.

Lemma bounds_and_initial_guess_witness :
  (2 <= 4)%Z /\
  Constraints.get_bounds 4 =
    [(0, 0); (0.01, Config.MaxVelocity); (0.01, Config.MaxVelocity); (0, 0)] /\
  exists g, Main.initial_profile 4 = Ok g /\ length g = 4%nat.
Proof.
  assert (H : (2 <= 4)%Z) by lia.
  split; [exact H|]. split; [reflexivity|].
  destruct (bounds_and_initial_guess 4 H) as (_ & g & Hg & Hl & _).
  exists g. split; [exact Hg | exact Hl].
Defined.

End SolverSetup.

Section ObjectiveFacts.

Import NumPy.

Lemma big_sum_ext (f g : nat -> R) (n : nat) :
  (forall i, (i < n)%nat -> f i = g i) -> big_sum f n = big_sum g n.
Proof.
  induction n as [|n IH]; intros H; simpl; [reflexivity|].
  rewrite IH by (intros; apply H; lia). rewrite H by lia. reflexivity.
Qed.

Lemma big_sum_le (f g : nat -> R) (n : nat) :
  (forall i, (i < n)%nat -> f i <= g i) -> big_sum f n <= big_sum g n.
Proof.
  induction n as [|n IH]; intros H; simpl; [lra|].
  assert (big_sum f n <= big_sum g n) by (apply IH; intros; apply H; lia).
  assert (f n <= g n) by (apply H; lia). lra.
Qed.

Lemma big_sum_lt (f g : nat -> R) (n k : nat) :
  (forall i, (i < n)%nat -> f i <= g i) -> (k < n)%nat -> f k < g k ->
  big_sum f n < big_sum g n.
Proof.
  induction n as [|n IH]; intros H Hk Hlt; [lia|]. simpl.
  assert (Hn : f n <= g n) by (apply H; lia).
  destruct (Nat.eq_dec k n) as [->|Hne].
  - assert (big_sum f n <= big_sum g n) by (apply big_sum_le; intros; apply H; lia).
    lra.
  - assert (big_sum f n < big_sum g n)
      by (apply IH; [intros; apply H; lia | lia | exact Hlt]).
    lra.
Qed.

Lemma big_sum_nonneg (f : nat -> R) (n : nat) :
  (forall i, (i < n)%nat -> 0 <= f i) -> 0 <= big_sum f n.
Proof.
  induction n as [|n IH]; intros H; simpl; [lra|].
  assert (0 <= big_sum f n) by (apply IH; intros; apply H; lia).
  assert (0 <= f n) by (apply H; lia). lra.
Qed.

Lemma fold_left_Rplus_big_sum (l : list R) :
  forall a, fold_left Rplus l a = a + big_sum (fun i => nth i l 0) (length l).
Proof.
  induction l as [|x l IH] using rev_ind; intros a; simpl; [lra|].
  rewrite fold_left_app, length_app. simpl.
  rewrite Nat.add_1_r. simpl. rewrite IH.
  rewrite app_nth2 by lia. rewrite Nat.sub_diag. simpl.
  rewrite (big_sum_ext (fun i => nth i (l ++ [x]) 0) (fun i => nth i l 0))
    by (intros; apply app_nth1; assumption).
  lra.
Qed.

Lemma sum_array (l : list R) :
  sum (Array l) = big_sum (fun i => nth i l 0) (length l).
Proof. unfold sum. simpl. rewrite fold_left_Rplus_big_sum. lra. Qed.

Lemma but_last_length {A : Type} (v : list A) :
  length (but_last v) = (length v - 1)%nat.
Proof.
  unfold but_last. induction v as [|x [|y v] IH]; simpl in *; try reflexivity.
  rewrite IH. lia.
Qed.

Lemma but_first_length {A : Type} (v : list A) :
  length (but_first v) = (length v - 1)%nat.
Proof. destruct v; simpl; lia. Qed.

Lemma but_last_nth {A : Type} (d : A) (v : list A) :
  forall i, (i < length v - 1)%nat -> nth i (but_last v) d = nth i v d.
Proof.
  unfold but_last. induction v as [|x [|y v] IH]; intros i Hi; simpl in *; try lia.
  destruct i as [|i]; [reflexivity|]. apply IH. lia.
Qed.

Lemma but_first_nth {A : Type} (d : A) (v : list A) (i : nat) :
  nth i (but_first v) d = nth (S i) v d.
Proof. destruct v; simpl; [destruct i; reflexivity | reflexivity]. Qed.

Lemma nth_map_in {A B : Type} (f : A -> B) (d : A) (d' : B) (l : list A) (i : nat) :
  (i < length l)%nat -> nth i (map f l) d' = f (nth i l d).
Proof.
  intros Hi. rewrite (nth_indep _ d' (f d)) by (rewrite length_map; exact Hi).
  apply map_nth.
Qed.

Lemma objective_as_sum (v dx : list R) :
  length v = S (length dx) ->
  Constraints.objective v dx = Ok (big_sum (segment_time v dx) (length dx)).
Proof.
  intros Hlen. unfold Constraints.objective, add, div.
  assert (Hl : length (but_last v) = length dx) by (rewrite but_last_length; lia).
  assert (Hf : length (but_first v) = length dx) by (rewrite but_first_length; lia).
  rewrite bin_arrays by congruence. cbn [bind ndmap].
  rewrite bin_arrays
    by (rewrite !length_map, zip_with_length by congruence; congruence).
  cbn [bind]. f_equal. rewrite sum_array.
  rewrite zip_with_length
    by (rewrite !length_map, zip_with_length by congruence; congruence).
  rewrite length_map. apply big_sum_ext. intros i Hi.
  rewrite (zip_with_nth _ 0 0)
    by (rewrite !length_map, ?zip_with_length by congruence; congruence || lia).
  unfold segment_time.
  rewrite (nth_map_in _ 0 0) by lia.
  rewrite (nth_map_in _ 0 0) by (rewrite zip_with_length by congruence; lia).
  rewrite (zip_with_nth _ 0 0) by (congruence || lia).
  rewrite but_last_nth by lia. rewrite but_first_nth. reflexivity.
Qed.

(** C2.  For a profile of [N >= 2] speeds and [N - 1] segment lengths the
    objective is the sum over the segments [i] of
    [2 * dx[i] / (v[i] + v[i+1] + epsilon)] with [epsilon = 10^-8]. *)
Theorem objective_is_segment_sum (N : nat) (v dx : list R) :
  (2 <= N)%nat -> length v = N -> length dx = (N - 1)%nat ->
  Constraints.objective v dx =
    Ok (big_sum (fun i => 2 * nth i dx 0 / (nth i v 0 + nth (i + 1) v 0 + / 10 ^ 8))
                (N - 1)).
Proof.
  intros HN Hv Hdx. rewrite objective_as_sum by lia. rewrite Hdx.
  f_equal. apply big_sum_ext. intros i _. unfold segment_time.
  rewrite Nat.add_1_r. reflexivity.
Qed.

Lemma objective_is_segment_sum_witness :
  (2 <= 3)%nat /\
  Constraints.objective [0; 10; 0] [100; 50] =
    Ok (0 + 2 * 100 / (0 + 10 + / 10 ^ 8) + 2 * 50 / (10 + 0 + / 10 ^ 8)).
Proof.
  split; [lia|].
  exact (objective_is_segment_sum 3 [0; 10; 0] [100; 50]
           (le_S _ _ (le_n 2)) eq_refl eq_refl).
Defined.

End ObjectiveFacts.

Section ObjectiveMonotone.

Import NumPy.

Lemma replace_at_length (k : nat) (x : R) :
  forall v, length (replace_at k x v) = length v.
Proof.
  induction k as [|k IH]; intros [|y v]; simpl; try reflexivity.
  rewrite IH. reflexivity.
Qed.

Lemma replace_at_nth_same (x : R) :
  forall k v, (k < length v)%nat -> nth k (replace_at k x v) 0 = x.
Proof.
  induction k as [|k IH]; intros [|y v] H; simpl in *; try lia; [reflexivity|].
  apply IH. lia.
Qed.

Lemma replace_at_nth_other (x : R) :
  forall k v i, i <> k -> nth i (replace_at k x v) 0 = nth i v 0.
Proof.
  induction k as [|k IH]; intros [|y v] i H; simpl; try reflexivity.
  - destruct i; [congruence | reflexivity].
  - destruct i; [reflexivity|]. apply IH. congruence.
Qed.

Lemma EPSILON_pos : 0 < Constraints.EPSILON.
Proof.
  unfold Constraints.EPSILON. apply Rinv_0_lt_compat. apply pow_lt. lra.
Qed.

Lemma Forall_nth_nonneg (v : list R) (i : nat) :
  Forall (fun s => 0 <= s) v -> 0 <= nth i v 0.
Proof.
  intros H. destruct (Nat.lt_ge_cases i (length v)) as [Hi|Hi].
  - rewrite Forall_forall in H. apply H. apply nth_In. exact Hi.
  - rewrite nth_overflow by exact Hi. lra.
Qed.

Lemma segment_time_antitone (d a b : R) :
  0 <= d -> 0 < a -> a <= b -> 2 * d / b <= 2 * d / a.
Proof.
  intros Hd Ha Hab. unfold Rdiv.
  apply Rmult_le_compat_l; [lra|].
  apply Rinv_le_contravar; assumption.
Qed.

Lemma segment_time_strict (d a b : R) :
  0 < d -> 0 < a -> a < b -> 2 * d / b < 2 * d / a.
Proof.
  intros Hd Ha Hab. unfold Rdiv.
  apply Rmult_lt_compat_l; [lra|].
  apply Rinv_lt_contravar; [|assumption].
  apply Rmult_lt_0_compat; lra.
Qed.

(** C8, refuted as stated: with two segments of length zero, raising the
    interior speed from 1 to 2 leaves the objective at 0. *)
Lemma objective_not_strictly_decreasing :
  Forall (fun d => 0 <= d) [0; 0] /\
  replace_at 1 2 [0; 1; 0] = [0; 2; 0] /\
  Constraints.objective [0; 1; 0] [0; 0] = Ok 0 /\
  Constraints.objective [0; 2; 0] [0; 0] = Ok 0 /\
  ~ (forall v dx k x a b,
       length v = S (length dx) ->
       Forall (fun s => 0 <= s) v ->
       (forall i, (1 <= i <= length v - 2)%nat -> 0 < nth i v 0) ->
       Forall (fun d => 0 <= d) dx ->
       (1 <= k <= length v - 2)%nat -> nth k v 0 < x ->
       Constraints.objective v dx = Ok a ->
       Constraints.objective (replace_at k x v) dx = Ok b ->
       b < a).
Proof.
  assert (H1 : Constraints.objective [0; 1; 0] [0; 0] = Ok 0).
  { rewrite objective_as_sum by reflexivity. f_equal.
    unfold segment_time. simpl. lra. }
  assert (H2 : Constraints.objective [0; 2; 0] [0; 0] = Ok 0).
  { rewrite objective_as_sum by reflexivity. f_equal.
    unfold segment_time. simpl. lra. }
  split; [repeat constructor; lra|].
  split; [reflexivity|]. split; [exact H1|]. split; [exact H2|].
  intros H.
  specialize (H [0; 1; 0] [0; 0] 1%nat 2 0 0 eq_refl).
  assert (0 < 0); [|lra].
  apply H; try assumption.
  - repeat constructor; lra.
  - intros i Hi. simpl in Hi. assert (i = 1%nat) as -> by lia. simpl. lra.
  - repeat constructor; lra.
  - simpl. lia.
  - simpl. lra.
Qed.

(** C8, as the code behaves.  For a profile of non-negative speeds with
    positive interior speeds and non-negative segment lengths, every
    denominator of the objective is positive (the value is a finite,
    non-negative number); raising one interior speed never increases the
    objective, and strictly decreases it when at least one of the two
    segments meeting at that waypoint has positive length. *)
Theorem objective_monotone (v dx : list R) (k : nat) (x : R) :
  length v = S (length dx) ->
  Forall (fun s => 0 <= s) v ->
  (forall i, (1 <= i <= length v - 2)%nat -> 0 < nth i v 0) ->
  Forall (fun d => 0 <= d) dx ->
  (1 <= k <= length v - 2)%nat ->
  nth k v 0 < x ->
  exists t t',
    Constraints.objective v dx = Ok t /\
    Constraints.objective (replace_at k x v) dx = Ok t' /\
    (forall i, (i < length dx)%nat ->
       0 < nth i v 0 + nth (S i) v 0 + Constraints.EPSILON) /\
    0 <= t /\
    t' <= t /\
    (0 < nth (k - 1) dx 0 \/ 0 < nth k dx 0 -> t' < t).
Proof.
  intros Hlen Hv Hint Hdx Hk Hx.
  set (v' := replace_at k x v).
  exists (big_sum (segment_time v dx) (length dx)),
         (big_sum (segment_time v' dx) (length dx)).
  pose proof EPSILON_pos as He.
  assert (Hden : forall i, 0 < nth i v 0 + nth (S i) v 0 + Constraints.EPSILON).
  { intros i. pose proof (Forall_nth_nonneg v i Hv).
    pose proof (Forall_nth_nonneg v (S i) Hv). lra. }
  assert (Hv' : forall i, nth i v 0 <= nth i v' 0).
  { intros i. unfold v'. destruct (Nat.eq_dec i k) as [->|Hne].
    - rewrite replace_at_nth_same by lia. lra.
    - rewrite replace_at_nth_other by exact Hne. lra. }
  assert (Hle : forall i, (i < length dx)%nat ->
                  segment_time v' dx i <= segment_time v dx i).
  { intros i Hi. unfold segment_time.
    apply segment_time_antitone.
    - apply Forall_nth_nonneg, Hdx.
    - apply Hden.
    - pose proof (Hv' i). pose proof (Hv' (S i)). lra. }
  split; [apply objective_as_sum, Hlen|].
  split; [apply objective_as_sum; unfold v'; rewrite replace_at_length; exact Hlen|].
  split; [intros i _; apply Hden|].
  split.
  { apply big_sum_nonneg. intros i Hi. unfold segment_time.
    pose proof (Forall_nth_nonneg dx i Hdx) as Hd. specialize (Hden i).
    apply Rmult_le_pos; [lra|]. left. apply Rinv_0_lt_compat. exact Hden. }
  split; [apply big_sum_le, Hle|].
  assert (Hkk : nth k v' 0 = x) by (unfold v'; apply replace_at_nth_same; lia).
  intros [Hpos|Hpos].
  - apply (big_sum_lt _ _ _ (k - 1)); [exact Hle | lia |].
    unfold segment_time. apply segment_time_strict; [exact Hpos | apply Hden |].
    replace (S (k - 1)) with k by lia. rewrite Hkk.
    pose proof (Hv' (k - 1)%nat). lra.
  - apply (big_sum_lt _ _ _ k); [exact Hle | lia |].
    unfold segment_time. apply segment_time_strict; [exact Hpos | apply Hden |].
    rewrite Hkk. pose proof (Hv' (S k)). lra.
Qed.

Lemma objective_monotone_witness :
  exists t t',
    Constraints.objective [0; 10; 0] [100; 50] = Ok t /\
    Constraints.objective [0; 20; 0] [100; 50] = Ok t' /\
    t' < t.
Proof.
  assert (H1 : Forall (fun s => 0 <= s) [0; 10; 0]) by (repeat constructor; lra).
  assert (H2 : forall i, (1 <= i <= length [0; 10; 0] - 2)%nat ->
                 0 < nth i [0; 10; 0] 0).
  { intros i Hi. simpl in Hi. assert (i = 1%nat) as -> by lia. simpl. lra. }
  assert (H3 : Forall (fun d => 0 <= d) [100; 50]) by (repeat constructor; lra).
  assert (H4 : (1 <= 1 <= length [0; 10; 0] - 2)%nat) by (simpl; lia).
  assert (H5 : nth 1 [0; 10; 0] 0 < 20) by (simpl; lra).
  destruct (objective_monotone [0; 10; 0] [100; 50] 1 20 eq_refl H1 H2 H3 H4 H5)
    as (t & t' & Ht & Ht' & _ & _ & _ & Hlt).
  exists t, t'. split; [exact Ht|]. split; [exact Ht'|].
  apply Hlt. left. simpl. lra.
Defined.

End ObjectiveMonotone.

Section BatteryAccounting.

Import NumPy.

Lemma cumsum_from_length (xs : list R) :
  forall a, length (cumsum_from a xs) = length xs.
Proof. induction xs as [|x xs IH]; intros a; simpl; [|rewrite IH]; reflexivity. Qed.

Lemma big_sum_cons (x : R) (xs : list R) (m : nat) :
  big_sum (fun j => nth j (x :: xs) 0) (S m) =
  x + big_sum (fun j => nth j xs 0) m.
Proof.
  induction m as [|m IHm]; [simpl; lra|].
  change (big_sum (fun j => nth j (x :: xs) 0) (S (S m)))
    with (big_sum (fun j => nth j (x :: xs) 0) (S m) + nth (S m) (x :: xs) 0).
  rewrite IHm. simpl. lra.
Qed.

Lemma cumsum_from_nth (xs : list R) :
  forall a k, (k < length xs)%nat ->
    nth k (cumsum_from a xs) 0 = a + big_sum (fun j => nth j xs 0) (S k).
Proof.
  induction xs as [|x xs IH]; intros a k Hk; simpl in Hk; [lia|].
  rewrite big_sum_cons.
  destruct k as [|k].
  - simpl. lra.
  - change (nth (S k) (cumsum_from a (x :: xs)) 0)
      with (nth k (cumsum_from (a + x) xs) 0).
    rewrite IH by lia. lra.
Qed.

(** The two accumulation orders agree, entry by entry. *)
Lemma accumulation_orders_agree (P SolP dt : list R) :
  forall a b c, a - b = c / 3600 ->
    length P = length SolP -> length P = length dt ->
    zip_with Rminus
      (cumsum_from a (map (fun x => x / 3600) (zip_with Rmult P dt)))
      (cumsum_from b (map (fun x => x / 3600) (zip_with Rmult SolP dt)))
    = map (fun x => x / 3600)
        (cumsum_from c (zip_with Rmult (zip_with Rminus P SolP) dt)).
Proof.
  revert SolP dt.
  induction P as [|p P IH]; intros [|s SolP] [|t dt] a b c Habc H1 H2;
    simpl in *; try discriminate; [reflexivity|].
  f_equal; [lra|].
  apply IH; [lra | congruence | congruence].
Qed.

(** C10.  On the same per-segment net power, solar power and segment times,
    the reporter's battery levels (difference of the two cumulative sums)
    equal, entry by entry, the constraint evaluator's battery trajectory
    plus [SafeBatteryLevel], that is
    [InitialBatteryCapacity - cumsum((P - SolP) * dt) / 3600]. *)
Theorem reporter_matches_constraint (P SolP dt : list R) :
  length P = length SolP -> length P = length dt ->
  exists levels trajectory,
    (ec <- Profiles.energy_consumption (Array P) (Array dt) ;;
     eg <- Profiles.energy_gain (Array SolP) (Array dt) ;;
     Profiles.battery_levels ec eg) = Ok (Array levels) /\
    Constraints.battery_profile (Array P) (Array SolP) (Array dt)
      = Ok (Array trajectory) /\
    length levels = length P /\
    length trajectory = length P /\
    levels = map (fun b => b + Constraints.SafeBatteryLevel) trajectory /\
    levels = map (fun c => State.InitialBatteryCapacity - c / 3600)
                 (cumsum_from 0 (zip_with Rmult (zip_with Rminus P SolP) dt)) /\
    forall k, (k < length P)%nat ->
      nth k levels 0 = nth k trajectory 0 + Constraints.SafeBatteryLevel.
Proof.
  intros H1 H2.
  set (e := zip_with Rmult (zip_with Rminus P SolP) dt).
  assert (He : length e = length P).
  { unfold e. rewrite zip_with_length; rewrite zip_with_length; congruence. }
  exists (map (fun c => State.InitialBatteryCapacity - c / 3600) (cumsum_from 0 e)),
         (map (fun c => State.InitialBatteryCapacity - c / 3600
                        - Constraints.SafeBatteryLevel) (cumsum_from 0 e)).
  assert (Hmap : map (fun c => State.InitialBatteryCapacity - c / 3600)
                     (cumsum_from 0 e) =
                 map (fun b => b + Constraints.SafeBatteryLevel)
                     (map (fun c => State.InitialBatteryCapacity - c / 3600
                                    - Constraints.SafeBatteryLevel)
                          (cumsum_from 0 e))).
  { rewrite map_map. apply map_ext. intros c. lra. }
  split.
  { unfold Profiles.energy_consumption, Profiles.energy_gain,
      Profiles.battery_levels, mul, sub.
    rewrite !bin_arrays by congruence. cbn [bind ndmap cumsum].
    rewrite bin_arrays
      by (rewrite !cumsum_from_length, !length_map, !zip_with_length; congruence).
    cbn [bind ndmap]. do 2 f_equal.
    rewrite (accumulation_orders_agree P SolP dt 0 0 0) by (congruence || lra).
    fold e. rewrite map_map. reflexivity. }
  split.
  { unfold Constraints.battery_profile, mul, sub.
    rewrite bin_arrays by congruence. cbn [bind].
    rewrite bin_arrays by (rewrite zip_with_length; congruence).
    cbn [bind ndmap cumsum]. fold e. rewrite map_map. reflexivity. }
  split; [rewrite length_map, cumsum_from_length; exact He|].
  split; [rewrite length_map, cumsum_from_length; exact He|].
  split; [exact Hmap|]. split; [reflexivity|].
  intros k Hk. rewrite Hmap at 1.
  rewrite (nth_map_in _ 0 0)
    by (rewrite length_map, cumsum_from_length, He; exact Hk).
  reflexivity.
Qed.

Lemma reporter_matches_constraint_witness :
  exists levels trajectory,
    Constraints.battery_profile (Array [500; 800]) (Array [300; 900]) (Array [60; 120])
      = Ok (Array trajectory) /\
    levels = map (fun b => b + Constraints.SafeBatteryLevel) trajectory.
Proof.
  destruct (reporter_matches_constraint [500; 800] [300; 900] [60; 120]
              eq_refl eq_refl) as (l & t & _ & Ht & _ & _ & Hl & _).
  exists l, t. split; [exact Ht | exact Hl].
Defined.

End BatteryAccounting.

Section Tabulate.

Import NumPy.

Lemma tabulate_length {A : Type} (n : nat) (g : nat -> A) :
  length (tabulate n g) = n.
Proof. unfold tabulate. rewrite length_map, length_seq. reflexivity. Qed.

Lemma tabulate_nth {A : Type} (n : nat) (g : nat -> A) (d : A) (k : nat) :
  (k < n)%nat -> nth k (tabulate n g) d = g k.
Proof.
  intros Hk. unfold tabulate.
  rewrite (nth_map_in _ 0%nat) by (rewrite length_seq; exact Hk).
  rewrite seq_nth by exact Hk. reflexivity.
Qed.

Lemma tabulate_ext {A : Type} (n : nat) (g h : nat -> A) :
  (forall k, (k < n)%nat -> g k = h k) -> tabulate n g = tabulate n h.
Proof.
  intros H. unfold tabulate. apply map_ext_in. intros k Hk.
  apply in_seq in Hk. apply H. lia.
Qed.

Lemma list_eq_nth {A : Type} (d : A) (xs ys : list A) :
  length xs = length ys ->
  (forall k, (k < length xs)%nat -> nth k xs d = nth k ys d) -> xs = ys.
Proof.
  revert ys. induction xs as [|x xs IH]; intros [|y ys] Hl H; simpl in *;
    try discriminate; [reflexivity|].
  f_equal.
  - apply (H 0%nat). lia.
  - apply IH; [congruence|]. intros k Hk. apply (H (S k)). lia.
Qed.

Lemma tabulate_of_list {A : Type} (d : A) (xs : list A) :
  xs = tabulate (length xs) (fun k => nth k xs d).
Proof.
  apply (list_eq_nth d).
  - rewrite tabulate_length. reflexivity.
  - intros k Hk. rewrite tabulate_nth by exact Hk. reflexivity.
Qed.

Lemma map_tabulate {A B : Type} (f : A -> B) (n : nat) (g : nat -> A) :
  map f (tabulate n g) = tabulate n (fun k => f (g k)).
Proof. unfold tabulate. rewrite map_map. reflexivity. Qed.

Lemma zip_with_tabulate {A B C : Type} (f : A -> B -> C) (n : nat)
  (g : nat -> A) (h : nat -> B) :
  zip_with f (tabulate n g) (tabulate n h) = tabulate n (fun k => f (g k) (h k)).
Proof.
  unfold tabulate. generalize 0%nat as s.
  induction n as [|n IH]; intros s; simpl; [reflexivity|].
  rewrite IH. reflexivity.
Qed.

Lemma ndmap_tabulate {A B : Type} (f : A -> B) (n : nat) (g : nat -> A) :
  ndmap f (Array (tabulate n g)) = Array (tabulate n (fun k => f (g k))).
Proof. unfold ndmap. rewrite map_tabulate. reflexivity. Qed.

Lemma bin_tabulate {A B C : Type} (f : A -> B -> C) (n : nat)
  (g : nat -> A) (h : nat -> B) :
  bin f (Array (tabulate n g)) (Array (tabulate n h)) =
    Ok (Array (tabulate n (fun k => f (g k) (h k)))).
Proof.
  rewrite bin_arrays by (rewrite !tabulate_length; reflexivity).
  rewrite zip_with_tabulate. reflexivity.
Qed.

Lemma bin_scalar_tabulate {A B C : Type} (f : A -> B -> C) (n : nat)
  (x : A) (h : nat -> B) :
  bin f (Scalar x) (Array (tabulate n h)) =
    Ok (Array (tabulate n (fun k => f x (h k)))).
Proof. unfold bin. rewrite map_tabulate. reflexivity. Qed.

Lemma bin_tabulate_scalar {A B C : Type} (f : A -> B -> C) (n : nat)
  (g : nat -> A) (y : B) :
  bin f (Array (tabulate n g)) (Scalar y) =
    Ok (Array (tabulate n (fun k => f (g k) y))).
Proof. unfold bin. rewrite map_tabulate. reflexivity. Qed.

Lemma all_tabulate (n : nat) (c : nat -> bool) :
  all (Array (tabulate n c)) = true <-> forall k, (k < n)%nat -> c k = true.
Proof.
  unfold all, tabulate. rewrite forallb_forall. split.
  - intros H k Hk. apply H. apply in_map. apply in_seq. lia.
  - intros H b Hb. apply in_map_iff in Hb. destruct Hb as (k & <- & Hk).
    apply in_seq in Hk. apply H. lia.
Qed.

Lemma forallb_false_exists {A : Type} (f : A -> bool) (l : list A) :
  forallb f l = false -> exists x, In x l /\ f x = false.
Proof.
  induction l as [|x l IH]; simpl; intros H; [discriminate|].
  destruct (f x) eqn:Hx.
  - destruct (IH H) as (y & Hy & Hfy). exists y. auto.
  - exists x. auto.
Qed.

Lemma all_tabulate_false (n : nat) (c : nat -> bool) :
  all (Array (tabulate n c)) = false -> exists k, (k < n)%nat /\ c k = false.
Proof.
  unfold all, tabulate. intros H.
  apply forallb_false_exists in H. destruct H as (b & Hb & Hfalse).
  apply in_map_iff in Hb. destruct Hb as (k & <- & Hk).
  apply in_seq in Hk. exists k. split; [lia | exact Hfalse].
Qed.

Lemma where_tabulate (n : nat) (c : nat -> bool) (a b : nat -> R) :
  where_ (Array (tabulate n c)) (Array (tabulate n a)) (Array (tabulate n b)) =
    Ok (Array (tabulate n (fun k => if c k then a k else b k))).
Proof.
  unfold where_. rewrite bin_tabulate. cbn [bind]. rewrite bin_tabulate.
  reflexivity.
Qed.

Lemma where_scalar_tabulate (n : nat) (c : nat -> bool) (x : R) (b : nat -> R) :
  where_ (Array (tabulate n c)) (Scalar x) (Array (tabulate n b)) =
    Ok (Array (tabulate n (fun k => if c k then x else b k))).
Proof.
  unfold where_. rewrite bin_scalar_tabulate. cbn [bind]. rewrite bin_tabulate.
  reflexivity.
Qed.

End Tabulate.

Section WindingLoop.

Import NumPy.

Variable n : nat.
Variables tou speed2 : nat -> R.

Lemma bin_scalars {A B C : Type} (f : A -> B -> C) (x : A) (y : B) :
  bin f (Scalar x) (Scalar y) = Ok (Scalar (f x y)).
Proof. reflexivity. Qed.

Lemma winding_body_tabulate (T : nat -> R) :
  Car.winding_body (Array (tabulate n tou)) (Array (tabulate n speed2))
                   (Array (tabulate n T)) =
  Ok (copper_losses n tou T, eddy_losses n speed2 T,
      Array (tabulate n (fun k => next_temperature (tou k) (speed2 k) (T k))),
      Array (tabulate n (fun k => settled (tou k) (speed2 k) (T k)))).
Proof.
  unfold Car.winding_body, mul, div, add, sub.
  repeat (rewrite ?ndmap_tabulate, ?bin_tabulate; cbn [bind]).
  reflexivity.
Qed.

Lemma winding_body_scalar (t : R) :
  Car.winding_body (Array (tabulate n tou)) (Array (tabulate n speed2)) (Scalar t) =
  Ok ((copper_losses n tou (fun _ => t)), (eddy_losses n speed2 (fun _ => t)),
      Array (tabulate n (fun k => next_temperature (tou k) (speed2 k) t)),
      Array (tabulate n (fun k => settled (tou k) (speed2 k) t))).
Proof.
  unfold Car.winding_body, mul, div, add, sub.
  cbn [ndmap].
  repeat (rewrite ?ndmap_tabulate, ?bin_tabulate, ?bin_scalar_tabulate,
            ?bin_tabulate_scalar, ?bin_scalars, ?map_tabulate; cbn [bind ndmap]).
  reflexivity.
Qed.

Lemma winding_loop_unfold (fuel : nat) (T : nat -> R) :
  Car.winding_loop (S fuel) (Array (tabulate n tou)) (Array (tabulate n speed2))
                   (Array (tabulate n T)) =
  if all (Array (tabulate n (fun k => settled (tou k) (speed2 k) (T k))))
  then Ok (copper_losses n tou T, eddy_losses n speed2 T)
  else Car.winding_loop fuel (Array (tabulate n tou)) (Array (tabulate n speed2))
                        (Array (tabulate n (frozen_step tou speed2 T))).
Proof.
  cbn [Car.winding_loop]. rewrite winding_body_tabulate. cbn [bind].
  destruct (all _); [reflexivity|].
  rewrite where_tabulate. reflexivity.
Qed.

Lemma winding_loop_scalar_start (fuel : nat) (t : R) :
  Car.winding_loop fuel (Array (tabulate n tou)) (Array (tabulate n speed2))
                   (Scalar t) =
  Car.winding_loop fuel (Array (tabulate n tou)) (Array (tabulate n speed2))
                   (Array (tabulate n (fun _ => t))).
Proof.
  destruct fuel as [|fuel]; [reflexivity|].
  rewrite winding_loop_unfold.
  cbn [Car.winding_loop]. rewrite winding_body_scalar. cbn [bind].
  destruct (all _); [reflexivity|].
  rewrite where_scalar_tabulate. reflexivity.
Qed.

Lemma winding_scalar_settled (fuel : nat) (x s t r : R) :
  settled x s t = true -> winding_scalar fuel x s t = Some r -> r = t.
Proof.
  intros Hs. destruct fuel as [|fuel]; simpl; [discriminate|].
  rewrite Hs. congruence.
Qed.

Lemma winding_scalar_settled_none (fuel : nat) (x s t : R) :
  settled x s t = true -> winding_scalar fuel x s t = None -> fuel = 0%nat.
Proof.
  intros Hs. destruct fuel as [|fuel]; simpl; [reflexivity|].
  rewrite Hs. discriminate.
Qed.

(** The vectorised loop against the per-segment loops: it returns exactly
    when every segment settles within the budget, with the losses taken at
    the temperatures where the segments settled; it never raises; and it
    runs out of budget exactly when some segment does. *)
Lemma winding_loop_tabulate (fuel : nat) :
  forall X : nat -> R,
  match Car.winding_loop fuel (Array (tabulate n tou)) (Array (tabulate n speed2))
                         (Array (tabulate n X)) with
  | Ok (Pc, Pe) =>
      exists T, (forall k, (k < n)%nat ->
                   winding_scalar fuel (tou k) (speed2 k) (X k) = Some (T k)) /\
                Pc = copper_losses n tou T /\ Pe = eddy_losses n speed2 T
  | Raise _ => False
  | OutOfFuel =>
      fuel = 0%nat \/
      exists k, (k < n)%nat /\ winding_scalar fuel (tou k) (speed2 k) (X k) = None
  end.
Proof.
  induction fuel as [|fuel IH]; intros X; [simpl; auto|].
  rewrite winding_loop_unfold.
  destruct (all _) eqn:Hall.
  - exists X. split; [|split; reflexivity].
    intros k Hk. simpl.
    rewrite (proj1 (all_tabulate _ _) Hall k Hk). reflexivity.
  - apply all_tabulate_false in Hall. destruct Hall as (k0 & Hk0 & Hns).
    specialize (IH (frozen_step tou speed2 X)).
    destruct (Car.winding_loop fuel _ _ _) as [[Pc Pe]|e|].
    + destruct IH as (T & HT & HPc & HPe). exists T. split; [|auto].
      intros k Hk. specialize (HT k Hk). unfold frozen_step in HT. simpl.
      destruct (settled (tou k) (speed2 k) (X k)) eqn:Hs; [|exact HT].
      rewrite (winding_scalar_settled _ _ _ _ _ Hs HT). reflexivity.
    + exact IH.
    + right.
      assert (Hfirst : fuel = 0%nat ->
                exists k, (k < n)%nat /\
                  winding_scalar (S fuel) (tou k) (speed2 k) (X k) = None).
      { intros ->. exists k0. split; [exact Hk0|]. simpl. rewrite Hns. reflexivity. }
      destruct IH as [H0|(k & Hk & Hnone)]; [auto|].
      unfold frozen_step in Hnone.
      destruct (settled (tou k) (speed2 k) (X k)) eqn:Hs.
      * apply Hfirst. eapply winding_scalar_settled_none; eassumption.
      * exists k. split; [exact Hk|]. simpl. rewrite Hs. exact Hnone.
Qed.

End WindingLoop.

Section PowerModel.

Import NumPy.

Lemma wheel_torque_tabulate (n : nat) (speed slope : nat -> R) :
  Car.wheel_torque (Array (tabulate n (fun k => speed k ^ 2)))
                   (Array (tabulate n slope)) =
  Ok (Array (tabulate n (fun k => torque (speed k) (slope k)))).
Proof.
  unfold Car.wheel_torque, add.
  rewrite !ndmap_tabulate, bin_tabulate. reflexivity.
Qed.

Lemma calculate_power_tabulate (fuel n : nat) (speed acc slope : nat -> R)
  (dir ws wd : nd R) :
  match Car.calculate_power fuel (Array (tabulate n speed)) (Array (tabulate n acc))
                            (Array (tabulate n slope)) dir ws wd with
  | Ok (P_net, P_out) =>
      exists T,
        (forall k, (k < n)%nat ->
           winding_scalar fuel (torque (speed k) (slope k)) (speed k ^ 2) Config.Ta
           = Some (T k)) /\
        P_net = Array (tabulate n (fun k => net_power (speed k) (acc k) (slope k) (T k))) /\
        P_out = Array (tabulate n (fun k => output_power (speed k) (slope k)))
  | Raise _ => False
  | OutOfFuel =>
      fuel = 0%nat \/
      exists k, (k < n)%nat /\
        winding_scalar fuel (torque (speed k) (slope k)) (speed k ^ 2) Config.Ta = None
  end.
Proof.
  unfold Car.calculate_power. rewrite ndmap_tabulate, wheel_torque_tabulate.
  cbn [bind]. rewrite winding_loop_scalar_start.
  pose proof (winding_loop_tabulate n (fun k => torque (speed k) (slope k))
                (fun k => speed k ^ 2) fuel (fun _ => Config.Ta)) as H.
  destruct (Car.winding_loop fuel _ _ _) as [[Pc Pe]|e|]; cbn [bind].
  - destruct H as (T & HT & -> & ->).
    unfold mul, add, clip, copper_losses, eddy_losses.
    repeat (rewrite ?ndmap_tabulate, ?bin_tabulate; cbn [bind]).
    exists T. split; [exact HT|]. split; reflexivity.
  - exact H.
  - exact H.
Qed.

Lemma net_power_nonneg (speed acceleration slope t : R) :
  0 <= net_power speed acceleration slope t.
Proof. unfold net_power. apply Rmax_r. Qed.

Lemma clip_nonneg (a : nd R) : Forall (fun p => 0 <= p) (to_list (clip a 0)).
Proof.
  destruct a as [x|xs]; simpl.
  - constructor; [apply Rmax_r | constructor].
  - apply Forall_forall. intros p Hp. apply in_map_iff in Hp.
    destruct Hp as (y & <- & _). apply Rmax_r.
Qed.

(** Whatever the shapes of its arguments, a result of the power model has a
    non-negative first component. *)
Lemma calculate_power_nonneg (fuel : nat) (speed acceleration slope dir ws wd : nd R)
  (P_net P_out : nd R) :
  Car.calculate_power fuel speed acceleration slope dir ws wd = Ok (P_net, P_out) ->
  Forall (fun p => 0 <= p) (to_list P_net).
Proof.
  unfold Car.calculate_power.
  repeat match goal with
         | |- context [bind ?m _] =>
             destruct m as [?|?|]; cbn [bind]; try discriminate
         | |- context [match ?p with pair _ _ => _ end] => destruct p
         end;
    intros H; try discriminate H; injection H as <- _; apply clip_nonneg.
Qed.

End PowerModel.

Section ThermalRunaway.

Import NumPy.

Lemma frictional_tou_value : Car._frictional_tou = 3.565370925.
Proof.
  unfold Car._frictional_tou, Config.R_Out, Config.Mass, Config.GravityAcc,
    Config.ZeroSpeedCrr. lra.
Qed.

Lemma drag_coeff_wR2_value : Car._drag_coeff_wR2 = 0.01991832.
Proof.
  unfold Car._drag_coeff_wR2, Car._drag_coeff, Config.CDA, Config.AirDensity,
    Config.R_Out. lra.
Qed.

Lemma settled_true_iff (x s t : R) :
  settled x s t = true <-> Rabs (next_temperature x s t - t) < 0.001.
Proof.
  unfold settled, Rltb. destruct (Rlt_dec _ _); split; intros; auto; discriminate.
Qed.

Lemma settled_false_iff (x s t : R) :
  settled x s t = false <-> 0.001 <= Rabs (next_temperature x s t - t).
Proof.
  unfold settled, Rltb. destruct (Rlt_dec _ _); split; intros; auto;
    try discriminate; lra.
Qed.

Lemma resistance_pos (t : R) : 295 <= t -> 0 < winding_resistance t.
Proof. unfold winding_resistance. lra. Qed.

Lemma eddy_loss_nonneg (s t : R) : 0 <= s -> 295 <= t -> 0 <= eddy_loss s t.
Proof.
  intros Hs Ht. unfold eddy_loss.
  pose proof (resistance_pos t Ht) as Hr.
  apply Rmult_le_pos; [|exact Hs].
  apply Rmult_le_pos; [|left; apply Rinv_0_lt_compat; exact Hr].
  apply Rmult_le_pos; [|apply pow2_ge_0].
  apply Rmult_le_pos; [lra|]. left. apply Rinv_0_lt_compat. apply pow_lt. lra.
Qed.

Lemma copper_loss_nonneg (x t : R) : 295 <= t -> 0 <= copper_loss x t.
Proof.
  intros Ht. unfold copper_loss.
  pose proof (resistance_pos t Ht) as Hr.
  apply Rmult_le_pos; [|lra].
  apply Rmult_le_pos; [lra | apply pow2_ge_0].
Qed.

Lemma runaway_first (x s : R) :
  19000 <= x -> 0 <= s -> 10000 <= next_temperature x s 295.
Proof.
  intros Hx Hs. unfold next_temperature.
  pose proof (eddy_loss_nonneg s 295 Hs (Rle_refl _)) as He.
  assert (Hc : 30000 <= copper_loss x 295).
  { unfold copper_loss, remanence, winding_resistance, Config.Ta. nra. }
  unfold Config.Ta. lra.
Qed.

Lemma runaway_next (x s t : R) :
  19000 <= x -> 0 <= s -> 10000 <= t -> 2 * t <= next_temperature x s t.
Proof.
  intros Hx Hs Ht. unfold next_temperature.
  assert (Ht' : 295 <= t) by lra.
  pose proof (eddy_loss_nonneg s t Hs Ht') as He.
  assert (Hc : 5 * t <= copper_loss x t).
  { unfold copper_loss.
    assert (Hb : remanence t <= - (0.00045 * t))
      by (unfold remanence, Config.Ta; lra).
    assert (Hr : 2 <= winding_resistance t) by (unfold winding_resistance; lra).
    assert (Hb2 : 20 <= remanence t ^ 2) by nra.
    assert (Hx2 : 1 <= x ^ 2) by nra.
    assert (Hbx : 20 <= remanence t ^ 2 * x ^ 2) by nra.
    assert (Hi : 3 * (0.561 * remanence t * x) ^ 2 =
                 0.944163 * (remanence t ^ 2 * x ^ 2)) by lra.
    rewrite Hi.
    assert (Hbig : 0.00045 * t * 19000 <= - remanence t * x) by nra.
    assert (Hsq : (0.00045 * t * 19000) ^ 2 <= remanence t ^ 2 * x ^ 2) by nra.
    assert (Ht2 : 10000 * t <= t ^ 2) by nra.
    nra. }
  unfold Config.Ta. lra.
Qed.

Lemma runaway_not_settled (x s t : R) :
  19000 <= x -> 0 <= s -> 10000 <= t -> settled x s t = false.
Proof.
  intros Hx Hs Ht. apply settled_false_iff.
  pose proof (runaway_next x s t Hx Hs Ht) as Hn.
  rewrite Rabs_right by lra. lra.
Qed.

Lemma runaway_never_settles (x s : R) (fuel : nat) :
  19000 <= x -> 0 <= s ->
  forall t, 10000 <= t -> winding_scalar fuel x s t = None.
Proof.
  intros Hx Hs. induction fuel as [|fuel IH]; intros t Ht; [reflexivity|].
  simpl. rewrite runaway_not_settled by assumption.
  apply IH. pose proof (runaway_next x s t Hx Hs Ht). lra.
Qed.

Lemma runaway_from_ambient (x s : R) (fuel : nat) :
  19000 <= x -> 0 <= s -> winding_scalar fuel x s Config.Ta = None.
Proof.
  intros Hx Hs. destruct fuel as [|fuel]; [reflexivity|].
  pose proof (runaway_first x s Hx Hs) as H1.
  simpl. unfold Config.Ta at 1 2.
  assert (Hns : settled x s 295 = false).
  { apply settled_false_iff. rewrite Rabs_right by lra. lra. }
  rewrite Hns. apply runaway_never_settles; assumption.
Qed.

Lemma torque_1000 : 19000 <= torque 1000 0.
Proof.
  unfold torque. rewrite cos_0, frictional_tou_value, drag_coeff_wR2_value. lra.
Qed.

End ThermalRunaway.

Section PowerFacts.

Import NumPy.

Lemma eddy_loss_at_rest (t : R) : eddy_loss 0 t = 0.
Proof. unfold eddy_loss. apply Rmult_0_r. Qed.

Lemma torque_at_rest : torque 0 0 = 3.565370925.
Proof. unfold torque. rewrite cos_0, frictional_tou_value. lra. Qed.

Lemma at_rest_first_pass : settled (torque 0 0) (0 ^ 2) Config.Ta = false.
Proof.
  apply settled_false_iff. rewrite torque_at_rest.
  unfold next_temperature. replace (0 ^ 2) with 0 by lra.
  rewrite eddy_loss_at_rest.
  unfold copper_loss, remanence, winding_resistance, Config.Ta.
  rewrite Rabs_right; lra.
Qed.

Lemma at_rest_second_pass :
  settled (torque 0 0) (0 ^ 2) (next_temperature (torque 0 0) (0 ^ 2) Config.Ta)
  = true.
Proof.
  apply settled_true_iff. rewrite torque_at_rest.
  unfold next_temperature. replace (0 ^ 2) with 0 by lra.
  rewrite !eddy_loss_at_rest.
  unfold copper_loss, remanence, winding_resistance, Config.Ta.
  apply Rabs_def1; lra.
Qed.

(** A segment at rest on flat ground settles on the second pass. *)
Lemma at_rest_settles :
  winding_scalar 2 (torque 0 0) (0 ^ 2) Config.Ta =
    Some (next_temperature (torque 0 0) (0 ^ 2) Config.Ta).
Proof.
  cbn [winding_scalar]. rewrite at_rest_first_pass, at_rest_second_pass.
  reflexivity.
Qed.

Lemma winding_scalar_is_settled (fuel : nat) (x s : R) :
  forall t r, winding_scalar fuel x s t = Some r -> settled x s r = true.
Proof.
  induction fuel as [|fuel IH]; intros t r H; simpl in H; [discriminate|].
  destruct (settled x s t) eqn:Hs; [congruence|]. eapply IH, H.
Qed.

Lemma winding_scalar_more_fuel (fuel fuel' : nat) (x s : R) :
  (fuel <= fuel')%nat ->
  forall t r, winding_scalar fuel x s t = Some r ->
              winding_scalar fuel' x s t = Some r.
Proof.
  revert fuel'. induction fuel as [|fuel IH]; intros fuel' Hle t r H;
    simpl in H; [discriminate|].
  destruct fuel' as [|fuel']; [lia|]. simpl.
  destruct (settled x s t); [exact H|]. apply IH; [lia | exact H].
Qed.

Lemma array_as_tabulate (xs : list R) (n : nat) :
  length xs = n -> Array xs = Array (tabulate n (fun k => nth k xs 0)).
Proof. intros <-. f_equal. apply tabulate_of_list. Qed.

End PowerFacts.

Section ThermalContraction.

(** Within the solver's speed bounds the winding-temperature map is a
    contraction on [295, 345]. *)

Lemma torque_bounds (s sl : R) :
  0 <= s <= Config.MaxVelocity -> -4 <= torque s sl <= 28.
Proof.
  unfold Config.MaxVelocity. intros Hs. unfold torque.
  rewrite frictional_tou_value, drag_coeff_wR2_value.
  pose proof (COS_bound sl) as [Hc1 Hc2].
  assert (0 <= s ^ 2 <= 1225) by nra.
  lra.
Qed.

Lemma remanence_bounds (t : R) :
  295 <= t <= 345 -> 1.2876 <= remanence t <= 1.3176.
Proof. unfold remanence, Config.Ta. lra. Qed.

Lemma resistance_bounds (t : R) :
  295 <= t <= 345 -> 0.0579 <= winding_resistance t <= 0.0692.
Proof. unfold winding_resistance. lra. Qed.

Lemma copper_loss_form (x t : R) :
  copper_loss x t = 0.944163 * x ^ 2 * (remanence t ^ 2 * winding_resistance t).
Proof. unfold copper_loss. lra. Qed.

Lemma eddy_loss_form (u t : R) :
  eddy_loss u t =
  9.602 * / 10 ^ 6 / Config.R_Out ^ 2 * u * (remanence t ^ 2 / winding_resistance t).
Proof.
  unfold eddy_loss, Config.R_Out, Rdiv.
  rewrite Rpow_mult_distr, pow_inv. lra.
Qed.

Lemma eddy_coeff_bounds (u : R) :
  0 <= u <= 1225 -> 0 <= 9.602 * / 10 ^ 6 / Config.R_Out ^ 2 * u <= 0.1517.
Proof. unfold Config.R_Out. intros Hu. lra. Qed.

Lemma copper_coeff_bounds (x : R) :
  -4 <= x <= 28 -> 0 <= 0.944163 * x ^ 2 <= 740.3.
Proof. intros Hx. nra. Qed.


Lemma frac_diff (p q r r' : R) :
  r <> 0 -> r' <> 0 -> p / r - q / r' = (p * r' - q * r) / (r * r').
Proof. intros Hr Hr'. field. split; assumption. Qed.

Lemma frac_bound (N d nmax dmin : R) :
  0 <= N <= nmax -> 0 < dmin <= d -> 0 <= N / d <= nmax / dmin.
Proof.
  intros [HN1 HN2] [Hd1 Hd2].
  assert (Hd : 0 < d) by lra.
  split.
  - apply Rmult_le_pos; [exact HN1 | left; apply Rinv_0_lt_compat; exact Hd].
  - apply Rmult_le_reg_r with d; [exact Hd|].
    unfold Rdiv at 1. rewrite Rmult_assoc, Rinv_l, Rmult_1_r by lra.
    unfold Rdiv. 
    assert (nmax * / dmin * dmin = nmax) by (field; lra).
    assert (0 <= nmax * / dmin).
    { apply Rmult_le_pos; [lra | left; apply Rinv_0_lt_compat; exact Hd1]. }
    nra.
Qed.

(** Increment of [B^2 * R] between two temperatures. *)
Lemma copper_shape_diff (t t' : R) :
  295 <= t <= 345 -> 295 <= t' <= 345 ->
  exists G, 0 <= G <= 0.0003 /\
    remanence t ^ 2 * winding_resistance t
    - remanence t' ^ 2 * winding_resistance t' = G * (t - t').
Proof.
  intros Ht Ht'.
  pose proof (remanence_bounds t Ht) as HB.
  pose proof (remanence_bounds t' Ht') as HB'.
  pose proof (resistance_bounds t' Ht') as HR'.
  exists (0.00022425 * remanence t ^ 2
          - 0.0006 * winding_resistance t' * (remanence t + remanence t')).
  split.
  - assert (1.65 <= remanence t ^ 2 <= 1.7361) by nra.
    assert (0.149 <= winding_resistance t' * (remanence t + remanence t') <= 0.1824)
      by nra.
    lra.
  - unfold remanence, winding_resistance, Config.Ta. lra.
Qed.

(** Increment of [B^2 / R] between two temperatures. *)
Lemma eddy_shape_diff (t t' : R) :
  295 <= t <= 345 -> 295 <= t' <= 345 ->
  exists H, -0.15 <= H <= 0 /\
    remanence t ^ 2 / winding_resistance t
    - remanence t' ^ 2 / winding_resistance t' = H * (t - t').
Proof.
  intros Ht Ht'.
  pose proof (remanence_bounds t Ht) as HB.
  pose proof (remanence_bounds t' Ht') as HB'.
  pose proof (resistance_bounds t Ht) as HR.
  pose proof (resistance_bounds t' Ht') as HR'.
  set (N := 0.00022425 * remanence t ^ 2
            + 0.0006 * winding_resistance t * (remanence t + remanence t')).
  set (d := winding_resistance t * winding_resistance t').
  assert (HN : 0 <= N <= 0.0005).
  { unfold N.
    assert (1.65 <= remanence t ^ 2 <= 1.7361) by nra.
    assert (0.149 <= winding_resistance t * (remanence t + remanence t') <= 0.1824)
      by nra.
    lra. }
  assert (Hd : 0 < 0.00335 <= d) by (unfold d; nra).
  destruct (frac_bound N d 0.0005 0.00335 HN Hd) as [Hq1 Hq2].
  exists (- (N / d)). split; [lra|].
  rewrite frac_diff by lra. fold d.
  assert (Hnum : remanence t ^ 2 * winding_resistance t'
                 - remanence t' ^ 2 * winding_resistance t = - N * (t - t')).
  { unfold N, remanence, winding_resistance, Config.Ta. lra. }
  rewrite Hnum. unfold Rdiv. lra.
Qed.

Lemma copper_shape_bounds (t : R) :
  295 <= t <= 345 -> 0 <= remanence t ^ 2 * winding_resistance t <= 0.1202.
Proof.
  intros Ht.
  pose proof (remanence_bounds t Ht) as HB.
  pose proof (resistance_bounds t Ht) as HR.
  assert (1.65 <= remanence t ^ 2 <= 1.7361) by nra.
  nra.
Qed.

Lemma eddy_shape_bounds (t : R) :
  295 <= t <= 345 -> 0 <= remanence t ^ 2 / winding_resistance t <= 30.
Proof.
  intros Ht.
  pose proof (remanence_bounds t Ht) as HB.
  pose proof (resistance_bounds t Ht) as HR.
  assert (HB2 : 0 <= remanence t ^ 2 <= 1.7361) by nra.
  destruct (frac_bound (remanence t ^ 2) (winding_resistance t) 1.7361 0.0579 HB2)
    as [H1 H2]; [lra|].
  lra.
Qed.

Section Contraction.

Variables x u : R.
Hypothesis Hx : -4 <= x <= 28.
Hypothesis Hu : 0 <= u <= 1225.

Lemma next_temperature_form (t : R) :
  next_temperature x u t =
  0.455 * (0.944163 * x ^ 2 * (remanence t ^ 2 * winding_resistance t)
           + 9.602 * / 10 ^ 6 / Config.R_Out ^ 2 * u
             * (remanence t ^ 2 / winding_resistance t)) + 295.
Proof.
  unfold next_temperature. rewrite copper_loss_form, eddy_loss_form.
  unfold Config.Ta. reflexivity.
Qed.

Lemma next_temperature_in_range (t : R) :
  295 <= t <= 345 -> 295 <= next_temperature x u t <= 337.6.
Proof.
  intros Ht. rewrite next_temperature_form.
  pose proof (copper_coeff_bounds x Hx) as Ha.
  pose proof (eddy_coeff_bounds u Hu) as He.
  pose proof (copper_shape_bounds t Ht) as Hg.
  pose proof (eddy_shape_bounds t Ht) as Hh.
  set (a := 0.944163 * x ^ 2) in *.
  set (e := 9.602 * / 10 ^ 6 / Config.R_Out ^ 2 * u) in *.
  set (g := remanence t ^ 2 * winding_resistance t) in *.
  set (h := remanence t ^ 2 / winding_resistance t) in *.
  assert (0 <= a * g <= 740.3 * 0.1202) by nra.
  assert (0 <= e * h <= 0.1517 * 30) by nra.
  lra.
Qed.

Lemma next_temperature_contracts (t t' : R) :
  295 <= t <= 345 -> 295 <= t' <= 345 ->
  Rabs (next_temperature x u t - next_temperature x u t') <= 0.11 * Rabs (t - t').
Proof.
  intros Ht Ht'. rewrite !next_temperature_form.
  pose proof (copper_coeff_bounds x Hx) as Ha.
  pose proof (eddy_coeff_bounds u Hu) as He.
  destruct (copper_shape_diff t t' Ht Ht') as (G & HG & HGd).
  destruct (eddy_shape_diff t t' Ht Ht') as (H & HH & HHd).
  set (a := 0.944163 * x ^ 2) in *.
  set (e := 9.602 * / 10 ^ 6 / Config.R_Out ^ 2 * u) in *.
  set (g := remanence t ^ 2 * winding_resistance t) in *.
  set (h := remanence t ^ 2 / winding_resistance t) in *.
  set (g' := remanence t' ^ 2 * winding_resistance t') in *.
  set (h' := remanence t' ^ 2 / winding_resistance t') in *.
  assert (Hag : 0 <= a * G <= 740.3 * 0.0003) by nra.
  assert (Heh : - (0.1517 * 0.15) <= e * H <= 0) by nra.
  replace (0.455 * (a * g + e * h) + 295 - (0.455 * (a * g' + e * h') + 295))
    with (0.455 * (a * G + e * H) * (t - t')) by nra.
  rewrite Rabs_mult. apply Rmult_le_compat_r; [apply Rabs_pos|].
  apply Rabs_le. lra.
Qed.

Lemma settles_by_contraction (m : nat) :
  forall t delta,
    295 <= t <= 345 ->
    Rabs (next_temperature x u t - t) <= delta ->
    delta * 0.11 ^ m < 0.001 ->
    winding_scalar (S m) x u t <> None.
Proof.
  induction m as [|m IH]; intros t delta Ht Hstep Hsmall.
  - simpl in Hsmall. simpl.
    replace (settled x u t) with true; [discriminate|].
    symmetry. apply settled_true_iff. lra.
  - change (winding_scalar (S (S m)) x u t)
      with (if settled x u t then Some t
            else winding_scalar (S m) x u (next_temperature x u t)).
    destruct (settled x u t); [discriminate|].
    pose proof (next_temperature_in_range t Ht) as Hin.
    apply (IH _ (0.11 * delta)).
    + lra.
    + eapply Rle_trans; [apply next_temperature_contracts; lra|].
      apply Rmult_le_compat_l; [lra | exact Hstep].
    + simpl in Hsmall. lra.
Qed.

Lemma settles_from_ambient : winding_scalar 6 x u Config.Ta <> None.
Proof.
  apply (settles_by_contraction 5 _ 42.6).
  - unfold Config.Ta. lra.
  - assert (Hr : 295 <= Config.Ta <= 345) by (unfold Config.Ta; lra).
    pose proof (next_temperature_in_range _ Hr) as Hin.
    unfold Config.Ta in *. apply Rabs_le. lra.
  - lra.
Qed.

End Contraction.

(** Every segment driven at a speed within the solver bounds
    [0, MaxVelocity], on any slope, settles within six passes. *)
Lemma bounded_speed_settles (fuel : nat) (s sl : R) :
  (6 <= fuel)%nat -> 0 <= s <= Config.MaxVelocity ->
  winding_scalar fuel (torque s sl) (s ^ 2) Config.Ta <> None.
Proof.
  intros Hfuel Hs.
  assert (Hu : 0 <= s ^ 2 <= 1225) by (unfold Config.MaxVelocity in Hs; nra).
  pose proof (settles_from_ambient _ _ (torque_bounds s sl Hs) Hu) as H6.
  destruct (winding_scalar 6 (torque s sl) (s ^ 2) Config.Ta) as [r|] eqn:Hr;
    [|congruence].
  rewrite (winding_scalar_more_fuel 6 fuel _ _ Hfuel _ _ Hr). discriminate.
Qed.

End ThermalContraction.

Section PowerClaims.

Import NumPy.

Lemma calculate_power_no_fuel (n : nat) (speed acc slope : nat -> R)
  (dir ws wd : nd R) :
  Car.calculate_power 0 (Array (tabulate n speed)) (Array (tabulate n acc))
                      (Array (tabulate n slope)) dir ws wd = OutOfFuel.
Proof.
  unfold Car.calculate_power. rewrite ndmap_tabulate, wheel_torque_tabulate.
  reflexivity.
Qed.

(** C7.  The wheel torque is [frictional_torque * cos(slope)] plus a drag
    torque [_drag_coeff_wR2 * speed^2]; the output power returned by the
    power model is that torque times [speed / R_Out]; and the whole result
    of the power model is the same whatever heading, wind speed and wind
    direction are passed. *)
Theorem torque_ignores_wind (speed slope : list R) :
  length slope = length speed ->
  Car.wheel_torque (ndmap (fun s => s ^ 2) (Array speed)) (Array slope) =
    Ok (Array (tabulate (length speed)
                 (fun k => Car._frictional_tou * cos (nth k slope 0)
                           + Car._drag_coeff_wR2 * nth k speed 0 ^ 2))) /\
  (forall fuel acceleration dir ws wd dir' ws' wd',
     Car.calculate_power fuel (Array speed) acceleration (Array slope) dir ws wd =
     Car.calculate_power fuel (Array speed) acceleration (Array slope) dir' ws' wd') /\
  (forall fuel acceleration dir ws wd P_net P_out,
     length acceleration = length speed ->
     Car.calculate_power fuel (Array speed) (Array acceleration) (Array slope)
                         dir ws wd = Ok (P_net, P_out) ->
     P_out = Array (tabulate (length speed)
               (fun k => (Car._frictional_tou * cos (nth k slope 0)
                          + Car._drag_coeff_wR2 * nth k speed 0 ^ 2)
                         * nth k speed 0 / Config.R_Out))).
Proof.
  intros Hsl. set (n := length speed).
  rewrite (array_as_tabulate speed n eq_refl).
  rewrite (array_as_tabulate slope n Hsl).
  split; [|split].
  - rewrite ndmap_tabulate. apply wheel_torque_tabulate.
  - reflexivity.
  - intros fuel acc dir ws wd P_net P_out Hacc Hrun.
    rewrite (array_as_tabulate acc n Hacc) in Hrun.
    pose proof (calculate_power_tabulate fuel n (fun k => nth k speed 0)
                  (fun k => nth k acc 0) (fun k => nth k slope 0) dir ws wd) as H.
    rewrite Hrun in H. destruct H as (T & _ & _ & ->). reflexivity.
Qed.

Lemma torque_ignores_wind_witness :
  Car.calculate_power 2 (Array [0]) (Array [0]) (Array [0])
                      (Array [0]) (Array [3]) (Array [1]) =
  Car.calculate_power 2 (Array [0]) (Array [0]) (Array [0])
                      (Array [2]) (Array [30]) (Array [0.5]).
Proof.
  destruct (torque_ignores_wind [0] [0] eq_refl) as (_ & H & _).
  apply H.
Defined.

(** C5, refuted as stated: in binary64, for a segment at speed 0 on a flat
    road with the finite acceleration 1e308, [Mass * acceleration] overflows
    to infinity, infinity times the zero speed is [nan], and [clip(0)]
    keeps [nan]: the net power returned is not [>= 0]. *)
Lemma net_power_nan_on_overflow :
  exists P_net P_out,
    Car64.calculate_power 6 0 1e308 1 0 0 0 0 = Some (P_net, P_out) /\
    PrimFloat.is_nan P_net = true /\
    PrimFloat.leb 0 P_net = false.
Proof. vm_compute. eexists _, _. repeat split. Qed.

(** C5, as the code behaves when no intermediate value overflows, the
    arithmetic being exact.  On arrays of equal length, every result of the
    power model has as first component, entry by entry,
    [max(output_power + windage_loss + copper_loss + eddy_loss
    + acceleration_power, 0)], with the losses taken at the temperature
    where the segment settled, and so every entry is non-negative; a
    result is produced as soon as every segment's winding temperature
    settles within the budget, which it does within six passes for every
    speed in [0, MaxVelocity], whatever the acceleration and the slope
    (segments at rest included). *)
Theorem net_power_clipped (fuel : nat) (speed acceleration slope : list R)
  (dir ws wd : nd R) :
  length acceleration = length speed ->
  length slope = length speed ->
  let run := Car.calculate_power fuel (Array speed) (Array acceleration)
                                 (Array slope) dir ws wd in
  (forall P_net P_out, run = Ok (P_net, P_out) ->
     exists net, P_net = Array net /\ length net = length speed /\
       forall k, (k < length speed)%nat ->
         let s := nth k speed 0 in
         let a := nth k acceleration 0 in
         let sl := nth k slope 0 in
         let t := settled_temperature fuel s sl in
         nth k net 0 =
           Rmax (output_power s sl
                 + (windage_loss s + copper_loss (torque s sl) t
                    + eddy_loss (s ^ 2) t + acceleration_power s a sl)) 0 /\
         0 <= nth k net 0) /\
  ((0 < fuel)%nat ->
   (forall k, (k < length speed)%nat ->
      winding_scalar fuel (torque (nth k speed 0) (nth k slope 0))
                     (nth k speed 0 ^ 2) Config.Ta <> None) ->
   exists P_net P_out, run = Ok (P_net, P_out)) /\
  ((6 <= fuel)%nat ->
   (forall k, (k < length speed)%nat ->
      0 <= nth k speed 0 <= Config.MaxVelocity) ->
   exists P_net P_out, run = Ok (P_net, P_out)).
Proof.
  intros Hacc Hsl. cbv zeta. set (n := length speed) in *.
  rewrite (array_as_tabulate speed n eq_refl).
  rewrite (array_as_tabulate acceleration n Hacc).
  rewrite (array_as_tabulate slope n Hsl).
  pose proof (calculate_power_tabulate fuel n (fun k => nth k speed 0)
                (fun k => nth k acceleration 0) (fun k => nth k slope 0)
                dir ws wd) as H.
  destruct (Car.calculate_power fuel _ _ _ dir ws wd) as [[P_net P_out]|e|].
  - destruct H as (T & HT & -> & ->). split; [|split; eauto].
    intros P_net P_out Heq. injection Heq as <- <-.
    eexists. split; [reflexivity|].
    split; [apply tabulate_length|].
    intros k Hk. rewrite tabulate_nth by exact Hk.
    assert (Ht : T k = settled_temperature fuel (nth k speed 0) (nth k slope 0)).
    { unfold settled_temperature. rewrite (HT k Hk). reflexivity. }
    rewrite Ht. split; [reflexivity | apply net_power_nonneg].
  - contradiction.
  - split; [discriminate|]. split.
    + intros Hfuel Hsettle.
      destruct H as [H|(k & Hk & Hnone)]; [lia|].
      exfalso. exact (Hsettle k Hk Hnone).
    + intros Hfuel Hspeed.
      destruct H as [H|(k & Hk & Hnone)]; [lia|].
      exfalso. exact (bounded_speed_settles fuel _ _ Hfuel (Hspeed k Hk) Hnone).
Qed.

Lemma net_power_clipped_witness :
  exists net P_out,
    Car.calculate_power 2 (Array [0]) (Array [0]) (Array [0])
                        (Array [0]) (Array [0]) (Array [0])
      = Ok (Array net, P_out) /\
    0 <= nth 0 net 0.
Proof.
  assert (Hs : forall k, (k < length [0])%nat ->
             winding_scalar 2 (torque (nth k [0] 0) (nth k [0] 0))
                            (nth k [0] 0 ^ 2) Config.Ta <> None).
  { intros k Hk. simpl in Hk. assert (k = 0%nat) as -> by lia.
    simpl nth. rewrite at_rest_settles. discriminate. }
  destruct (net_power_clipped 2 [0] [0] [0] (Array [0]) (Array [0]) (Array [0])
              eq_refl eq_refl) as (Hshape & Hreturns & _).
  destruct (Hreturns (le_S _ _ (le_n 1)) Hs) as (P_net & P_out & Hrun).
  destruct (Hshape P_net P_out Hrun) as (net & -> & _ & Hk).
  exists net, P_out. split; [exact Hrun|].
  apply (Hk 0%nat). simpl. lia.
Defined.

(** C3, refuted as stated: for a single flat segment driven at 1000 m/s the
    loop makes ever larger temperature steps; no number of passes ends the
    evaluation, neither with a value nor with an error. *)
Lemma winding_loop_never_exits :
  ~ halts (fun fuel =>
             Car.calculate_power fuel (Array [1000]) (Array [0]) (Array [0])
                                 (Array [0]) (Array [0]) (Array [0])).
Proof.
  intros [fuel H]. apply H. clear H.
  pose proof (calculate_power_tabulate fuel 1 (fun _ => 1000) (fun _ => 0)
                (fun _ => 0) (Array [0]) (Array [0]) (Array [0])) as H.
  change (tabulate 1 (fun _ : nat => 1000)) with [1000] in H.
  change (tabulate 1 (fun _ : nat => 0)) with [0] in H.
  destruct (Car.calculate_power fuel _ _ _ _ _ _) as [[P_net P_out]|e|].
  - destruct H as (T & HT & _). specialize (HT 0%nat (Nat.lt_0_succ 0)).
    rewrite runaway_from_ambient in HT; [discriminate | apply torque_1000 |].
    apply pow2_ge_0.
  - contradiction.
  - reflexivity.
Qed.

(** C3, as the code behaves.  On arrays of equal length the loop has no
    failure path and no cap: the evaluation never raises; it is still
    running after [fuel] passes exactly when some segment has not settled by
    then; when it returns, every segment has reached a temperature whose
    next change is below 0.001, and any larger number of passes gives the
    same result; and it does return within six passes when every speed lies
    in [0, MaxVelocity]. *)
Theorem winding_loop_exit_condition (fuel : nat)
  (speed acceleration slope : list R) (dir ws wd : nd R) :
  length acceleration = length speed ->
  length slope = length speed ->
  let run := fun f =>
    Car.calculate_power f (Array speed) (Array acceleration) (Array slope)
                        dir ws wd in
  let settles := fun f k =>
    winding_scalar f (torque (nth k speed 0) (nth k slope 0))
                   (nth k speed 0 ^ 2) Config.Ta in
  (forall e, run fuel <> Raise e) /\
  (run fuel = OutOfFuel <->
   fuel = 0%nat \/ exists k, (k < length speed)%nat /\ settles fuel k = None) /\
  (forall r, run fuel = Ok r ->
     (forall k, (k < length speed)%nat ->
        exists t, settles fuel k = Some t /\
          Rabs (next_temperature (torque (nth k speed 0) (nth k slope 0))
                                 (nth k speed 0 ^ 2) t - t) < 0.001) /\
     (forall fuel', (fuel <= fuel')%nat -> run fuel' = Ok r)) /\
  ((6 <= fuel)%nat ->
   (forall k, (k < length speed)%nat ->
      0 <= nth k speed 0 <= Config.MaxVelocity) ->
   exists r, run fuel = Ok r).
Proof.
  intros Hacc Hsl run settles. set (n := length speed) in *.
  assert (Hrun : forall f, run f =
            Car.calculate_power f (Array (tabulate n (fun k => nth k speed 0)))
              (Array (tabulate n (fun k => nth k acceleration 0)))
              (Array (tabulate n (fun k => nth k slope 0))) dir ws wd).
  { intros f. unfold run.
    rewrite <- (array_as_tabulate speed n eq_refl).
    rewrite <- (array_as_tabulate acceleration n Hacc).
    rewrite <- (array_as_tabulate slope n Hsl). reflexivity. }
  assert (Hcases : forall f,
            match run f with
            | Ok (P_net, P_out) =>
                exists T, (forall k, (k < n)%nat -> settles f k = Some (T k)) /\
                  P_net = Array (tabulate n (fun k =>
                            net_power (nth k speed 0) (nth k acceleration 0)
                                      (nth k slope 0) (T k))) /\
                  P_out = Array (tabulate n (fun k =>
                            output_power (nth k speed 0) (nth k slope 0)))
            | Raise _ => False
            | OutOfFuel =>
                f = 0%nat \/ exists k, (k < n)%nat /\ settles f k = None
            end).
  { intros f. rewrite Hrun. apply calculate_power_tabulate. }
  assert (Hzero : run 0%nat = OutOfFuel).
  { rewrite Hrun. apply calculate_power_no_fuel. }
  split; [|split; [|split]].
  - intros e He. specialize (Hcases fuel). rewrite He in Hcases. exact Hcases.
  - split.
    + intros Hout. specialize (Hcases fuel). rewrite Hout in Hcases. exact Hcases.
    + intros [->|(k & Hk & Hnone)]; [exact Hzero|].
      specialize (Hcases fuel).
      destruct (run fuel) as [[P_net P_out]|e|]; [|contradiction|reflexivity].
      destruct Hcases as (T & HT & _). rewrite (HT k Hk) in Hnone. discriminate.
  - intros [P_net P_out] Hok.
    pose proof (Hcases fuel) as Hc. rewrite Hok in Hc.
    destruct Hc as (T & HT & HP & HPo). split.
    + intros k Hk. exists (T k). split; [exact (HT k Hk)|].
      apply settled_true_iff. eapply winding_scalar_is_settled. exact (HT k Hk).
    + intros fuel' Hle. specialize (Hcases fuel').
      destruct (run fuel') as [[P_net' P_out']|e|].
      * destruct Hcases as (T' & HT' & -> & ->). rewrite HP, HPo.
        do 3 f_equal. apply tabulate_ext. intros k Hk.
        assert (T' k = T k); [|congruence].
        pose proof (winding_scalar_more_fuel fuel fuel' _ _ Hle _ _ (HT k Hk)) as Hm.
        fold (settles fuel' k) in Hm. rewrite (HT' k Hk) in Hm. congruence.
      * contradiction.
      * exfalso. destruct Hcases as [->|(k & Hk & Hnone)].
        -- assert (fuel = 0%nat) as -> by lia. rewrite Hzero in Hok. discriminate.
        -- pose proof (winding_scalar_more_fuel fuel fuel' _ _ Hle _ _ (HT k Hk)) as Hm.
           fold (settles fuel' k) in Hm. rewrite Hnone in Hm. discriminate.
  - intros Hfuel Hspeed. specialize (Hcases fuel).
    destruct (run fuel) as [r|e|]; [eauto | contradiction |].
    exfalso. destruct Hcases as [->|(k & Hk & Hnone)]; [lia|].
    exact (bounded_speed_settles fuel _ _ Hfuel (Hspeed k Hk) Hnone).
Qed.

Lemma winding_loop_exit_condition_witness :
  exists r,
    Car.calculate_power 2 (Array [0]) (Array [0]) (Array [0])
                        (Array [0]) (Array [0]) (Array [0]) = Ok r /\
    Car.calculate_power 9 (Array [0]) (Array [0]) (Array [0])
                        (Array [0]) (Array [0]) (Array [0]) = Ok r.
Proof.
  destruct (winding_loop_exit_condition 2 [0] [0] [0] (Array [0]) (Array [0])
              (Array [0]) eq_refl eq_refl) as (Hraise & Hout & Hok & _).
  destruct (Car.calculate_power 2 (Array [0]) (Array [0]) (Array [0])
              (Array [0]) (Array [0]) (Array [0])) as [r|e|] eqn:Hrun.
  - exists r. split; [reflexivity|].
    apply (Hok r eq_refl). lia.
  - exfalso. exact (Hraise e eq_refl).
  - exfalso. destruct (proj1 Hout eq_refl) as [H|(k & Hk & Hnone)]; [lia|].
    simpl in Hk. assert (k = 0%nat) as -> by lia.
    simpl nth in Hnone. rewrite at_rest_settles in Hnone. discriminate.
Defined.

End PowerClaims.

Section Feasibility.

Import NumPy.

Lemma cumsum_tabulate (n : nat) (g : nat -> R) :
  cumsum_from 0 (tabulate n g) = tabulate n (fun k => big_sum g (S k)).
Proof.
  apply (list_eq_nth 0).
  - rewrite cumsum_from_length, !tabulate_length. reflexivity.
  - intros k Hk. rewrite cumsum_from_length, tabulate_length in Hk.
    rewrite cumsum_from_nth by (rewrite tabulate_length; exact Hk).
    rewrite tabulate_nth by exact Hk.
    rewrite (big_sum_ext _ g) by (intros i Hi; apply tabulate_nth; lia).
    lra.
Qed.

Lemma but_last_tabulate (v : list R) (n : nat) :
  length v = S n -> but_last v = tabulate n (fun k => nth k v 0).
Proof.
  intros Hv. apply (list_eq_nth 0).
  - rewrite but_last_length, tabulate_length. lia.
  - intros k Hk. rewrite but_last_length in Hk.
    rewrite but_last_nth by exact Hk. rewrite tabulate_nth by lia. reflexivity.
Qed.

Lemma but_first_tabulate (v : list R) (n : nat) :
  length v = S n -> but_first v = tabulate n (fun k => nth (S k) v 0).
Proof.
  intros Hv. apply (list_eq_nth 0).
  - rewrite but_first_length, tabulate_length. lia.
  - intros k Hk. rewrite but_first_length in Hk.
    rewrite but_first_nth. rewrite tabulate_nth by lia. reflexivity.
Qed.

Lemma fold_left_Rmin_spec (xs : list R) :
  forall x, let m := fold_left Rmin xs x in
    In m (x :: xs) /\ forall y, In y (x :: xs) -> m <= y.
Proof.
  induction xs as [|z xs IH]; intros x; simpl.
  - split; [auto|]. intros y [<-|[]]. lra.
  - destruct (IH (Rmin x z)) as [Hin Hle]. simpl in Hin, Hle. split.
    + destruct Hin as [Hin|Hin]; [|auto].
      rewrite <- Hin. unfold Rmin. destruct (Rle_dec x z); auto.
    + intros y [<-|[<-|Hy]].
      * eapply Rle_trans; [apply Hle; left; reflexivity | apply Rmin_l].
      * eapply Rle_trans; [apply Hle; left; reflexivity | apply Rmin_r].
      * apply Hle. auto.
Qed.

Lemma fold_left_Rmax_spec (xs : list R) :
  forall x, let m := fold_left Rmax xs x in
    In m (x :: xs) /\ forall y, In y (x :: xs) -> y <= m.
Proof.
  induction xs as [|z xs IH]; intros x; simpl.
  - split; [auto|]. intros y [<-|[]]. lra.
  - destruct (IH (Rmax x z)) as [Hin Hle]. simpl in Hin, Hle. split.
    + destruct Hin as [Hin|Hin]; [|auto].
      rewrite <- Hin. unfold Rmax. destruct (Rle_dec x z); auto.
    + intros y [<-|[<-|Hy]].
      * eapply Rle_trans; [apply Rmax_l | apply Hle; left; reflexivity].
      * eapply Rle_trans; [apply Rmax_r | apply Hle; left; reflexivity].
      * apply Hle. auto.
Qed.

Lemma min_tabulate (n : nat) (g : nat -> R) :
  (0 < n)%nat ->
  exists m, min (Array (tabulate n g)) = Ok m /\
    (exists k, (k < n)%nat /\ m = g k) /\
    (forall k, (k < n)%nat -> m <= g k).
Proof.
  intros Hn. unfold min. cbn [to_list].
  destruct (tabulate n g) as [|x xs] eqn:Htab.
  - apply (f_equal (@length R)) in Htab. rewrite tabulate_length in Htab.
    simpl in Htab. lia.
  - destruct (fold_left_Rmin_spec xs x) as [Hin Hle]. rewrite <- Htab in Hin, Hle.
    eexists. split; [reflexivity|]. split.
    + unfold tabulate in Hin. apply in_map_iff in Hin.
      destruct Hin as (k & Hk & Hseq). apply in_seq in Hseq.
      exists k. split; [lia | symmetry; exact Hk].
    + intros k Hk. apply Hle. unfold tabulate. apply in_map. apply in_seq. lia.
Qed.

Lemma max_tabulate (n : nat) (g : nat -> R) :
  (0 < n)%nat ->
  exists m, max (Array (tabulate n g)) = Ok m /\
    (exists k, (k < n)%nat /\ m = g k) /\
    (forall k, (k < n)%nat -> g k <= m).
Proof.
  intros Hn. unfold max. cbn [to_list].
  destruct (tabulate n g) as [|x xs] eqn:Htab.
  - apply (f_equal (@length R)) in Htab. rewrite tabulate_length in Htab.
    simpl in Htab. lia.
  - destruct (fold_left_Rmax_spec xs x) as [Hin Hle]. rewrite <- Htab in Hin, Hle.
    eexists. split; [reflexivity|]. split.
    + unfold tabulate in Hin. apply in_map_iff in Hin.
      destruct Hin as (k & Hk & Hseq). apply in_seq in Hseq.
      exists k. split; [lia | symmetry; exact Hk].
    + intros k Hk. apply Hle. unfold tabulate. apply in_map. apply in_seq. lia.
Qed.

(** The power model on arrays of equal length once every segment settles. *)
Lemma calculate_power_settled (fuel n : nat) (speed acc slope : nat -> R)
  (dir ws wd : nd R) :
  (0 < fuel)%nat ->
  (forall k, (k < n)%nat ->
     winding_scalar fuel (torque (speed k) (slope k)) (speed k ^ 2) Config.Ta
     <> None) ->
  Car.calculate_power fuel (Array (tabulate n speed)) (Array (tabulate n acc))
                      (Array (tabulate n slope)) dir ws wd =
  Ok (Array (tabulate n (fun k =>
        net_power (speed k) (acc k) (slope k)
                  (settled_temperature fuel (speed k) (slope k)))),
      Array (tabulate n (fun k => output_power (speed k) (slope k)))).
Proof.
  intros Hfuel Hsettle.
  pose proof (calculate_power_tabulate fuel n speed acc slope dir ws wd) as H.
  destruct (Car.calculate_power fuel _ _ _ dir ws wd) as [[P_net P_out]|e|].
  - destruct H as (T & HT & -> & ->). do 3 f_equal.
    apply tabulate_ext. intros k Hk.
    unfold settled_temperature. rewrite (HT k Hk). reflexivity.
  - contradiction.
  - destruct H as [H|(k & Hk & Hnone)]; [lia|].
    exfalso. exact (Hsettle k Hk Hnone).
Qed.

End Feasibility.

Section FeasibilityClaim.

Import NumPy.

(** The two margins of a route whose segments all settle: the evaluation
    returns, the battery margin is the minimum of the battery levels above
    the reserve and the power margin is the cap minus the maximum net
    power. *)
Lemma margins_of_settled_route (df : list Weather.row) (fuel N : nat)
  (v dx ds dir : list R) :
  (2 <= N)%nat -> length v = N ->
  length dx = (N - 1)%nat -> length ds = (N - 1)%nat ->
  (0 < fuel)%nat ->
  (forall k, (k < N - 1)%nat ->
     avg_speed_at v k + Constraints.EPSILON <> 0 /\ nth k dx 0 <> 0) ->
  (forall k, (k < N - 1)%nat ->
     (0 <= bucket_of (minutes_at v dx k) < Z.of_nat (length df))%Z) ->
  (forall k, (k < N - 1)%nat ->
     winding_scalar fuel (torque (avg_speed_at v k) (nth k ds 0))
                    (avg_speed_at v k ^ 2) Config.Ta <> None) ->
  let P := fun k =>
    net_power (avg_speed_at v k) (acceleration_at v dx k) (nth k ds 0)
              (settled_temperature fuel (avg_speed_at v k) (nth k ds 0)) in
  let SolP := fun k =>
    nth (Z.to_nat (bucket_of (minutes_at v dx k))) (Weather._ghi df) 0
    * (Config.PanelArea * Config.PanelEfficiency) in
  let level := fun k =>
    State.InitialBatteryCapacity
    - big_sum (fun j => (P j - SolP j) * segment_dt v dx j) (S k) / 3600
    - Config.BatteryCapacity * Config.DeepDischargeCap in
  exists battery_margin power_margin,
    Constraints.battery_acc_constraint_func df fuel v dx ds dir
      = Ok (battery_margin, power_margin) /\
    ((exists k, (k < N - 1)%nat /\ battery_margin = level k) /\
     (forall k, (k < N - 1)%nat -> battery_margin <= level k)) /\
    ((exists k, (k < N - 1)%nat /\
        power_margin = Config.MaxCurrent * Config.BusVoltage - P k) /\
     (forall k, (k < N - 1)%nat ->
        power_margin <= Config.MaxCurrent * Config.BusVoltage - P k)) /\
    (Constraints.feasible (battery_margin, power_margin) <->
     forall k, (k < N - 1)%nat ->
       0 <= level k /\ P k <= Config.MaxCurrent * Config.BusVoltage).
Proof.
  intros HN Hv Hdx Hds Hfuel _ Hbuckets Hsettle P SolP level.
  set (n := (N - 1)%nat) in *.
  assert (Hvn : length v = S n) by (unfold n; lia).
  assert (Hn : (0 < n)%nat) by (unfold n; lia).
  destruct (min_tabulate n level Hn) as (bm & Hmin & Hbm_in & Hbm_le).
  destruct (max_tabulate n P Hn) as (M & Hmax & HM_in & HM_le).
  exists bm, (Constraints.MaxPower - M).
  split.
  { unfold Constraints.battery_acc_constraint_func, add, sub, div.
    rewrite (but_last_tabulate v n Hvn), (but_first_tabulate v n Hvn).
    rewrite (array_as_tabulate dx n Hdx), (array_as_tabulate ds n Hds).
    repeat (rewrite ?ndmap_tabulate, ?bin_tabulate; cbn [bind]).
    unfold cumsum. rewrite cumsum_tabulate, ndmap_tabulate.
    fold (avg_speed_at v). 
    rewrite (tabulate_ext n
               (fun k => nth k dx 0 / ((nth k v 0 + nth (S k) v 0) / 2
                                       + Constraints.EPSILON))
               (segment_dt v dx)) by reflexivity.
    rewrite (tabulate_ext n
               (fun k => big_sum (fun k0 => nth k0 dx 0
                            / ((nth k0 v 0 + nth (S k0) v 0) / 2
                               + Constraints.EPSILON)) (S k) / 60)
               (minutes_at v dx)) by reflexivity.
    assert (Hrange : Forall (fun m =>
               (0 <= bucket_of m < Z.of_nat (length df))%Z)
               (tabulate n (minutes_at v dx))).
    { apply Forall_forall. intros m Hm. unfold tabulate in Hm.
      apply in_map_iff in Hm. destruct Hm as (k & <- & Hk).
      apply in_seq in Hk. apply Hbuckets. lia. }
    rewrite (get_wind_data_in_range df _ Hrange). cbn [bind].
    rewrite (calculate_power_settled fuel n
               (fun k => (nth k v 0 + nth (S k) v 0) / 2)
               (fun k => (nth (S k) v 0 - nth k v 0) / segment_dt v dx k)
               (fun k => nth k ds 0)) by assumption.
    cbn [bind].
    rewrite (get_solar_power_in_range df _ Hrange). cbn [bind].
    rewrite map_tabulate.
    unfold Constraints.battery_profile, sub, mul.
    repeat (rewrite ?ndmap_tabulate, ?bin_tabulate; cbn [bind]).
    unfold cumsum. rewrite cumsum_tabulate, !ndmap_tabulate.
    change (bind (min (Array (tabulate n level)))
              (fun m => bind (max (Array (tabulate n P)))
                 (fun M0 => Ok (m, Constraints.MaxPower - M0)))
            = Ok (bm, Constraints.MaxPower - M)).
    rewrite Hmin. cbn [bind].
    rewrite Hmax. reflexivity. }
  split; [split; assumption|].
  assert (HMP : Constraints.MaxPower = Config.MaxCurrent * Config.BusVoltage)
    by reflexivity.
  split.
  { rewrite <- HMP. split.
    - destruct HM_in as (k & Hk & ->). exists k. auto.
    - intros k Hk. specialize (HM_le k Hk). lra. }
  rewrite <- HMP. unfold Constraints.feasible. cbn [fst snd]. split.
  - intros [Hb Hp] k Hk. specialize (Hbm_le k Hk). specialize (HM_le k Hk).
    split; lra.
  - intros H. destruct Hbm_in as (k1 & Hk1 & ->). destruct HM_in as (k2 & Hk2 & ->).
    destruct (H k1 Hk1) as [H1 _]. destruct (H k2 Hk2) as [_ H2]. split; lra.
Qed.

Lemma get_wind_data_out_of_bounds (df : list Weather.row) (ms : list R) :
  Exists (fun m => (bucket_of m < - Z.of_nat (length df)
                    \/ Z.of_nat (length df) <= bucket_of m)%Z) ms ->
  Weather.get_wind_data df (Array ms) = Raise IndexError.
Proof.
  intros Hex. destruct (series_lengths df) as (_ & Hs & _).
  unfold Weather.get_wind_data. rewrite bucket_index_array. unfold take.
  rewrite getitems_out_of_bounds; [reflexivity|].
  apply Exists_exists in Hex. destruct Hex as (m & Hin & Hm).
  apply Exists_exists. exists (bucket_of m).
  split; [apply in_map, Hin|]. rewrite Hs. exact Hm.
Qed.

Lemma standstill_minutes : minutes_at [0; 0] [600] 0 = 1000000000.
Proof.
  unfold minutes_at, segment_dt, avg_speed_at, Constraints.EPSILON.
  simpl. field.
Qed.

Lemma standstill_bucket : bucket_of (minutes_at [0; 0] [600] 0) = 200000012%Z.
Proof. rewrite standstill_minutes. apply bucket_of_eq. lra. Qed.

Lemma standstill_overruns_table (df : list Weather.row) (fuel : nat)
  (slope heading : R) :
  (Z.of_nat (length df) <= 200000012)%Z ->
  Constraints.battery_acc_constraint_func df fuel [0; 0] [600] [slope] [heading]
    = Raise IndexError.
Proof.
  intros Hlen.
  unfold Constraints.battery_acc_constraint_func, add, sub, div.
  rewrite (but_last_tabulate [0; 0] 1 eq_refl),
    (but_first_tabulate [0; 0] 1 eq_refl).
  rewrite (array_as_tabulate [600] 1 eq_refl).
  repeat (rewrite ?ndmap_tabulate, ?bin_tabulate; cbn [bind]).
  unfold cumsum. rewrite cumsum_tabulate, ndmap_tabulate.
  rewrite (tabulate_ext 1
             (fun k => big_sum (fun k0 => nth k0 [600] 0
                          / ((nth k0 [0; 0] 0 + nth (S k0) [0; 0] 0) / 2
                             + Constraints.EPSILON)) (S k) / 60)
             (minutes_at [0; 0] [600])) by reflexivity.
  rewrite get_wind_data_out_of_bounds; [reflexivity|].
  apply Exists_cons_hd. rewrite standstill_bucket. lia.
Qed.

Lemma racing_bucket : bucket_of (minutes_at [1000; 1000] [600] 0) = 12%Z.
Proof.
  apply bucket_of_eq.
  unfold minutes_at, segment_dt, avg_speed_at, Constraints.EPSILON.
  simpl. lra.
Qed.

Lemma racing_never_returns (df : list Weather.row) (fuel : nat) (heading : R) :
  (12 < Z.of_nat (length df))%Z ->
  Constraints.battery_acc_constraint_func df fuel [1000; 1000] [600] [0] [heading]
    = OutOfFuel.
Proof.
  intros Hlen.
  unfold Constraints.battery_acc_constraint_func, add, sub, div.
  rewrite (but_last_tabulate [1000; 1000] 1 eq_refl),
    (but_first_tabulate [1000; 1000] 1 eq_refl).
  rewrite (array_as_tabulate [600] 1 eq_refl), (array_as_tabulate [0] 1 eq_refl).
  repeat (rewrite ?ndmap_tabulate, ?bin_tabulate; cbn [bind]).
  unfold cumsum. rewrite cumsum_tabulate, ndmap_tabulate.
  rewrite (tabulate_ext 1
             (fun k => big_sum (fun k0 => nth k0 [600] 0
                          / ((nth k0 [1000; 1000] 0 + nth (S k0) [1000; 1000] 0) / 2
                             + Constraints.EPSILON)) (S k) / 60)
             (minutes_at [1000; 1000] [600])) by reflexivity.
  assert (Hrange : Forall (fun m =>
             (0 <= bucket_of m < Z.of_nat (length df))%Z)
             (tabulate 1 (minutes_at [1000; 1000] [600]))).
  { constructor; [|constructor]. rewrite racing_bucket. lia. }
  rewrite (get_wind_data_in_range df _ Hrange). cbn [bind].
  match goal with
  | |- context [Car.calculate_power fuel (Array (tabulate 1 ?sp))
                  (Array (tabulate 1 ?ac)) (Array (tabulate 1 ?sl)) ?d ?w1 ?w2] =>
      pose proof (calculate_power_tabulate fuel 1 sp ac sl d w1 w2) as H;
      destruct (Car.calculate_power fuel (Array (tabulate 1 sp))
                  (Array (tabulate 1 ac)) (Array (tabulate 1 sl)) d w1 w2)
        as [[P_net P_out]|e|]
  end.
  - exfalso. destruct H as (T & HT & _).
    specialize (HT 0%nat (Nat.lt_0_succ 0)). cbn [nth] in HT.
    replace ((1000 + 1000) / 2) with 1000 in HT by lra.
    rewrite runaway_from_ambient in HT; [discriminate | apply torque_1000 | lra].
  - contradiction.
  - reflexivity.
Qed.

(** C1, refuted as stated, on the thirteen-row table.  The profile [0; 0]
    over one segment of 600 m is at rest, so the segment time is
    [600 / EPSILON], sixty thousand million seconds; its minute falls in
    bucket 200000012 of the weather series, far beyond the table, and the
    evaluation raises [IndexError] instead of returning two scalars.  The
    profile [1000; 1000] over the same segment stays inside the table, but
    its winding temperature never settles: no number of passes makes the
    evaluation return. *)
Lemma feasibility_fails_to_return :
  (2 <= length [0; 0])%nat /\
  bucket_of (minutes_at [0; 0] [600] 0) = 200000012%Z /\
  length sample_table = 13%nat /\
  (forall fuel,
     Constraints.battery_acc_constraint_func sample_table fuel
       [0; 0] [600] [0] [0] = Raise IndexError) /\
  (forall fuel,
     Constraints.battery_acc_constraint_func sample_table fuel
       [1000; 1000] [600] [0] [0] = OutOfFuel).
Proof.
  split; [simpl; lia|]. split; [apply standstill_bucket|].
  split; [reflexivity|]. split.
  - intros fuel. apply standstill_overruns_table. simpl. lia.
  - intros fuel. apply racing_never_returns. simpl. lia.
Qed.

Lemma avg_speed_bounds (v : list R) (N k : nat) :
  length v = N ->
  (forall i, (i < N)%nat -> 0 <= nth i v 0 <= Config.MaxVelocity) ->
  (k < N - 1)%nat ->
  0 <= avg_speed_at v k <= Config.MaxVelocity.
Proof.
  intros Hv Hb Hk. unfold avg_speed_at.
  pose proof (Hb k ltac:(lia)) as H1. pose proof (Hb (S k) ltac:(lia)) as H2.
  lra.
Qed.

(** C1, as the code behaves.  For a profile of [N >= 2] speeds within the
    solver's range [0, MaxVelocity], with [N - 1] segments of positive
    length whose time buckets lie inside the loaded weather series, the
    feasibility evaluation returns two scalars, for every budget of at
    least six passes of the winding loop.  The battery margin is the
    minimum over the segments of the initial charge, minus the running sum
    of [(net_power - solar_power) * segment_time] divided by 3600, minus
    the reserve [BatteryCapacity * DeepDischargeCap]; the power margin is
    [MaxCurrent * BusVoltage] minus the maximum net power.  Both are
    non-negative exactly when every battery level stays at or above the
    reserve and every net power stays at or below the cap. *)
Theorem feasibility_margins (df : list Weather.row) (fuel N : nat)
  (v dx ds dir : list R) :
  (2 <= N)%nat -> length v = N ->
  length dx = (N - 1)%nat -> length ds = (N - 1)%nat ->
  (6 <= fuel)%nat ->
  (forall k, (k < N)%nat -> 0 <= nth k v 0 <= Config.MaxVelocity) ->
  (forall k, (k < N - 1)%nat -> 0 < nth k dx 0) ->
  (forall k, (k < N - 1)%nat ->
     (0 <= bucket_of (minutes_at v dx k) < Z.of_nat (length df))%Z) ->
  let P := fun k =>
    net_power (avg_speed_at v k) (acceleration_at v dx k) (nth k ds 0)
              (settled_temperature fuel (avg_speed_at v k) (nth k ds 0)) in
  let SolP := fun k =>
    nth (Z.to_nat (bucket_of (minutes_at v dx k))) (Weather._ghi df) 0
    * (Config.PanelArea * Config.PanelEfficiency) in
  let level := fun k =>
    State.InitialBatteryCapacity
    - big_sum (fun j => (P j - SolP j) * segment_dt v dx j) (S k) / 3600
    - Config.BatteryCapacity * Config.DeepDischargeCap in
  exists battery_margin power_margin,
    Constraints.battery_acc_constraint_func df fuel v dx ds dir
      = Ok (battery_margin, power_margin) /\
    ((exists k, (k < N - 1)%nat /\ battery_margin = level k) /\
     (forall k, (k < N - 1)%nat -> battery_margin <= level k)) /\
    ((exists k, (k < N - 1)%nat /\
        power_margin = Config.MaxCurrent * Config.BusVoltage - P k) /\
     (forall k, (k < N - 1)%nat ->
        power_margin <= Config.MaxCurrent * Config.BusVoltage - P k)) /\
    (Constraints.feasible (battery_margin, power_margin) <->
     forall k, (k < N - 1)%nat ->
       0 <= level k /\ P k <= Config.MaxCurrent * Config.BusVoltage).
Proof.
  intros HN Hv Hdx Hds Hfuel Hspeed Hlen Hbuckets.
  apply margins_of_settled_route; try assumption.
  - lia.
  - intros k Hk. pose proof (avg_speed_bounds v N k Hv Hspeed Hk) as [H0 _].
    pose proof EPSILON_pos. pose proof (Hlen k Hk). split; lra.
  - intros k Hk. apply bounded_speed_settles; [exact Hfuel|].
    apply (avg_speed_bounds v N k Hv Hspeed Hk).
Qed.

End FeasibilityClaim.

Section SampleRoute.

Import NumPy.

Lemma sample_buckets (k : nat) :
  (k < 2)%nat ->
  bucket_of (minutes_at sample_profile sample_dx k) = 12%Z.
Proof.
  intros Hk. apply bucket_of_eq.
  destruct k as [|[|k]]; [| |lia];
    unfold minutes_at, segment_dt, avg_speed_at, Constraints.EPSILON,
      sample_profile, sample_dx;
    simpl; lra.
Qed.

Lemma sample_speeds (k : nat) :
  0 <= avg_speed_at sample_profile k <= Config.MaxVelocity.
Proof.
  unfold avg_speed_at, Config.MaxVelocity, sample_profile.
  destruct k as [|[|[|k]]]; simpl; try lra.
  destruct k; simpl; lra.
Qed.

Lemma feasibility_margins_witness :
  exists battery_margin power_margin,
    Constraints.battery_acc_constraint_func sample_table 6
      sample_profile sample_dx sample_slopes sample_headings
    = Ok (battery_margin, power_margin).
Proof.
  assert (Hv : forall k, (k < 3)%nat ->
            0 <= nth k sample_profile 0 <= Config.MaxVelocity).
  { intros k Hk. unfold sample_profile, Config.MaxVelocity.
    destruct k as [|[|[|k]]]; simpl; [lra | lra | lra | lia]. }
  assert (Hd : forall k, (k < 3 - 1)%nat -> 0 < nth k sample_dx 0).
  { intros k Hk. unfold sample_dx.
    destruct k as [|[|k]]; simpl; [lra | lra | lia]. }
  assert (Hb : forall k, (k < 3 - 1)%nat ->
            (0 <= bucket_of (minutes_at sample_profile sample_dx k)
             < Z.of_nat (length sample_table))%Z).
  { intros k Hk. rewrite sample_buckets by exact Hk. simpl. lia. }
  destruct (feasibility_margins sample_table 6 3 sample_profile sample_dx
              sample_slopes sample_headings
              (le_S _ _ (le_n 2)) eq_refl eq_refl eq_refl
              (le_n 6) Hv Hd Hb)
    as (bm & pm & Hrun & _).
  exists bm, pm. exact Hrun.
Defined.

End SampleRoute.

Section Evaluators.

Import NumPy.

Variable df : list Weather.row.
Variable fuel : nat.
Variables v dx ds dir : list R.
Hypothesis Hev : evaluable df fuel v dx ds.

Lemma evaluable_segments : (0 < segments v)%nat /\ length v = S (segments v).
Proof. destruct Hev as (H & _). unfold segments. lia. Qed.

(** The shared front part of both evaluators. *)
Lemma segment_physics_run :
  exists ws wd,
    Weather.get_wind_data df (Array (tabulate (segments v) (minutes_at v dx)))
      = Ok (ws, wd) /\
    Car.calculate_power fuel (Array (tabulate (segments v) (avg_speed_at v)))
      (Array (tabulate (segments v) (acceleration_at v dx)))
      (Array ds) (Array dir) ws wd =
      Ok (Array (tabulate (segments v) (segment_power fuel v dx ds)),
          Array (tabulate (segments v)
                   (fun k => output_power (avg_speed_at v k) (nth k ds 0)))) /\
    Weather.get_solar_power df (Array (tabulate (segments v) (minutes_at v dx))) =
      Ok (Array (tabulate (segments v) (segment_solar df v dx))).
Proof.
  destruct Hev as (_ & Hdx & Hds & Hfuel & _ & Hb & Hs).
  assert (Hrange : Forall (fun m =>
             (0 <= bucket_of m < Z.of_nat (length df))%Z)
             (tabulate (segments v) (minutes_at v dx))).
  { apply Forall_forall. intros m Hm. unfold tabulate in Hm.
    apply in_map_iff in Hm. destruct Hm as (k & <- & Hk).
    apply in_seq in Hk. apply Hb. lia. }
  eexists _, _. split; [apply (get_wind_data_in_range df _ Hrange)|]. split.
  - rewrite (array_as_tabulate ds _ Hds).
    apply calculate_power_settled; assumption.
  - rewrite (get_solar_power_in_range df _ Hrange), map_tabulate. reflexivity.
Qed.

Lemma segment_arrays_run :
  let start_speeds := Array (but_last v) in
  let stop_speeds := Array (but_first v) in
  exists s dt dv,
    add start_speeds stop_speeds = Ok s /\
    ndmap (fun x => x / 2) s = Array (tabulate (segments v) (avg_speed_at v)) /\
    div (Array dx) (ndmap (fun x => x + Constraints.EPSILON)
                          (ndmap (fun x => x / 2) s)) = Ok dt /\
    dt = Array (tabulate (segments v) (segment_dt v dx)) /\
    sub stop_speeds start_speeds = Ok dv /\
    div dv dt = Ok (Array (tabulate (segments v) (acceleration_at v dx))) /\
    ndmap (fun x => x / 60) (cumsum dt)
      = Array (tabulate (segments v) (minutes_at v dx)) /\
    cumsum dt = Array (tabulate (segments v)
                         (fun k => big_sum (segment_dt v dx) (S k))).
Proof.
  destruct evaluable_segments as [Hn Hvn].
  destruct Hev as (_ & Hdx & Hds & _).
  cbv zeta. unfold add, sub, div.
  rewrite (but_last_tabulate v _ Hvn), (but_first_tabulate v _ Hvn).
  rewrite (array_as_tabulate dx _ Hdx).
  repeat (rewrite ?ndmap_tabulate, ?bin_tabulate).
  eexists _, _, _. split; [reflexivity|].
  rewrite !ndmap_tabulate. split; [reflexivity|].
  rewrite bin_tabulate. split; [reflexivity|]. split; [reflexivity|].
  split; [reflexivity|]. rewrite bin_tabulate. split; [reflexivity|].
  unfold cumsum. rewrite cumsum_tabulate, ndmap_tabulate. split; reflexivity.
Qed.

Lemma battery_acc_constraint_func_run :
  Constraints.battery_acc_constraint_func df fuel v dx ds dir =
  (m <- min (Array (tabulate (segments v) (fun k =>
          State.InitialBatteryCapacity
          - big_sum (fun j => (segment_power fuel v dx ds j - segment_solar df v dx j)
                              * segment_dt v dx j) (S k) / 3600
          - Constraints.SafeBatteryLevel))) ;;
   M <- max (Array (tabulate (segments v) (segment_power fuel v dx ds))) ;;
   Ok (m, Constraints.MaxPower - M)).
Proof.
  destruct segment_physics_run as (ws & wd & Hw & Hp & Hsol).
  destruct segment_arrays_run as (s & dt & dv & Hs & Havg & Hdt & -> & Hdv & Hacc & Hmin & Hcum).
  unfold Constraints.battery_acc_constraint_func.
  rewrite Hs. cbn [bind]. rewrite Hdt. cbn [bind]. rewrite Hdv. cbn [bind].
  rewrite Hacc. cbn [bind]. rewrite Hmin, Hw. cbn [bind].
  rewrite Havg, Hp. cbn [bind]. rewrite Hsol. cbn [bind].
  unfold Constraints.battery_profile, sub, mul.
  repeat (rewrite ?ndmap_tabulate, ?bin_tabulate; cbn [bind]).
  unfold cumsum. rewrite cumsum_tabulate, !ndmap_tabulate.
  reflexivity.
Qed.

Lemma extract_profiles_run :
  Profiles.extract_profiles df fuel v dx ds dir =
  Ok (Profiles.mk_telemetry
        (0 :: dx) v
        (None :: map Some (tabulate (segments v) (acceleration_at v dx)))
        (map (fun x => x * 100 / Config.BatteryCapacity)
           (State.InitialBatteryCapacity ::
            tabulate (segments v) (fun k =>
              State.InitialBatteryCapacity
              - (big_sum (fun j => segment_power fuel v dx ds j
                                   * segment_dt v dx j / 3600) (S k)
                 - big_sum (fun j => segment_solar df v dx j
                                     * segment_dt v dx j / 3600) (S k)))))
        (None :: map Some (tabulate (segments v) (fun k =>
           segment_power fuel v dx ds k * segment_dt v dx k / 3600)))
        (None :: map Some (tabulate (segments v) (fun k =>
           segment_solar df v dx k * segment_dt v dx k / 3600)))
        (0 :: tabulate (segments v) (fun k => big_sum (segment_dt v dx) (S k)))).
Proof.
  destruct segment_physics_run as (ws & wd & Hw & Hp & Hsol).
  destruct segment_arrays_run as (s & dt & dv & Hs & Havg & Hdt & -> & Hdv & Hacc & Hmin & Hcum).
  unfold Profiles.extract_profiles.
  change Profiles.EPSILON with Constraints.EPSILON.
  rewrite Hs. cbn [bind]. rewrite Hdt. cbn [bind]. rewrite Hdv. cbn [bind].
  rewrite Hacc. cbn [bind]. rewrite Hmin, Hw. cbn [bind].
  rewrite Havg, Hp. cbn [bind]. rewrite Hsol. cbn [bind].
  unfold Profiles.energy_consumption, Profiles.energy_gain,
    Profiles.battery_levels, sub, mul.
  repeat (rewrite ?ndmap_tabulate, ?bin_tabulate; cbn [bind]).
  rewrite Hcum.
  unfold cumsum. rewrite !cumsum_tabulate.
  repeat (rewrite ?ndmap_tabulate, ?bin_tabulate; cbn [bind]).
  reflexivity.
Qed.

End Evaluators.

Section Reporter.

Import NumPy.

Lemma big_sum_weighted_split (f g w : nat -> R) (m : nat) :
  big_sum (fun j => (f j - g j) * w j) m / 3600 =
  big_sum (fun j => f j * w j / 3600) m - big_sum (fun j => g j * w j / 3600) m.
Proof. induction m as [|m IH]; simpl; lra. Qed.

Lemma segment_dt_nonneg (v dx : list R) (k : nat) :
  Forall (fun s => 0 <= s) v -> Forall (fun d => 0 <= d) dx ->
  0 <= segment_dt v dx k.
Proof.
  intros Hv Hdx. unfold segment_dt, avg_speed_at.
  pose proof (Forall_nth_nonneg v k Hv).
  pose proof (Forall_nth_nonneg v (S k) Hv).
  pose proof (Forall_nth_nonneg dx k Hdx).
  pose proof EPSILON_pos.
  apply Rmult_le_pos; [assumption|].
  left. apply Rinv_0_lt_compat. lra.
Qed.

(** X1.  The seven telemetry sequences are aligned with the waypoints: each has
    one entry per waypoint, the speed column is the profile itself, and the
    entry of the starting waypoint is 0 for distance and elapsed time, 100
    for the battery percentage and undefined for acceleration, consumption
    and gain. *)
Theorem telemetry_is_aligned (df : list Weather.row) (fuel : nat)
  (v dx ds dir : list R) :
  evaluable df fuel v dx ds ->
  exists tm,
    Profiles.extract_profiles df fuel v dx ds dir = Ok tm /\
    Profiles.speeds tm = v /\
    (length (Profiles.distances tm) = length v /\
     length (Profiles.accelerations tm) = length v /\
     length (Profiles.battery_percent tm) = length v /\
     length (Profiles.consumption tm) = length v /\
     length (Profiles.gain tm) = length v /\
     length (Profiles.elapsed tm) = length v) /\
    (nth_error (Profiles.distances tm) 0 = Some 0 /\
     nth_error (Profiles.accelerations tm) 0 = Some None /\
     nth_error (Profiles.battery_percent tm) 0 = Some 100 /\
     nth_error (Profiles.consumption tm) 0 = Some None /\
     nth_error (Profiles.gain tm) 0 = Some None /\
     nth_error (Profiles.elapsed tm) 0 = Some 0).
Proof.
  intros Hev. eexists. split; [apply extract_profiles_run; exact Hev|].
  destruct (evaluable_segments df fuel v dx ds Hev) as [_ Hvn].
  destruct Hev as (_ & Hdx & _).
  cbn [Profiles.speeds Profiles.distances Profiles.accelerations
       Profiles.battery_percent Profiles.consumption Profiles.gain
       Profiles.elapsed].
  split; [reflexivity|]. split.
  - cbn [length map]. rewrite !length_map, !tabulate_length, Hdx, Hvn. auto 10.
  - cbn [nth_error map]. repeat split.
    f_equal. unfold State.InitialBatteryCapacity, Config.BatteryCapacity. lra.
Qed.

(** X2.  The battery margin of the constraint evaluator is non-negative exactly
    when every battery percentage reported after the start is at least 20,
    the deep-discharge cap in percent. *)
Theorem margin_matches_reported_percentage (df : list Weather.row) (fuel : nat)
  (v dx ds dir : list R) :
  evaluable df fuel v dx ds ->
  exists tm battery_margin power_margin,
    Profiles.extract_profiles df fuel v dx ds dir = Ok tm /\
    Constraints.battery_acc_constraint_func df fuel v dx ds dir
      = Ok (battery_margin, power_margin) /\
    (0 <= battery_margin <->
     forall k, (1 <= k < length v)%nat ->
       100 * Config.DeepDischargeCap <= nth k (Profiles.battery_percent tm) 0).
Proof.
  intros Hev.
  destruct (evaluable_segments df fuel v dx ds Hev) as [Hn Hvn].
  set (P := segment_power fuel v dx ds).
  set (S_ := segment_solar df v dx).
  set (level := fun k =>
          State.InitialBatteryCapacity
          - big_sum (fun j => (P j - S_ j) * segment_dt v dx j) (S k) / 3600
          - Constraints.SafeBatteryLevel).
  destruct (min_tabulate (segments v) level Hn) as (bm & Hmin & Hbm_in & Hbm_le).
  destruct (max_tabulate (segments v) P Hn) as (M & Hmax & _).
  eexists _, bm, (Constraints.MaxPower - M).
  split; [apply extract_profiles_run; exact Hev|]. split.
  { rewrite (battery_acc_constraint_func_run df fuel v dx ds dir Hev).
    fold P S_ level. rewrite Hmin. cbn [bind]. rewrite Hmax. reflexivity. }
  cbn [Profiles.battery_percent]. fold P S_.
  assert (Hpct : forall k, (k < segments v)%nat ->
            (0 <= level k <->
             100 * Config.DeepDischargeCap <=
             nth (S k)
               (map (fun x => x * 100 / Config.BatteryCapacity)
                  (State.InitialBatteryCapacity ::
                   tabulate (segments v) (fun k0 =>
                     State.InitialBatteryCapacity
                     - (big_sum (fun j => P j * segment_dt v dx j / 3600) (S k0)
                        - big_sum (fun j => S_ j * segment_dt v dx j / 3600) (S k0)))))
               0)).
  { intros k Hk. cbn [map nth].
    rewrite (nth_map_in _ 0 0) by (rewrite tabulate_length; exact Hk).
    rewrite tabulate_nth by exact Hk. unfold level.
    rewrite big_sum_weighted_split.
    unfold Constraints.SafeBatteryLevel, Config.BatteryCapacity,
      Config.DeepDischargeCap. lra. }
  split.
  - intros Hbm k Hk. destruct k as [|k]; [lia|].
    apply Hpct; [lia|]. assert (bm <= level k) by (apply Hbm_le; lia). lra.
  - intros H. destruct Hbm_in as (k & Hk & ->).
    apply Hpct; [exact Hk|]. apply H. lia.
Qed.

(** X3.  On a route that both evaluators complete, with non-negative speeds and
    strictly positive segment lengths, the total time returned by
    [objective] is strictly larger than the final elapsed time of the
    telemetry: the objective adds [epsilon] to the sum of the two end
    speeds, the reporter to their average. *)
Theorem objective_exceeds_elapsed (df : list Weather.row) (fuel : nat)
  (v dx ds dir : list R) :
  evaluable df fuel v dx ds ->
  Forall (fun s => 0 <= s) v -> Forall (fun d => 0 < d) dx ->
  exists tm total,
    Profiles.extract_profiles df fuel v dx ds dir = Ok tm /\
    Constraints.objective v dx = Ok total /\
    last (Profiles.elapsed tm) 0 < total.
Proof.
  intros Hev Hv Hpos.
  assert (Hdx : Forall (fun d => 0 <= d) dx)
    by (apply (Forall_impl _ (fun d Hd => Rlt_le 0 d Hd) Hpos)).
  destruct (evaluable_segments df fuel v dx ds Hev) as [Hn Hvn].
  eexists _, _. split; [apply extract_profiles_run; exact Hev|].
  destruct Hev as (_ & Hlen & _ & _ & Hnz & _).
  split; [apply objective_as_sum; rewrite Hlen; exact Hvn|].
  cbn [Profiles.elapsed].
  assert (Hlast : last (0 :: tabulate (segments v)
                     (fun k => big_sum (segment_dt v dx) (S k))) 0
                  = big_sum (segment_dt v dx) (segments v)).
  { destruct (segments v) as [|m] eqn:Hm; [lia|].
    unfold tabulate. rewrite seq_S, map_app. cbn [map].
    rewrite app_comm_cons. apply last_last. }
  rewrite Hlast, Hlen.
  apply (big_sum_lt _ _ _ 0%nat); [|exact Hn|].
  - intros i Hi. unfold segment_dt, segment_time, avg_speed_at.
    pose proof (Forall_nth_nonneg v i Hv). pose proof (Forall_nth_nonneg v (S i) Hv).
    pose proof (Forall_nth_nonneg dx i Hdx). pose proof EPSILON_pos.
    replace (2 * nth i dx 0 / (nth i v 0 + nth (S i) v 0 + Constraints.EPSILON))
      with (nth i dx 0 / ((nth i v 0 + nth (S i) v 0) / 2 + Constraints.EPSILON / 2))
      by (field; lra).
    unfold Rdiv at 1 3. apply Rmult_le_compat_l; [assumption|].
    apply Rinv_le_contravar; lra.
  - unfold segment_dt, segment_time, avg_speed_at.
    pose proof (Forall_nth_nonneg v 0 Hv). pose proof (Forall_nth_nonneg v 1 Hv).
    pose proof (Forall_nth_nonneg dx 0 Hdx). pose proof EPSILON_pos.
    destruct (Hnz 0%nat Hn) as [_ Hd0].
    replace (2 * nth 0 dx 0 / (nth 0 v 0 + nth 1 v 0 + Constraints.EPSILON))
      with (nth 0 dx 0 / ((nth 0 v 0 + nth 1 v 0) / 2 + Constraints.EPSILON / 2))
      by (field; lra).
    unfold Rdiv at 1 3. apply Rmult_lt_compat_l; [lra|].
    apply Rinv_lt_contravar; [|lra].
    apply Rmult_lt_0_compat; lra.
Qed.

(** X4.  On a route that the reporter completes, with non-negative speeds and
    strictly positive segment lengths, the elapsed-time column never
    decreases and every energy consumption reported after the start is a
    non-negative number. *)
Theorem telemetry_is_monotone (df : list Weather.row) (fuel : nat)
  (v dx ds dir : list R) :
  evaluable df fuel v dx ds ->
  Forall (fun s => 0 <= s) v -> Forall (fun d => 0 < d) dx ->
  exists tm,
    Profiles.extract_profiles df fuel v dx ds dir = Ok tm /\
    (forall k, (k + 1 < length v)%nat ->
       nth k (Profiles.elapsed tm) 0 <= nth (k + 1) (Profiles.elapsed tm) 0) /\
    (forall k, (1 <= k < length v)%nat ->
       exists c, nth_error (Profiles.consumption tm) k = Some (Some c) /\ 0 <= c).
Proof.
  intros Hev Hv Hpos.
  assert (Hdx : Forall (fun d => 0 <= d) dx)
    by (apply (Forall_impl _ (fun d Hd => Rlt_le 0 d Hd) Hpos)).
  destruct (evaluable_segments df fuel v dx ds Hev) as [Hn Hvn].
  eexists. split; [apply extract_profiles_run; exact Hev|].
  cbn [Profiles.elapsed Profiles.consumption]. split.
  - intros k Hk. rewrite Nat.add_1_r. cbn [nth].
    rewrite tabulate_nth by lia.
    pose proof (segment_dt_nonneg v dx k Hv Hdx) as Hdt.
    destruct k as [|k]; cbn [nth big_sum].
    + simpl. lra.
    + rewrite tabulate_nth by lia. cbn [big_sum]. lra.
  - intros k Hk. destruct k as [|k]; [lia|]. cbn [nth_error].
    eexists. split.
    + rewrite nth_error_map.
      rewrite (nth_error_nth' _ 0) by (rewrite tabulate_length; lia).
      rewrite tabulate_nth by lia. reflexivity.
    + pose proof (segment_dt_nonneg v dx k Hv Hdx) as Hdt.
      pose proof (net_power_nonneg (avg_speed_at v k) (acceleration_at v dx k)
                    (nth k ds 0)
                    (settled_temperature fuel (avg_speed_at v k) (nth k ds 0))) as HP.
      unfold segment_power.
      apply Rmult_le_pos; [|lra]. apply Rmult_le_pos; assumption.
Qed.

End Reporter.

Section EdgeCases.

Import NumPy.

(** X5.  With fewer than two waypoints there is no segment: the feasibility
    evaluation raises [ValueError], from a shape mismatch or from the minimum
    of an empty battery trajectory, whatever the other arguments are. *)
Theorem feasibility_needs_two_waypoints (df : list Weather.row) (fuel : nat)
  (v dx ds dir : list R) :
  (length v <= 1)%nat -> (0 < fuel)%nat ->
  Constraints.battery_acc_constraint_func df fuel v dx ds dir = Raise ValueError.
Proof.
  intros Hv Hfuel.
  destruct fuel as [|fuel]; [lia|].
  destruct v as [|x [|y v]]; simpl in Hv; try lia;
    destruct dx as [|d [|d' dx]]; destruct ds as [|s [|s' ds]]; reflexivity.
Qed.

Lemma feasibility_needs_two_waypoints_witness :
  Constraints.battery_acc_constraint_func sample_table 6 [20] [] [] []
    = Raise ValueError.
Proof.
  apply feasibility_needs_two_waypoints; simpl; lia.
Defined.

Lemma bin_mismatch {A B C : Type} (f : A -> B -> C) (xs : list A) (ys : list B) :
  length xs <> length ys -> length xs <> 1%nat -> length ys <> 1%nat ->
  bin f (Array xs) (Array ys) = Raise ValueError.
Proof.
  intros Hne Hx Hy. unfold bin.
  destruct (Nat.eqb_spec (length xs) (length ys)) as [Heq|_]; [contradiction|].
  destruct xs as [|x [|x' xs]]; destruct ys as [|y [|y' ys]];
    simpl in *; try reflexivity; congruence.
Qed.

(** X6.  Speed and slope arrays of different lengths, neither of length one, make
    the power model raise [ValueError] before the winding loop is entered:
    the outcome is the same for every number of passes. *)
Theorem shape_mismatch_raises (fuel : nat) (speed slope : list R)
  (acceleration dir ws wd : nd R) :
  length speed <> length slope ->
  length speed <> 1%nat -> length slope <> 1%nat ->
  Car.calculate_power fuel (Array speed) acceleration (Array slope) dir ws wd
    = Raise ValueError.
Proof.
  intros Hne Hs Hsl. unfold Car.calculate_power, Car.wheel_torque, add.
  cbn [ndmap]. rewrite bin_mismatch; [reflexivity| | |];
    rewrite ?length_map; congruence.
Qed.

Lemma shape_mismatch_raises_witness :
  Car.calculate_power 0 (Array [10; 20]) (Array [0; 0]) (Array [0; 0; 0])
                      (Array []) (Array []) (Array []) = Raise ValueError.
Proof.
  apply shape_mismatch_raises; simpl; lia.
Defined.

(** X7.  The vectorised loop does not couple segments: the net power of a segment
    depends only on that segment's own speed, acceleration and slope. *)
Theorem segments_are_independent (fuel : nat)
  (speed acceleration slope speed' acceleration' slope' : list R)
  (dir ws wd dir' ws' wd' : nd R) (P P' P_out P_out' : list R) (k : nat) :
  length acceleration = length speed -> length slope = length speed ->
  length acceleration' = length speed' -> length slope' = length speed' ->
  (k < length speed)%nat -> (k < length speed')%nat ->
  nth k speed 0 = nth k speed' 0 ->
  nth k acceleration 0 = nth k acceleration' 0 ->
  nth k slope 0 = nth k slope' 0 ->
  Car.calculate_power fuel (Array speed) (Array acceleration) (Array slope)
                      dir ws wd = Ok (Array P, Array P_out) ->
  Car.calculate_power fuel (Array speed') (Array acceleration') (Array slope')
                      dir' ws' wd' = Ok (Array P', Array P_out') ->
  nth k P 0 = nth k P' 0 /\ nth k P_out 0 = nth k P_out' 0.
Proof.
  intros Ha Hs Ha' Hs' Hk Hk' Esp Eac Esl Hrun Hrun'.
  rewrite (array_as_tabulate speed _ eq_refl),
    (array_as_tabulate acceleration _ Ha), (array_as_tabulate slope _ Hs) in Hrun.
  rewrite (array_as_tabulate speed' _ eq_refl),
    (array_as_tabulate acceleration' _ Ha'), (array_as_tabulate slope' _ Hs') in Hrun'.
  pose proof (calculate_power_tabulate fuel (length speed)
                (fun i => nth i speed 0) (fun i => nth i acceleration 0)
                (fun i => nth i slope 0) dir ws wd) as H.
  pose proof (calculate_power_tabulate fuel (length speed')
                (fun i => nth i speed' 0) (fun i => nth i acceleration' 0)
                (fun i => nth i slope' 0) dir' ws' wd') as H'.
  rewrite Hrun in H. rewrite Hrun' in H'.
  destruct H as (T & HT & HP & HPo). destruct H' as (T' & HT' & HP' & HPo').
  injection HP as ->. injection HPo as ->.
  injection HP' as ->. injection HPo' as ->.
  rewrite !tabulate_nth by assumption.
  specialize (HT k Hk). specialize (HT' k Hk').
  rewrite Esp, Esl in HT. rewrite HT in HT'. injection HT' as <-.
  rewrite Esp, Eac, Esl. split; reflexivity.
Qed.

End EdgeCases.

Section LossBounds.

Import NumPy.

Lemma winding_scalar_in_range (x u : R) (fuel : nat) :
  -4 <= x <= 28 -> 0 <= u <= 1225 ->
  forall t r, 295 <= t <= 345 ->
    winding_scalar fuel x u t = Some r -> 295 <= r <= 345.
Proof.
  intros Hx Hu. induction fuel as [|fuel IH]; intros t r Ht H; simpl in H;
    [discriminate|].
  destruct (settled x u t).
  - injection H as <-. exact Ht.
  - pose proof (next_temperature_in_range x u Hx Hu t Ht) as Hn.
    apply (IH (next_temperature x u t) r); [lra | exact H].
Qed.

Lemma settled_temperature_in_range (fuel : nat) (s sl : R) :
  0 <= s <= Config.MaxVelocity ->
  295 <= settled_temperature fuel s sl <= 345.
Proof.
  intros Hs. unfold settled_temperature.
  destruct (winding_scalar fuel (torque s sl) (s ^ 2) Config.Ta) as [r|] eqn:Hr.
  - assert (Hu : 0 <= s ^ 2 <= 1225) by (unfold Config.MaxVelocity in Hs; nra).
    apply (winding_scalar_in_range (torque s sl) (s ^ 2) fuel
             (torque_bounds s sl Hs) Hu Config.Ta r);
      [unfold Config.Ta; lra | exact Hr].
  - unfold Config.Ta. lra.
Qed.

Lemma losses_bounded (x u t : R) :
  -4 <= x <= 28 -> 0 <= u <= 1225 -> 295 <= t <= 345 ->
  0 <= copper_loss x t /\ 0 <= eddy_loss u t /\
  copper_loss x t + eddy_loss u t <= 93.7.
Proof.
  intros Hx Hu Ht.
  pose proof (next_temperature_in_range x u Hx Hu t Ht) as Hn.
  unfold next_temperature, Config.Ta in Hn.
  split; [apply copper_loss_nonneg; lra|].
  split; [apply eddy_loss_nonneg; lra|]. lra.
Qed.

(** X8.  Within the speed limit, on any slope and with at least six passes, the
    winding loop returns copper and eddy losses that are non-negative and sum
    to at most 93.7 W for every segment. *)
Theorem motor_losses_are_bounded (fuel : nat) (speed slope : list R) :
  length slope = length speed -> (6 <= fuel)%nat ->
  (forall k, (k < length speed)%nat ->
     0 <= nth k speed 0 <= Config.MaxVelocity) ->
  exists tou Pc Pe,
    Car.wheel_torque (ndmap (fun s => s ^ 2) (Array speed)) (Array slope) = Ok tou /\
    Car.winding_loop fuel tou (ndmap (fun s => s ^ 2) (Array speed))
                     (Scalar Config.Ta) = Ok (Array Pc, Array Pe) /\
    length Pc = length speed /\ length Pe = length speed /\
    forall k, (k < length speed)%nat ->
      0 <= nth k Pc 0 /\ 0 <= nth k Pe 0 /\ nth k Pc 0 + nth k Pe 0 <= 93.7.
Proof.
  intros Hsl Hfuel Hspeed. set (n := length speed).
  rewrite (array_as_tabulate speed n eq_refl), (array_as_tabulate slope n Hsl).
  rewrite ndmap_tabulate, wheel_torque_tabulate.
  exists (Array (tabulate n (fun k => torque (nth k speed 0) (nth k slope 0)))).
  pose proof (winding_loop_tabulate n
                (fun k => torque (nth k speed 0) (nth k slope 0))
                (fun k => nth k speed 0 ^ 2) fuel (fun _ => Config.Ta)) as H.
  rewrite <- winding_loop_scalar_start in H.
  destruct (Car.winding_loop fuel _ _ (Scalar Config.Ta)) as [[Pc Pe]|e|].
  - destruct H as (T & HT & -> & ->).
    eexists _, _. split; [reflexivity|]. split; [reflexivity|].
    rewrite !tabulate_length. split; [reflexivity|]. split; [reflexivity|].
    intros k Hk. rewrite !tabulate_nth by exact Hk.
    pose proof (Hspeed k Hk) as Hs.
    apply losses_bounded.
    + apply torque_bounds, Hs.
    + unfold Config.MaxVelocity in Hs. nra.
    + assert (Hu : 0 <= nth k speed 0 ^ 2 <= 1225)
        by (unfold Config.MaxVelocity in Hs; nra).
      apply (winding_scalar_in_range _ _ fuel
               (torque_bounds _ (nth k slope 0) Hs) Hu Config.Ta);
        [unfold Config.Ta; lra | apply HT, Hk].
  - contradiction.
  - exfalso. destruct H as [->|(k & Hk & Hnone)]; [lia|].
    exact (bounded_speed_settles fuel _ _ Hfuel (Hspeed k Hk) Hnone).
Qed.

Lemma motor_losses_are_bounded_witness :
  exists tou Pc Pe,
    Car.wheel_torque (ndmap (fun s => s ^ 2) (Array [10; 35])) (Array [0; 0.1])
      = Ok tou /\
    Car.winding_loop 6 tou (ndmap (fun s => s ^ 2) (Array [10; 35]))
                     (Scalar Config.Ta) = Ok (Array Pc, Array Pe) /\
    nth 1 Pc 0 + nth 1 Pe 0 <= 93.7.
Proof.
  assert (Hs : forall k, (k < length [10; 35])%nat ->
             0 <= nth k [10; 35] 0 <= Config.MaxVelocity).
  { intros k Hk. unfold Config.MaxVelocity.
    destruct k as [|[|k]]; simpl in *; [lra | lra | lia]. }
  destruct (motor_losses_are_bounded 6 [10; 35] [0; 0.1] eq_refl (le_n 6) Hs)
    as (tou & Pc & Pe & Ht & Hl & _ & _ & Hk).
  exists tou, Pc, Pe. split; [exact Ht|]. split; [exact Hl|].
  apply (Hk 1%nat). simpl. lia.
Defined.

(** X9.  A segment driven at zero speed delivers no output power, yet its net
    power is the copper loss of the motor holding the rolling-resistance
    torque: it does not depend on the acceleration and is positive unless
    the slope makes [cos(slope)] vanish. *)
Theorem standstill_draws_copper_loss (fuel : nat)
  (speed acceleration slope : list R) (dir ws wd : nd R)
  (P P_out : list R) (k : nat) :
  length acceleration = length speed -> length slope = length speed ->
  (k < length speed)%nat -> nth k speed 0 = 0 ->
  Car.calculate_power fuel (Array speed) (Array acceleration) (Array slope)
                      dir ws wd = Ok (Array P, Array P_out) ->
  let t := settled_temperature fuel 0 (nth k slope 0) in
  nth k P_out 0 = 0 /\
  nth k P 0 = 3 * (0.561 * (1.6716 - 0.0006 * (Config.Ta + t))
                   * (Car._frictional_tou * cos (nth k slope 0))) ^ 2
              * (0.00022425 * t - 0.00820525) /\
  (cos (nth k slope 0) <> 0 -> 0 < nth k P 0).
Proof.
  intros Ha Hs Hk H0 Hrun t.
  rewrite (array_as_tabulate speed _ eq_refl),
    (array_as_tabulate acceleration _ Ha), (array_as_tabulate slope _ Hs) in Hrun.
  pose proof (calculate_power_tabulate fuel (length speed)
                (fun i => nth i speed 0) (fun i => nth i acceleration 0)
                (fun i => nth i slope 0) dir ws wd) as H.
  rewrite Hrun in H. destruct H as (T & HT & HP & HPo).
  injection HP as ->. injection HPo as ->.
  rewrite !tabulate_nth by exact Hk. rewrite H0.
  assert (Ht : T k = t).
  { unfold t, settled_temperature. specialize (HT k Hk). rewrite H0 in HT.
    rewrite HT. reflexivity. }
  rewrite Ht.
  assert (Htr : 295 <= t <= 345).
  { apply settled_temperature_in_range. unfold Config.MaxVelocity. lra. }
  assert (Htq : torque 0 (nth k slope 0) = Car._frictional_tou * cos (nth k slope 0)).
  { unfold torque. lra. }
  assert (Hnet : net_power 0 (nth k acceleration 0) (nth k slope 0) t =
                 copper_loss (torque 0 (nth k slope 0)) t).
  { unfold net_power, output_power, windage_loss, acceleration_power.
    replace (0 ^ 2) with 0 by lra. rewrite eddy_loss_at_rest.
    assert (Hc : 0 <= copper_loss (torque 0 (nth k slope 0)) t)
      by (apply copper_loss_nonneg; lra).
    rewrite Rmax_left; [unfold Rdiv; lra | unfold Rdiv; lra]. }
  split; [unfold output_power, Rdiv; lra|].
  rewrite Hnet, Htq. split; [reflexivity|].
  intros Hcos. unfold copper_loss, remanence, winding_resistance.
  rewrite frictional_tou_value.
  assert (Hb : 1.28 <= 1.6716 - 0.0006 * (Config.Ta + t)) by (unfold Config.Ta; lra).
  assert (Hr : 0.05 <= 0.00022425 * t - 0.00820525) by lra.
  assert (Hc2 : 0 < cos (nth k slope 0) ^ 2).
  { assert (0 <= cos (nth k slope 0) ^ 2) by apply pow2_ge_0.
    assert (cos (nth k slope 0) ^ 2 <> 0) by (apply pow_nonzero; exact Hcos). lra. }
  set (B := 1.6716 - 0.0006 * (Config.Ta + t)) in *.
  set (c := cos (nth k slope 0)) in *.
  assert (Hsq : 0 < (0.561 * B * (3.565370925 * c)) ^ 2).
  { replace ((0.561 * B * (3.565370925 * c)) ^ 2)
      with ((0.561 * 3.565370925) ^ 2 * (B ^ 2 * c ^ 2)) by lra.
    apply Rmult_lt_0_compat; [lra|]. apply Rmult_lt_0_compat; [nra | exact Hc2]. }
  apply Rmult_lt_0_compat; [lra | lra].
Qed.

End LossBounds.

Section SolverInput.

Import NumPy.

(** X10.  For a route with at least one segment, the initial guess handed to the
    solver has one speed per bound and every speed lies within its bound. *)
Theorem initial_guess_within_bounds (dx : list R) :
  dx <> [] ->
  exists p,
    Main.run_optimise_setup dx = Ok p /\
    length (Main.x0 p) = S (length dx) /\
    length (Main.bounds p) = S (length dx) /\
    forall i x lo hi,
      nth_error (Main.x0 p) i = Some x ->
      nth_error (Main.bounds p) i = Some (lo, hi) ->
      lo <= x <= hi.
Proof.
  intros Hdx.
  assert (HN : (2 <= Main.N_V dx)%Z).
  { unfold Main.N_V. destruct dx; [congruence|]. simpl length. lia. }
  assert (Hn : Z.to_nat (Main.N_V dx - 2) = (length dx - 1)%nat)
    by (unfold Main.N_V; lia).
  assert (Hlen : (1 <= length dx)%nat) by (destruct dx; [congruence | simpl; lia]).
  unfold Main.run_optimise_setup, Main.initial_profile, full, Constraints.get_bounds.
  replace (Main.N_V dx - 2 <? 0)%Z with false by (symmetry; apply Z.ltb_ge; lia).
  rewrite Hn. cbn [bind]. eexists. split; [reflexivity|].
  cbn [Main.x0 Main.bounds].
  destruct (framed_repeat_shape 0 State.InitialGuessVelocity (length dx - 1))
    as (Hl & H0 & Hlast & Hint).
  destruct (framed_repeat_shape (0, 0) (0.01, Config.MaxVelocity) (length dx - 1))
    as (Hl' & H0' & Hlast' & Hint').
  split; [rewrite Hl; lia|]. split; [rewrite Hl'; lia|].
  intros i x lo hi Hx Hb.
  destruct (Nat.eq_dec i 0) as [->|Hi0].
  { rewrite H0 in Hx. rewrite H0' in Hb.
    injection Hx as <-. injection Hb as <- <-. lra. }
  destruct (Nat.eq_dec i (length dx - 1 + 1)) as [->|Hil].
  { rewrite Hlast in Hx. rewrite Hlast' in Hb.
    injection Hx as <-. injection Hb as <- <-. lra. }
  assert (Hi : (i < length dx - 1 + 2)%nat).
  { rewrite <- Hl. apply nth_error_Some. congruence. }
  rewrite Hint in Hx by lia. rewrite Hint' in Hb by lia.
  injection Hx as <-. injection Hb as <- <-.
  unfold State.InitialGuessVelocity, Config.MaxVelocity. lra.
Qed.

Lemma initial_guess_within_bounds_witness :
  exists p, Main.run_optimise_setup [600; 600] = Ok p /\
            length (Main.x0 p) = 3%nat.
Proof.
  destruct (initial_guess_within_bounds [600; 600]) as (p & Hp & Hl & _).
  - discriminate.
  - exists p. split; [exact Hp | exact Hl].
Defined.

(** X11.  The initial guess cannot be built for fewer than two waypoints: it
    raises [ValueError] exactly when [N < 2], so a route without segments is
    rejected before the solver is called; the bounds, in contrast, always
    hold [max(N, 2)] entries. *)
Theorem short_routes_are_rejected (N : Z) :
  (Main.initial_profile N = Raise ValueError <-> (N < 2)%Z) /\
  length (Constraints.get_bounds N) = Z.to_nat (Z.max N 2) /\
  Main.run_optimise_setup [] = Raise ValueError.
Proof.
  split; [|split].
  - unfold Main.initial_profile, full.
    destruct (Z.ltb_spec (N - 2) 0) as [Hlt|Hge]; cbn [bind].
    + split; [lia | reflexivity].
    + split; [discriminate | lia].
  - unfold Constraints.get_bounds.
    rewrite !length_app, repeat_length. simpl length. lia.
  - reflexivity.
Qed.

End SolverInput.

Section WeatherShape.

Import NumPy.

Lemma getitems_ok_iff (a : list R) (idx : list Z) :
  (exists xs, getitems a idx = Ok xs) <->
  Forall (fun i => (- Z.of_nat (length a) <= i < Z.of_nat (length a))%Z) idx.
Proof.
  induction idx as [|i idx IH]; simpl.
  - split; [constructor | eauto].
  - split.
    + intros [xs H]. 
      destruct (getitem a i) as [x|e|] eqn:Hi; cbn [bind] in H; try discriminate.
      destruct (getitems a idx) as [ys|e|] eqn:Hr; cbn [bind] in H; try discriminate.
      constructor; [|apply IH; eauto].
      destruct (Z_lt_ge_dec i (- Z.of_nat (length a))) as [Hlo|Hlo].
      { rewrite getitem_out_of_bounds in Hi by lia. discriminate. }
      destruct (Z_lt_ge_dec i (Z.of_nat (length a))) as [Hhi|Hhi]; [lia|].
      rewrite getitem_out_of_bounds in Hi by lia. discriminate.
    + intros H. inversion H as [|? ? Hi Hrest]; subst.
      apply IH in Hrest. destruct Hrest as [ys Hys]. rewrite Hys.
      destruct (Z_lt_ge_dec i 0) as [Hneg|Hpos].
      * rewrite getitem_wraps by lia. cbn [bind]. eauto.
      * rewrite getitem_in_range by lia. cbn [bind]. eauto.
Qed.

Lemma getitems_length (a : list R) (idx : list Z) :
  forall xs, getitems a idx = Ok xs -> length xs = length idx.
Proof.
  induction idx as [|i idx IH]; simpl; intros xs H.
  - injection H as <-. reflexivity.
  - destruct (getitem a i) as [x|e|]; cbn [bind] in H; try discriminate.
    destruct (getitems a idx) as [ys|e|]; cbn [bind] in H; try discriminate.
    injection H as <-. simpl. f_equal. apply IH. reflexivity.
Qed.

(** X12.  The irradiance lookup and the wind lookup succeed on exactly the same
    minute arrays, and then each returned array has one entry per minute
    value; an empty minute array is accepted even by an empty table. *)
Theorem lookups_succeed_together (df : list Weather.row) (ms : list R) :
  ((exists g, Weather.get_solar_power df (Array ms) = Ok g) <->
   (exists w, Weather.get_wind_data df (Array ms) = Ok w)) /\
  (forall g, Weather.get_solar_power df (Array ms) = Ok g ->
     length (to_list g) = length ms) /\
  (forall ws wd, Weather.get_wind_data df (Array ms) = Ok (ws, wd) ->
     length (to_list ws) = length ms /\ length (to_list wd) = length ms) /\
  Weather.get_solar_power [] (Array []) = Ok (Array []).
Proof.
  destruct (series_lengths df) as (Hg & Hs & Hd).
  pose proof (getitems_ok_iff (Weather._ghi df) (map bucket_of ms)) as Ig.
  pose proof (getitems_ok_iff (Weather._wind_speed df) (map bucket_of ms)) as Is.
  pose proof (getitems_ok_iff (Weather._wind_direction df) (map bucket_of ms)) as Id.
  rewrite Hg in Ig. rewrite Hs in Is. rewrite Hd in Id.
  unfold Weather.get_solar_power, Weather.get_wind_data.
  rewrite bucket_index_array. unfold take.
  split; [|split; [|split]].
  - split.
    + intros [g H].
      destruct (getitems (Weather._ghi df) _) as [xs|e|] eqn:Hx;
        cbn [bind] in H; try discriminate.
      assert (HF := proj1 Ig (ex_intro _ xs eq_refl)).
      destruct (proj2 Is HF) as [ys ->]. destruct (proj2 Id HF) as [zs ->].
      cbn [bind]. eauto.
    + intros [w H].
      destruct (getitems (Weather._wind_speed df) _) as [ys|e|] eqn:Hy;
        cbn [bind] in H; try discriminate.
      assert (HF := proj1 Is (ex_intro _ ys eq_refl)).
      destruct (proj2 Ig HF) as [xs ->]. cbn [bind]. eauto.
  - intros g H.
    destruct (getitems (Weather._ghi df) _) as [xs|e|] eqn:Hx;
      cbn [bind] in H; try discriminate.
    injection H as <-. cbn [ndmap to_list].
    rewrite length_map, (getitems_length _ _ _ Hx), length_map. reflexivity.
  - intros ws wd H.
    destruct (getitems (Weather._wind_speed df) _) as [ys|e|] eqn:Hy;
      cbn [bind] in H; try discriminate.
    destruct (getitems (Weather._wind_direction df) _) as [zs|e|] eqn:Hz;
      cbn [bind] in H; try discriminate.
    injection H as <- <-. cbn [to_list].
    rewrite (getitems_length _ _ _ Hy), (getitems_length _ _ _ Hz), length_map.
    auto.
  - reflexivity.
Qed.

End WeatherShape.

Section SampleEvaluation.

Import NumPy.

Lemma sample_evaluable :
  evaluable sample_table 6 sample_profile sample_dx sample_slopes.
Proof.
  unfold evaluable, segments. simpl length.
  split; [lia|]. split; [reflexivity|]. split; [reflexivity|]. split; [lia|].
  split; [|split].
  - intros k Hk. pose proof (sample_speeds k) as [H0 _].
    pose proof EPSILON_pos.
    split; [lra|]. unfold sample_dx.
    destruct k as [|[|k]]; simpl in *; [lra | lra | lia].
  - intros k Hk. rewrite sample_buckets by (simpl in Hk; lia). simpl. lia.
  - intros k _. apply bounded_speed_settles; [lia | apply sample_speeds].
Qed.

Lemma sample_profile_nonneg : Forall (fun s => 0 <= s) sample_profile.
Proof. unfold sample_profile. repeat constructor; lra. Qed.

Lemma sample_dx_positive : Forall (fun d => 0 < d) sample_dx.
Proof. unfold sample_dx. repeat constructor; lra. Qed.

Lemma telemetry_is_aligned_witness :
  exists tm,
    Profiles.extract_profiles sample_table 6 sample_profile sample_dx
      sample_slopes sample_headings = Ok tm /\
    Profiles.speeds tm = sample_profile /\
    length (Profiles.elapsed tm) = 3%nat.
Proof.
  destruct (telemetry_is_aligned sample_table 6 sample_profile sample_dx
              sample_slopes sample_headings sample_evaluable)
    as (tm & Hrun & Hv & (_ & _ & _ & _ & _ & He) & _).
  exists tm. split; [exact Hrun|]. split; [exact Hv | exact He].
Defined.

Lemma margin_matches_reported_percentage_witness :
  exists tm battery_margin power_margin,
    Profiles.extract_profiles sample_table 6 sample_profile sample_dx
      sample_slopes sample_headings = Ok tm /\
    Constraints.battery_acc_constraint_func sample_table 6 sample_profile
      sample_dx sample_slopes sample_headings
      = Ok (battery_margin, power_margin) /\
    (0 <= battery_margin <->
     forall k, (1 <= k < 3)%nat ->
       100 * Config.DeepDischargeCap <= nth k (Profiles.battery_percent tm) 0).
Proof.
  exact (margin_matches_reported_percentage sample_table 6 sample_profile
           sample_dx sample_slopes sample_headings sample_evaluable).
Defined.

Lemma objective_exceeds_elapsed_witness :
  exists tm total,
    Profiles.extract_profiles sample_table 6 sample_profile sample_dx
      sample_slopes sample_headings = Ok tm /\
    Constraints.objective sample_profile sample_dx = Ok total /\
    last (Profiles.elapsed tm) 0 < total.
Proof.
  exact (objective_exceeds_elapsed sample_table 6 sample_profile sample_dx
           sample_slopes sample_headings sample_evaluable
           sample_profile_nonneg sample_dx_positive).
Defined.

Lemma telemetry_is_monotone_witness :
  exists tm,
    Profiles.extract_profiles sample_table 6 sample_profile sample_dx
      sample_slopes sample_headings = Ok tm /\
    nth 1 (Profiles.elapsed tm) 0 <= nth 2 (Profiles.elapsed tm) 0.
Proof.
  destruct (telemetry_is_monotone sample_table 6 sample_profile sample_dx
              sample_slopes sample_headings sample_evaluable
              sample_profile_nonneg sample_dx_positive)
    as (tm & Hrun & Hel & _).
  exists tm. split; [exact Hrun|]. apply (Hel 1%nat). simpl. lia.
Defined.

Lemma sample_power_run (speed acceleration slope : list R) :
  length speed = 2%nat -> length acceleration = 2%nat -> length slope = 2%nat ->
  (forall k, 0 <= nth k speed 0 <= Config.MaxVelocity) ->
  exists P P_out,
    Car.calculate_power 6 (Array speed) (Array acceleration) (Array slope)
      (Array []) (Array []) (Array []) = Ok (Array P, Array P_out).
Proof.
  intros Hs Ha Hsl Hb.
  rewrite (array_as_tabulate speed 2 Hs), (array_as_tabulate acceleration 2 Ha),
    (array_as_tabulate slope 2 Hsl).
  rewrite calculate_power_settled.
  - eexists _, _. reflexivity.
  - lia.
  - intros k _. apply bounded_speed_settles; [lia | apply Hb].
Qed.

Lemma sample_speed_bounds (a b : R) :
  0 <= a <= 35 -> 0 <= b <= 35 ->
  forall k, 0 <= nth k [a; b] 0 <= Config.MaxVelocity.
Proof.
  intros Ha Hb k. unfold Config.MaxVelocity.
  destruct k as [|[|k]]; simpl; try lra. destruct k; lra.
Qed.

Lemma segments_are_independent_witness :
  exists P P_out P' P_out',
    Car.calculate_power 6 (Array [10; 20]) (Array [0; 0.5]) (Array [0.01; 0])
      (Array []) (Array []) (Array []) = Ok (Array P, Array P_out) /\
    Car.calculate_power 6 (Array [10; 5]) (Array [0; -0.5]) (Array [0.01; 0.02])
      (Array []) (Array []) (Array []) = Ok (Array P', Array P_out') /\
    nth 0 P 0 = nth 0 P' 0 /\ nth 0 P_out 0 = nth 0 P_out' 0.
Proof.
  destruct (sample_power_run [10; 20] [0; 0.5] [0.01; 0] eq_refl eq_refl eq_refl)
    as (P & P_out & Hrun).
  { apply sample_speed_bounds; lra. }
  destruct (sample_power_run [10; 5] [0; -0.5] [0.01; 0.02] eq_refl eq_refl eq_refl)
    as (P' & P_out' & Hrun').
  { apply sample_speed_bounds; lra. }
  exists P, P_out, P', P_out'.
  split; [exact Hrun|]. split; [exact Hrun'|].
  apply (segments_are_independent 6 [10; 20] [0; 0.5] [0.01; 0]
           [10; 5] [0; -0.5] [0.01; 0.02]
           (Array []) (Array []) (Array []) (Array []) (Array []) (Array [])
           P P' P_out P_out' 0 eq_refl eq_refl eq_refl eq_refl
           (Nat.lt_0_succ 1) (Nat.lt_0_succ 1) eq_refl eq_refl eq_refl
           Hrun Hrun').
Defined.

Lemma standstill_draws_copper_loss_witness :
  exists P P_out,
    Car.calculate_power 6 (Array [0; 20]) (Array [0.5; 0]) (Array [0; 0])
      (Array []) (Array []) (Array []) = Ok (Array P, Array P_out) /\
    nth 0 P_out 0 = 0 /\ 0 < nth 0 P 0.
Proof.
  destruct (sample_power_run [0; 20] [0.5; 0] [0; 0] eq_refl eq_refl eq_refl)
    as (P & P_out & Hrun).
  { apply sample_speed_bounds; lra. }
  exists P, P_out. split; [exact Hrun|].
  destruct (standstill_draws_copper_loss 6 [0; 20] [0.5; 0] [0; 0]
              (Array []) (Array []) (Array []) P P_out 0
              eq_refl eq_refl (Nat.lt_0_succ 1) eq_refl Hrun)
    as (Hout & _ & Hpos).
  split; [exact Hout|]. apply Hpos. simpl. rewrite cos_0. lra.
Defined.

End SampleEvaluation.

Section Binary64.

Lemma clip0_nonneg_or_nan (x : float) :
  PrimFloat.is_nan (Car64.clip0 x) = true \/
  PrimFloat.leb 0 (Car64.clip0 x) = true.
Proof.
  unfold Car64.clip0.
  destruct (PrimFloat.is_nan x) eqn:Hnan; [left; exact Hnan|].
  right.
  destruct (PrimFloat.ltb x 0) eqn:Hlt; [reflexivity|].
  rewrite leb_spec. rewrite ltb_spec in Hlt.
  unfold PrimFloat.is_nan in Hnan. rewrite eqb_spec in Hnan.
  change (Prim2SF 0) with (S754_zero false) in *.
  destruct (Prim2SF x) as [s|s| |s m e]; try destruct s; simpl in *;
    try reflexivity; try discriminate.
Qed.

(** X31.  In binary64, whenever the power model of one segment returns, its net
    power is either [nan] or at least 0: the clip removes every negative
    number, minus infinity included, and lets only [nan] through. *)
Theorem net_power_nonneg_or_nan (fuel : nat)
  (speed acceleration cos_slope sin_slope dir ws wd P_net P_out : float) :
  Car64.calculate_power fuel speed acceleration cos_slope sin_slope dir ws wd
    = Some (P_net, P_out) ->
  PrimFloat.is_nan P_net = true \/ PrimFloat.leb 0 P_net = true.
Proof.
  unfold Car64.calculate_power. cbv zeta.
  destruct (Car64.winding_loop fuel _ _ Car64.Ta) as [[Pc Pe]|];
    [|discriminate].
  intros H. injection H as <- _. apply clip0_nonneg_or_nan.
Qed.

Lemma net_power_nonneg_or_nan_witness :
  exists P_net P_out,
    Car64.calculate_power 6 20 0.5 1 0 0 0 0 = Some (P_net, P_out) /\
    PrimFloat.is_nan P_net = false /\
    PrimFloat.leb 0 P_net = true.
Proof.
  eexists _, _. split; [vm_compute; reflexivity|].
  split; [reflexivity|].
  destruct (net_power_nonneg_or_nan 6 20 0.5 1 0 0 0 0 _ _ eq_refl) as [Hn|Hp];
    [discriminate Hn | exact Hp].
Defined.

End Binary64.

Section RouteFacts.

Variable geodesic : Route.point -> Route.point -> option R.

Lemma range_length (n : Z) : length (Python.range n) = Z.to_nat n.
Proof. unfold Python.range. rewrite length_map, length_seq. reflexivity. Qed.

Lemma range_in (n i : Z) : In i (Python.range n) <-> (0 <= i < n)%Z.
Proof.
  unfold Python.range. rewrite in_map_iff. split.
  - intros (k & <- & Hk). apply in_seq in Hk. lia.
  - intros H. exists (Z.to_nat i). split; [lia|]. apply in_seq. lia.
Qed.

Lemma leg_length (a b : Route.point) (steps : Z) :
  length (Route.leg a b steps) = Z.to_nat (steps + 1).
Proof. unfold Route.leg. rewrite length_map, range_length. reflexivity. Qed.

Lemma interpolate_points_unfold (a b : Route.point) (rest : list Route.point)
  (interval d : R) :
  interval <> 0 -> geodesic a b = Some d ->
  Route.interpolate_points geodesic (a :: b :: rest) interval =
  match Route.interpolate_points geodesic (b :: rest) interval with
  | Route.Return tail =>
      Route.Return (Route.leg a b (Zfloor (d / interval)) ++ tail)
  | Route.ZeroDivisionError => Route.ZeroDivisionError
  | Route.ValueError => Route.ValueError
  end.
Proof.
  intros Hi Hd. cbn [Route.interpolate_points]. rewrite Hd.
  destruct (Req_dec_T interval 0); [contradiction | reflexivity].
Qed.

Lemma interpolate_points_rejected (a b : Route.point) (rest : list Route.point)
  (interval : R) :
  geodesic a b = None ->
  Route.interpolate_points geodesic (a :: b :: rest) interval = Route.ValueError.
Proof. intros Hd. cbn [Route.interpolate_points]. rewrite Hd. reflexivity. Qed.

Lemma interpolate_points_outcome (points : list Route.point) (interval : R) :
  interval <> 0 ->
  (Forall (fun ab => geodesic (fst ab) (snd ab) <> None) (legs points) ->
   exists out,
     Route.interpolate_points geodesic points interval = Route.Return out) /\
  (Exists (fun ab => geodesic (fst ab) (snd ab) = None) (legs points) ->
   Route.interpolate_points geodesic points interval = Route.ValueError).
Proof.
  intros Hi. induction points as [|a [|b rest] IH].
  - split; [eexists; reflexivity | intros H; inversion H].
  - split; [eexists; reflexivity | intros H; inversion H].
  - destruct IH as [IHok IHbad]. cbn [legs].
    destruct (geodesic a b) as [d|] eqn:Hd.
    + rewrite (interpolate_points_unfold a b rest interval d Hi Hd). split.
      * intros Hall. inversion Hall as [|? ? _ Hrest]; subst.
        destruct (IHok Hrest) as [tail ->]. eauto.
      * intros Hex. inversion Hex as [? ? Hab|? ? Hrest]; subst.
        -- cbn [fst snd] in Hab. congruence.
        -- rewrite (IHbad Hrest). reflexivity.
    + rewrite (interpolate_points_rejected a b rest interval Hd). split.
      * intros Hall. inversion Hall as [|? ? Hab _]; subst.
        cbn [fst snd] in Hab. congruence.
      * reflexivity.
Qed.

Lemma interpolate_points_returns (points : list Route.point) (interval : R) :
  interval <> 0 ->
  Forall (fun ab => geodesic (fst ab) (snd ab) <> None) (legs points) ->
  exists out, Route.interpolate_points geodesic points interval = Route.Return out.
Proof. intros Hi. apply (interpolate_points_outcome points interval Hi). Qed.

Lemma legs_decided (points : list Route.point) :
  Forall (fun ab => geodesic (fst ab) (snd ab) <> None) (legs points) \/
  Exists (fun ab => geodesic (fst ab) (snd ab) = None) (legs points).
Proof.
  induction (legs points) as [|ab l IH]; [left; constructor|].
  destruct (geodesic (fst ab) (snd ab)) as [d|] eqn:Hd.
  - destruct IH as [IH|IH]; [left | right].
    + constructor; [congruence | exact IH].
    + apply Exists_cons_tl. exact IH.
  - right. apply Exists_cons_hd. exact Hd.
Qed.

(** X13.  [interpolate_points] measures a leg before it divides by the interval.
    A route of fewer than two points yields the empty list whatever the
    interval.  It raises [ZeroDivisionError] exactly when the interval is
    zero and geopy accepts the first leg, and [ValueError] exactly when
    geopy rejects the first leg or, the interval being non-zero, any leg;
    in every other case it returns a list. *)
Theorem interpolation_fails_iff (points : list Route.point) (interval : R) :
  ((length points < 2)%nat ->
   Route.interpolate_points geodesic points interval = Route.Return []) /\
  (Route.interpolate_points geodesic points interval = Route.ZeroDivisionError
   <-> interval = 0 /\
       exists a b rest d, points = a :: b :: rest /\ geodesic a b = Some d) /\
  (Route.interpolate_points geodesic points interval = Route.ValueError
   <-> (exists a b rest, points = a :: b :: rest /\ geodesic a b = None) \/
       (interval <> 0 /\
        Exists (fun ab => geodesic (fst ab) (snd ab) = None) (legs points))) /\
  ((exists out,
      Route.interpolate_points geodesic points interval = Route.Return out)
   <-> (length points < 2)%nat \/
       (interval <> 0 /\
        Forall (fun ab => geodesic (fst ab) (snd ab) <> None) (legs points))).
Proof.
  assert (Hshort : (length points < 2)%nat ->
            Route.interpolate_points geodesic points interval = Route.Return []).
  { intros Hlen. destruct points as [|a [|b rest]]; simpl in Hlen;
      try reflexivity. lia. }
  split; [exact Hshort|].
  destruct (Req_dec_T interval 0) as [H0|Hn0].
  - (* zero interval: the first leg decides *)
    destruct points as [|a [|b rest]].
    + split; [|split].
      * split; [discriminate|]. intros (_ & a & b & rest & d & Hp & _). discriminate.
      * split; [discriminate|].
        intros [(a & b & rest & Hp & _)|[Hi _]]; [discriminate | contradiction].
      * split; [intros _; left; simpl; lia | intros _; eexists; reflexivity].
    + split; [|split].
      * split; [discriminate|]. intros (_ & a' & b & rest & d & Hp & _). discriminate.
      * split; [discriminate|].
        intros [(a' & b & rest & Hp & _)|[Hi _]]; [discriminate | contradiction].
      * split; [intros _; left; simpl; lia | intros _; eexists; reflexivity].
    + cbn [Route.interpolate_points].
      destruct (geodesic a b) as [d|] eqn:Hd.
      * destruct (Req_dec_T interval 0) as [_|Hn]; [|contradiction].
        split; [|split].
        -- split; [|reflexivity]. intros _. split; [exact H0|].
           exists a, b, rest, d. auto.
        -- split; [discriminate|].
           intros [(a' & b' & rest' & Hp & Hnone)|[Hi _]]; [|contradiction].
           injection Hp as <- <- <-. congruence.
        -- split.
           ++ intros [out Hout]. discriminate.
           ++ intros [Hlen|[Hi _]]; [simpl in Hlen; lia | contradiction].
      * split; [|split].
        -- split; [discriminate|].
           intros (_ & a' & b' & rest' & d & Hp & Hsome).
           injection Hp as <- <- <-. congruence.
        -- split; [|reflexivity]. intros _. left. exists a, b, rest. auto.
        -- split.
           ++ intros [out Hout]. discriminate.
           ++ intros [Hlen|[Hi _]]; [simpl in Hlen; lia | contradiction].
  - (* non-zero interval: every leg is measured *)
    destruct (interpolate_points_outcome points interval Hn0) as [Hok Hbad].
    destruct (legs_decided points) as [Hall|Hex].
    + destruct (Hok Hall) as [out Hout]. rewrite Hout.
      split; [|split].
      * split; [discriminate|]. intros [H0 _]. contradiction.
      * split; [discriminate|].
        intros [(a & b & rest & Hp & Hnone)|[_ Hex]].
        -- subst points. cbn [legs] in Hall.
           inversion Hall as [|? ? Hab _]; subst. cbn [fst snd] in Hab.
           contradiction.
        -- exfalso. apply Exists_exists in Hex. destruct Hex as (ab & Hin & Hnone).
           rewrite Forall_forall in Hall. exact (Hall ab Hin Hnone).
      * split; [|eauto]. intros _. right. auto.
    + rewrite (Hbad Hex). split; [|split].
      * split; [discriminate|]. intros [H0 _]. contradiction.
      * split; [|reflexivity]. intros _. right. auto.
      * split.
        -- intros [out Hout]. discriminate.
        -- intros [Hlen|[_ Hall]].
           ++ destruct points as [|a [|b rest]]; simpl in Hlen; try lia;
                inversion Hex.
           ++ exfalso. apply Exists_exists in Hex.
              destruct Hex as (ab & Hin & Hnone).
              rewrite Forall_forall in Hall. exact (Hall ab Hin Hnone).
Qed.

Lemma ratio_in_unit (steps step : Z) :
  (0 <= step < steps + 1)%Z ->
  0 <= (if (0 <? steps)%Z then IZR step / IZR steps else 0) <= 1.
Proof.
  intros Hs. destruct (Z.ltb_spec 0 steps) as [Hpos|Hnp]; [|lra].
  assert (0 < IZR steps) by (apply IZR_lt; exact Hpos).
  assert (0 <= IZR step) by (apply IZR_le; lia).
  assert (IZR step <= IZR steps) by (apply IZR_le; lia).
  split.
  - apply Rmult_le_pos; [assumption | left; apply Rinv_0_lt_compat; assumption].
  - apply Rmult_le_reg_r with (IZR steps); [assumption|].
    unfold Rdiv. rewrite Rmult_assoc, Rinv_l by lra. lra.
Qed.

(** X14.  Every interpolated point lies on a leg of the route, at a fraction
    between 0 and 1 of the way from the leg's start to its end. *)
Theorem interpolated_points_on_legs (points out : list Route.point)
  (interval : R) (p : Route.point) :
  Route.interpolate_points geodesic points interval = Route.Return out ->
  In p out ->
  exists a b ratio,
    In (a, b) (legs points) /\ 0 <= ratio <= 1 /\ p = between a b ratio.
Proof.
  revert out. induction points as [|a [|b rest] IH]; intros out Hrun Hin.
  - injection Hrun as <-. contradiction.
  - injection Hrun as <-. contradiction.
  - destruct (geodesic a b) as [d|] eqn:Hd;
      [|rewrite (interpolate_points_rejected a b rest interval Hd) in Hrun;
        discriminate].
    destruct (Req_dec_T interval 0) as [H0|Hn0].
    { cbn [Route.interpolate_points] in Hrun. rewrite Hd in Hrun.
      destruct (Req_dec_T interval 0); [discriminate | contradiction]. }
    rewrite (interpolate_points_unfold a b rest interval d Hn0 Hd) in Hrun.
    destruct (Route.interpolate_points geodesic (b :: rest) interval)
      as [tail| |] eqn:Ht; try discriminate.
    injection Hrun as <-. apply in_app_or in Hin. destruct Hin as [Hin|Hin].
    + unfold Route.leg in Hin. apply in_map_iff in Hin.
      destruct Hin as (step & <- & Hstep). apply range_in in Hstep.
      exists a, b. eexists. split; [left; reflexivity|].
      split; [apply (ratio_in_unit _ step Hstep) | reflexivity].
    + destruct (IH tail eq_refl Hin) as (a' & b' & r & Hl & Hr & Hp).
      exists a', b', r. split; [right; exact Hl | auto].
Qed.

Lemma Zfloor_nonneg (x : R) : 0 <= x -> (0 <= Zfloor x)%Z.
Proof. intros Hx. apply (Zfloor_lub 0). exact Hx. Qed.

Lemma quotient_nonneg (d interval : R) : 0 <= d -> 0 < interval -> 0 <= d / interval.
Proof.
  intros Hd Hi. apply Rmult_le_pos; [exact Hd|].
  left. apply Rinv_0_lt_compat. exact Hi.
Qed.

(** X15.  For a positive interval and legs that geopy measures with a
    non-negative distance, every leg contributes at least one point, and
    the number of interpolated points is at most the route length divided
    by the interval plus the number of legs. *)
Theorem interpolated_count_bounds (points : list Route.point) (interval : R) :
  0 < interval ->
  Forall (fun ab => exists d, measured geodesic ab d /\ 0 <= d) (legs points) ->
  exists out,
    Route.interpolate_points geodesic points interval = Route.Return out /\
    (length points - 1 <= length out)%nat /\
    INR (length out) <=
      route_length geodesic points / interval + INR (length points - 1).
Proof.
  intros Hi. induction points as [|a [|b rest] IH]; intros Hd.
  - exists []. split; [reflexivity|]. simpl. split; [lia|].
    unfold route_length. simpl. unfold Rdiv. lra.
  - exists []. split; [reflexivity|]. simpl. split; [lia|].
    unfold route_length. simpl. unfold Rdiv. lra.
  - cbn [legs] in Hd. inversion Hd as [|? ? Hab Hrest]; subst.
    destruct Hab as (d & Hm & Hab). unfold measured in Hm. cbn [fst snd] in Hm.
    destruct (IH Hrest) as (tail & Ht & Hlo & Hhi).
    rewrite (interpolate_points_unfold a b rest interval d) by (lra || exact Hm).
    rewrite Ht.
    eexists. split; [reflexivity|].
    rewrite length_app, leg_length.
    pose proof (quotient_nonneg _ _ Hab Hi) as Hq.
    pose proof (Zfloor_nonneg _ Hq) as Hs.
    pose proof (Zfloor_bound (d / interval)) as [Hfl _].
    set (steps := Zfloor (d / interval)) in *.
    split; [simpl length in *; lia|].
    rewrite plus_INR.
    assert (Hn : INR (Z.to_nat (steps + 1)) = IZR steps + 1).
    { rewrite INR_IZR_INZ, Z2Nat.id by lia. rewrite plus_IZR. reflexivity. }
    rewrite Hn.
    assert (Hrl : route_length geodesic (a :: b :: rest) =
                  d + route_length geodesic (b :: rest)).
    { unfold route_length. cbn [legs fold_right fst snd]. rewrite Hm.
      reflexivity. }
    rewrite Hrl.
    assert (Hlen : INR (length (a :: b :: rest) - 1) =
                   1 + INR (length (b :: rest) - 1)).
    { replace (length (a :: b :: rest) - 1)%nat
        with (1 + (length (b :: rest) - 1))%nat by (simpl; lia).
      rewrite plus_INR. simpl. reflexivity. }
    rewrite Hlen.
    unfold Rdiv in *. rewrite Rmult_plus_distr_r. lra.
Qed.

End RouteFacts.

Section RouteShape.

Variable geodesic : Route.point -> Route.point -> option R.

Lemma between_0 (a b : Route.point) : between a b 0 = a.
Proof. destruct a as [x y]. unfold between. simpl. f_equal; lra. Qed.

Lemma between_1 (a b : Route.point) : between a b 1 = b.
Proof. destruct a as [x y], b as [x' y']. unfold between. simpl. f_equal; lra. Qed.

Lemma range_S (n : Z) :
  (0 <= n)%Z -> Python.range (n + 1) = Python.range n ++ [n].
Proof.
  intros Hn. unfold Python.range.
  replace (Z.to_nat (n + 1)) with (S (Z.to_nat n)) by lia.
  rewrite seq_S, map_app. simpl. rewrite Z2Nat.id by exact Hn. reflexivity.
Qed.

Lemma range_cons (n : Z) :
  (0 < n)%Z -> exists tl, Python.range n = 0%Z :: tl.
Proof.
  intros Hn. unfold Python.range.
  destruct (Z.to_nat n) as [|m] eqn:Hm; [lia|].
  simpl. eauto.
Qed.

Lemma leg_starts (a b : Route.point) (steps : Z) :
  (0 <= steps)%Z -> exists tl, Route.leg a b steps = a :: tl.
Proof.
  intros Hs. unfold Route.leg.
  destruct (range_cons (steps + 1)) as [tl ->]; [lia|].
  cbn [map]. eexists. apply f_equal2; [|reflexivity].
  change (between a b (if (0 <? steps)%Z then IZR 0 / IZR steps else 0) = a).
  destruct (0 <? steps)%Z; [|apply between_0].
  replace (IZR 0 / IZR steps) with 0 by (unfold Rdiv; lra).
  apply between_0.
Qed.

Lemma leg_ends (a b : Route.point) (steps : Z) :
  (1 <= steps)%Z -> exists hd, Route.leg a b steps = hd ++ [b].
Proof.
  intros Hs. unfold Route.leg. rewrite range_S by lia. rewrite map_app.
  cbn [map]. eexists. apply f_equal2; [reflexivity|].
  apply f_equal2; [|reflexivity].
  change (between a b (if (0 <? steps)%Z then IZR steps / IZR steps else 0) = b).
  replace (0 <? steps)%Z with true by (symmetry; apply Z.ltb_lt; lia).
  assert (0 < IZR steps) by (apply IZR_lt; lia).
  replace (IZR steps / IZR steps) with 1 by (field; lra).
  apply between_1.
Qed.

Lemma leg_of_short_distance (a b : Route.point) (interval d : R) :
  0 < interval -> 0 <= d < interval ->
  Route.leg a b (Zfloor (d / interval)) = [a].
Proof.
  intros Hi [Hd0 Hd1].
  assert (Hz : Zfloor (d / interval) = 0%Z).
  { apply Zfloor_eq. split.
    - apply quotient_nonneg; assumption.
    - apply Rmult_lt_reg_r with interval; [exact Hi|].
      unfold Rdiv. rewrite Rmult_assoc, Rinv_l by lra. simpl. lra. }
  rewrite Hz. destruct (leg_starts a b 0) as [tl Htl]; [lia|].
  assert (Hl : length (Route.leg a b 0) = 1%nat) by apply leg_length.
  rewrite Htl in Hl |- *. destruct tl; [reflexivity | discriminate].
Qed.

(** X16.  When geopy measures every leg shorter than the (positive) interval,
    nothing is interpolated and the route comes back without its last
    waypoint. *)
Theorem short_legs_lose_last_waypoint (points : list Route.point) (interval : R) :
  0 < interval ->
  Forall (fun ab => exists d, measured geodesic ab d /\ 0 <= d < interval)
         (legs points) ->
  Route.interpolate_points geodesic points interval
    = Route.Return (removelast points).
Proof.
  intros Hi. induction points as [|a [|b rest] IH]; intros Hd; try reflexivity.
  cbn [legs] in Hd. inversion Hd as [|? ? Hab Hrest]; subst.
  destruct Hab as (d & Hm & Hab). unfold measured in Hm. cbn [fst snd] in Hm.
  rewrite (interpolate_points_unfold geodesic a b rest interval d)
    by (lra || exact Hm).
  rewrite (IH Hrest).
  rewrite leg_of_short_distance by assumption. reflexivity.
Qed.

(** X17.  A waypoint reached by a leg at least one interval long is emitted twice
    in a row: as the last point of that leg and as the first point of the
    next one.  The legs are those geopy measures: the first at least one
    interval long, the second non-negative, the later ones accepted. *)
Theorem reached_waypoint_is_duplicated (a b c : Route.point)
  (rest : list Route.point) (interval dab dbc : R) :
  0 < interval ->
  geodesic a b = Some dab -> geodesic b c = Some dbc ->
  interval <= dab -> 0 <= dbc ->
  Forall (fun xy => geodesic (fst xy) (snd xy) <> None) (legs (c :: rest)) ->
  exists out before after,
    Route.interpolate_points geodesic (a :: b :: c :: rest) interval
      = Route.Return out /\
    out = before ++ b :: b :: after.
Proof.
  intros Hi Hgab Hgbc Hab Hbc Hrest.
  assert (Hn0 : interval <> 0) by lra.
  destruct (interpolate_points_returns geodesic (c :: rest) interval Hn0 Hrest)
    as [tail Ht].
  rewrite (interpolate_points_unfold geodesic a b _ interval dab Hn0 Hgab).
  rewrite (interpolate_points_unfold geodesic b c _ interval dbc Hn0 Hgbc).
  rewrite Ht.
  assert (Hs1 : (1 <= Zfloor (dab / interval))%Z).
  { apply (Zfloor_lub 1). apply Rmult_le_reg_r with interval; [exact Hi|].
    unfold Rdiv. rewrite Rmult_assoc, Rinv_l by lra. lra. }
  assert (Hs2 : (0 <= Zfloor (dbc / interval))%Z).
  { apply Zfloor_nonneg, quotient_nonneg; assumption. }
  destruct (leg_ends a b _ Hs1) as [hd ->].
  destruct (leg_starts b c _ Hs2) as [tl ->].
  eexists _, hd, (tl ++ tail). split; [reflexivity|].
  rewrite <- app_assoc. reflexivity.
Qed.

(** X18.  A single leg that geopy measures at least one interval long is cut into
    [steps = floor(distance / interval)] equal parts: [steps + 1] points
    from the start to the end inclusive, each part covering a distance of
    at least one interval and less than two. *)
Theorem leg_spacing (a b : Route.point) (interval d : R) :
  0 < interval -> geodesic a b = Some d -> interval <= d ->
  let steps := Zfloor (d / interval) in
  exists out,
    Route.interpolate_points geodesic [a; b] interval = Route.Return out /\
    length out = Z.to_nat (steps + 1) /\
    (forall k, (k <= Z.to_nat steps)%nat ->
       nth k out a = between a b (INR k / IZR steps)) /\
    nth 0 out a = a /\ last out a = b /\
    interval <= d / IZR steps < 2 * interval.
Proof.
  intros Hi Hg Hab steps.
  assert (Hn0 : interval <> 0) by lra.
  assert (Hs1 : (1 <= steps)%Z).
  { apply (Zfloor_lub 1). apply Rmult_le_reg_r with interval; [exact Hi|].
    unfold Rdiv. rewrite Rmult_assoc, Rinv_l by lra. lra. }
  rewrite (interpolate_points_unfold geodesic a b [] interval d Hn0 Hg).
  cbn [Route.interpolate_points]. fold steps. rewrite app_nil_r.
  eexists. split; [reflexivity|].
  split; [apply leg_length|].
  assert (Hpos : 0 < IZR steps) by (apply IZR_lt; lia).
  split; [|split; [|split]].
  - intros k Hk. unfold Route.leg, Python.range.
    rewrite (nth_map_in _ 0%Z) by (rewrite length_map, length_seq; lia).
    rewrite (nth_map_in _ 0%nat) by (rewrite length_seq; lia).
    rewrite seq_nth by lia. cbn [Nat.add].
    replace (0 <? steps)%Z with true by (symmetry; apply Z.ltb_lt; lia).
    rewrite <- INR_IZR_INZ. reflexivity.
  - destruct (leg_starts a b steps) as [tl ->]; [lia | reflexivity].
  - destruct (leg_ends a b steps Hs1) as [hd ->]. apply last_last.
  - pose proof (Zfloor_bound (d / interval)) as [Hlo Hhi].
    fold steps in Hlo, Hhi.
    assert (Hd : d = d / interval * interval) by (field; lra).
    assert (H1 : IZR steps * interval <= d) by nra.
    assert (H2 : d < (IZR steps + 1) * interval) by nra.
    assert (H3 : 1 <= IZR steps) by (apply (IZR_le 1); lia).
    split.
    + apply Rmult_le_reg_r with (IZR steps); [exact Hpos|].
      unfold Rdiv. rewrite Rmult_assoc, Rinv_l by lra. lra.
    + apply Rmult_lt_reg_r with (IZR steps); [exact Hpos|].
      unfold Rdiv. rewrite Rmult_assoc, Rinv_l by lra. nra.
Qed.

End RouteShape.

Section CsvFacts.

Variable round1 : R -> R.

Lemma combine_nth_error {A B : Type} (xs : list A) :
  forall (ys : list B) k x y,
    nth_error xs k = Some x -> nth_error ys k = Some y ->
    nth_error (combine xs ys) k = Some (x, y).
Proof.
  induction xs as [|x' xs IH]; intros [|y' ys] [|k] x y Hx Hy; simpl in *;
    try discriminate.
  - congruence.
  - apply IH; assumption.
Qed.

(** X19.  [save_to_csv] writes the header and then one row per point that has an
    elevation entry: the longer of the two lists is cut to the shorter.  The
    elevation cell is left empty not only for a missing elevation but also
    for an elevation of exactly zero; any other elevation is written
    rounded. *)
Theorem csv_rows (points : list Route.point) (elevations : list (option R)) :
  let rows := Route.save_to_csv round1 points elevations in
  length rows = S (Nat.min (length points) (length elevations)) /\
  nth_error rows 0 = Some Route.Header /\
  forall k lat lon e,
    nth_error points k = Some (lat, lon) ->
    nth_error elevations k = Some e ->
    exists c,
      nth_error rows (S k) = Some (Route.Data lat lon c) /\
      (c = Route.Blank <-> e = None \/ e = Some 0) /\
      (forall x, e = Some x -> x <> 0 -> c = Route.Number (round1 x)).
Proof.
  cbv zeta. unfold Route.save_to_csv. split; [|split].
  - cbn [length]. rewrite length_map, length_combine. reflexivity.
  - reflexivity.
  - intros k lat lon e Hp He. cbn [nth_error].
    pose proof (combine_nth_error _ _ _ _ _ Hp He) as Hc.
    unfold Route.point in *. rewrite nth_error_map, Hc. cbn.
    eexists. split; [reflexivity|].
    destruct e as [x|]; cbn.
    + destruct (Req_dec_T x 0) as [H0|Hn0].
      * split; [split; [intros _; right; congruence | reflexivity]|].
        intros y Hy Hyn. injection Hy as ->. contradiction.
      * split.
        -- split; [discriminate|]. intros [H|H]; [discriminate|].
           injection H as ->. contradiction.
        -- intros y Hy _. injection Hy as ->. reflexivity.
    + split; [split; auto|]. intros y Hy. discriminate.
Qed.

End CsvFacts.

Section SampleRouteFacts.

Lemma grid_distance_nonneg (a b : Route.point) : 0 <= grid_distance a b.
Proof.
  unfold grid_distance.
  pose proof (Rabs_pos (fst b - fst a)). pose proof (Rabs_pos (snd b - snd a)).
  lra.
Qed.

Lemma grid_distance_first_leg : grid_distance (0, 0) (0.00025, 0) = 25.
Proof.
  unfold grid_distance. cbn [fst snd].
  rewrite (Rabs_right (0.00025 - 0)), (Rabs_right (0 - 0)) by lra. lra.
Qed.

Lemma grid_distance_second_leg :
  grid_distance (0.00025, 0) (0.00025, 0.00005) = 5.
Proof.
  unfold grid_distance. cbn [fst snd].
  rewrite (Rabs_right (0.00025 - 0.00025)), (Rabs_right (0.00005 - 0)) by lra.
  lra.
Qed.

Lemma sample_legs_nonneg (points : list Route.point) :
  Forall (fun ab => exists d, measured grid_geodesic ab d /\ 0 <= d)
         (legs points).
Proof.
  apply Forall_forall. intros ab _. exists (grid_distance (fst ab) (snd ab)).
  split; [reflexivity | apply grid_distance_nonneg].
Qed.

Lemma sample_legs_accepted (points : list Route.point) :
  Forall (fun ab => grid_geodesic (fst ab) (snd ab) <> None) (legs points).
Proof. apply Forall_forall. intros ab _. discriminate. Qed.

Lemma interpolated_count_bounds_witness :
  exists out,
    Route.interpolate_points grid_geodesic sample_route 10 = Route.Return out /\
    (2 <= length out)%nat /\
    INR (length out) <= route_length grid_geodesic sample_route / 10 + 2.
Proof.
  destruct (interpolated_count_bounds grid_geodesic sample_route 10)
    as (out & Hrun & Hlo & Hhi).
  - lra.
  - apply sample_legs_nonneg.
  - exists out. split; [exact Hrun|]. split; [exact Hlo|].
    simpl in Hhi. lra.
Defined.

Lemma interpolated_points_on_legs_witness :
  exists out p a b ratio,
    Route.interpolate_points grid_geodesic sample_route 10 = Route.Return out /\
    In p out /\
    In (a, b) (legs sample_route) /\ 0 <= ratio <= 1 /\ p = between a b ratio.
Proof.
  destruct (interpolate_points_returns grid_geodesic sample_route 10)
    as [out Hrun]; [lra | apply sample_legs_accepted |].
  assert (Hin : In (0, 0) out).
  { unfold sample_route in Hrun.
    rewrite (interpolate_points_unfold grid_geodesic _ _ _ 10
               (grid_distance (0, 0) (0.00025, 0))) in Hrun
      by (lra || reflexivity).
    destruct (Route.interpolate_points grid_geodesic _ 10) as [tail| |];
      try discriminate.
    injection Hrun as <-. apply in_or_app. left.
    destruct (leg_starts (0, 0) (0.00025, 0)
                (Zfloor (grid_distance (0, 0) (0.00025, 0) / 10))) as [tl ->].
    - apply Zfloor_nonneg, quotient_nonneg; [apply grid_distance_nonneg | lra].
    - left. reflexivity. }
  destruct (interpolated_points_on_legs grid_geodesic sample_route out 10 (0, 0)
              Hrun Hin) as (a & b & ratio & Hl & Hr & Hp).
  exists out, (0, 0), a, b, ratio. auto.
Defined.

Lemma short_legs_lose_last_waypoint_witness :
  Route.interpolate_points grid_geodesic [(0.00025, 0); (0.00025, 0.00005)] 10
    = Route.Return [(0.00025, 0)].
Proof.
  apply (short_legs_lose_last_waypoint grid_geodesic
           [(0.00025, 0); (0.00025, 0.00005)] 10).
  - lra.
  - cbn [legs]. constructor; [|constructor].
    exists 5. split; [|lra].
    unfold measured, grid_geodesic. cbn [fst snd].
    rewrite grid_distance_second_leg. reflexivity.
Defined.

Lemma reached_waypoint_is_duplicated_witness :
  exists out before after,
    Route.interpolate_points grid_geodesic sample_route 10 = Route.Return out /\
    out = before ++ (0.00025, 0) :: (0.00025, 0) :: after.
Proof.
  apply (reached_waypoint_is_duplicated grid_geodesic
           (0, 0) (0.00025, 0) (0.00025, 0.00005) [] 10 25 5).
  - lra.
  - unfold grid_geodesic. rewrite grid_distance_first_leg. reflexivity.
  - unfold grid_geodesic. rewrite grid_distance_second_leg. reflexivity.
  - lra.
  - lra.
  - apply sample_legs_accepted.
Defined.

Lemma leg_spacing_witness :
  exists out,
    Route.interpolate_points grid_geodesic [(0, 0); (0.00025, 0)] 10
      = Route.Return out /\
    nth 0 out (0, 0) = (0, 0) /\ last out (0, 0) = (0.00025, 0).
Proof.
  destruct (leg_spacing grid_geodesic (0, 0) (0.00025, 0) 10 25)
    as (out & Hrun & _ & _ & Hfirst & Hlast & _).
  - lra.
  - unfold grid_geodesic. rewrite grid_distance_first_leg. reflexivity.
  - lra.
  - exists out. auto.
Defined.

End SampleRouteFacts.

Section Irradiance.

Import Charging.

Lemma radians_complement (x : R) : radians (90 - x) = PI / 2 - radians x.
Proof. unfold radians. lra. Qed.

Lemma dot3 (a b c x y z : R) : dot [a; b; c] [x; y; z] = a * x + b * y + c * z.
Proof. unfold dot. simpl. lra. Qed.

Lemma irradiance_cosine_law (tilt panel_az elev sun_az : R) :
  calculate_irradiance_factor tilt panel_az elev sun_az =
    Rmax 0 (cos (radians tilt) * cos (radians elev)
              * cos (radians panel_az - radians sun_az)
            + sin (radians tilt) * sin (radians elev)).
Proof.
  unfold calculate_irradiance_factor.
  rewrite dot3, radians_complement, sin_shift, cos_shift, cos_minus.
  f_equal. lra.
Qed.

(** X20.  The irradiance factor is the cosine law
    [max(0, cos(tilt) cos(elev) cos(panel_az - sun_az) + sin(tilt) sin(elev))]
    with the tilt measured from the vertical; for a horizontal panel
    (tilt 90) it is [max(0, sin(elev))] whatever the two azimuths are. *)
Theorem irradiance_factor_closed_form (tilt panel_az elev sun_az : R) :
  calculate_irradiance_factor tilt panel_az elev sun_az =
    Rmax 0 (cos (radians tilt) * cos (radians elev)
              * cos (radians panel_az - radians sun_az)
            + sin (radians tilt) * sin (radians elev)) /\
  calculate_irradiance_factor 90 panel_az elev sun_az
    = Rmax 0 (sin (radians elev)).
Proof.
  split; [apply irradiance_cosine_law|].
  rewrite irradiance_cosine_law.
  replace (radians 90) with (PI / 2) by (unfold radians; lra).
  rewrite cos_PI2, sin_PI2. f_equal. lra.
Qed.

Lemma cosine_law_le_1 (a b c s d : R) :
  a ^ 2 + b ^ 2 = 1 -> c ^ 2 + s ^ 2 = 1 -> -1 <= d <= 1 ->
  a * c * d + b * s <= 1.
Proof.
  intros Hab Hcs Hd.
  assert (H1 : a * c + b * s <= 1).
  { pose proof (pow2_ge_0 (a - c)). pose proof (pow2_ge_0 (b - s)). lra. }
  assert (H2 : - (a * c) + b * s <= 1).
  { pose proof (pow2_ge_0 (a + c)). pose proof (pow2_ge_0 (b - s)). lra. }
  destruct (Rle_dec 0 (a * c)) as [Hac|Hac].
  - assert (0 <= (a * c) * (1 - d)) by (apply Rmult_le_pos; lra). lra.
  - assert (0 <= (- (a * c)) * (1 + d)) by (apply Rmult_le_pos; lra). lra.
Qed.

Lemma sin2_cos2_pow (x : R) : cos x ^ 2 + sin x ^ 2 = 1.
Proof. pose proof (sin2_cos2 x) as H. unfold Rsqr in H. lra. Qed.

Lemma irradiance_factor_bounds (tilt panel_az elev sun_az : R) :
  0 <= calculate_irradiance_factor tilt panel_az elev sun_az <= 1.
Proof.
  rewrite irradiance_cosine_law.
  split; [apply Rmax_l|].
  apply Rmax_lub; [lra|].
  apply cosine_law_le_1; [apply sin2_cos2_pow | apply sin2_cos2_pow |].
  apply COS_bound.
Qed.

(** X21.  The irradiance factor always lies between 0 and 1, and it is 1 when the
    panel faces the sun: same azimuth, tilt from the vertical equal to the
    sun's elevation. *)
Theorem irradiance_factor_range (tilt panel_az elev sun_az : R) :
  0 <= calculate_irradiance_factor tilt panel_az elev sun_az <= 1 /\
  calculate_irradiance_factor elev sun_az elev sun_az = 1.
Proof.
  split; [apply irradiance_factor_bounds|].
  rewrite irradiance_cosine_law.
  replace (radians sun_az - radians sun_az) with 0 by lra. rewrite cos_0.
  pose proof (sin2_cos2_pow (radians elev)).
  rewrite Rmax_right; nra.
Qed.

End Irradiance.

Section GridSearch.

Import Charging.

Variable test : test_case.

Lemma search_step_keeps (best : R * Z) (t : Z) :
  calculate_irradiance_factor (IZR t) 0 (sun_elevation test) (sun_azimuth test)
    <= fst best ->
  search_step test best t = best.
Proof.
  intros H. unfold search_step. cbv zeta.
  destruct (Rlt_dec _ _) as [Hlt|_]; [lra | reflexivity].
Qed.

Lemma search_step_takes (best : R * Z) (t : Z) :
  fst best
    < calculate_irradiance_factor (IZR t) 0 (sun_elevation test) (sun_azimuth test) ->
  search_step test best t =
    (calculate_irradiance_factor (IZR t) 0 (sun_elevation test) (sun_azimuth test), t).
Proof.
  intros H. unfold search_step. cbv zeta.
  destruct (Rlt_dec _ _) as [_|Hn]; [reflexivity | lra].
Qed.

Lemma search_no_update (l : list Z) (best : R * Z) :
  (forall y, In y l ->
     calculate_irradiance_factor (IZR y) 0 (sun_elevation test) (sun_azimuth test)
       <= fst best) ->
  fold_left (search_step test) l best = best.
Proof.
  induction l as [|t l IH]; intros H; [reflexivity|].
  simpl. rewrite search_step_keeps by (apply H; left; reflexivity).
  apply IH. intros y Hy. apply H. right. exact Hy.
Qed.

Lemma search_below (l : list Z) (best : R * Z) (m : R) :
  fst best < m ->
  (forall y, In y l ->
     calculate_irradiance_factor (IZR y) 0 (sun_elevation test) (sun_azimuth test)
       < m) ->
  fst (fold_left (search_step test) l best) < m.
Proof.
  revert best. induction l as [|t l IH]; intros best Hb H; [exact Hb|].
  simpl. apply IH.
  - unfold search_step. cbv zeta. destruct (Rlt_dec _ _); [|exact Hb].
    simpl. apply H. left. reflexivity.
  - intros y Hy. apply H. right. exact Hy.
Qed.

Lemma search_unique_max (l1 l2 : list Z) (x : Z) (best : R * Z) :
  fst best
    < calculate_irradiance_factor (IZR x) 0 (sun_elevation test) (sun_azimuth test) ->
  (forall y, In y (l1 ++ l2) ->
     calculate_irradiance_factor (IZR y) 0 (sun_elevation test) (sun_azimuth test)
     < calculate_irradiance_factor (IZR x) 0 (sun_elevation test) (sun_azimuth test)) ->
  fold_left (search_step test) (l1 ++ x :: l2) best =
    (calculate_irradiance_factor (IZR x) 0 (sun_elevation test) (sun_azimuth test), x).
Proof.
  intros Hb H. rewrite fold_left_app. simpl.
  rewrite search_step_takes.
  - apply search_no_update. intros y Hy. simpl. left.
    apply H. apply in_or_app. right. exact Hy.
  - apply search_below; [exact Hb|].
    intros y Hy. apply H. apply in_or_app. left. exact Hy.
Qed.

Lemma range_NoDup (n : Z) : NoDup (Python.range n).
Proof.
  unfold Python.range.
  pose proof (seq_NoDup (Z.to_nat n) 0) as H.
  induction H as [|k l Hk Hl IH]; [constructor|].
  cbn [map]. constructor; [|exact IH].
  intros Hin. apply in_map_iff in Hin. destruct Hin as (j & Hj & Hjl).
  apply Nat2Z.inj in Hj. subst j. exact (Hk Hjl).
Qed.

Lemma search_strict_max (x : Z) :
  (0 <= x < 91)%Z ->
  0 < calculate_irradiance_factor (IZR x) 0 (sun_elevation test) (sun_azimuth test) ->
  (forall y, (0 <= y < 91)%Z -> y <> x ->
     calculate_irradiance_factor (IZR y) 0 (sun_elevation test) (sun_azimuth test)
     < calculate_irradiance_factor (IZR x) 0 (sun_elevation test) (sun_azimuth test)) ->
  search test =
    (calculate_irradiance_factor (IZR x) 0 (sun_elevation test) (sun_azimuth test), x).
Proof.
  intros Hx Hpos Hmax. unfold search.
  assert (Hin : In x (Python.range 91)) by (apply range_in; lia).
  destruct (in_split _ _ Hin) as [l1 [l2 Hsplit]].
  pose proof (range_NoDup 91) as Hnd. rewrite Hsplit in Hnd |- *.
  apply NoDup_remove_2 in Hnd.
  apply search_unique_max; [exact Hpos|].
  intros y Hy. apply Hmax.
  - apply range_in. rewrite Hsplit.
    apply in_app_or in Hy. apply in_or_app.
    destruct Hy; [left | right; right]; assumption.
  - intros ->. exact (Hnd Hy).
Qed.

Lemma cos_lt_1 (x : R) : x <> 0 -> - (PI / 2) <= x <= PI / 2 -> cos x < 1.
Proof.
  intros Hx Hr. pose proof PI_RGT_0 as Hpi.
  rewrite <- cos_0.
  destruct (Rlt_dec 0 x) as [Hpos|Hneg].
  - apply cos_decreasing_1; lra.
  - rewrite <- (cos_neg x). apply cos_decreasing_1; lra.
Qed.

Lemma facing_is_strict_max (n : Z) :
  sun_azimuth test = 0 ->
  sun_elevation test = IZR n ->
  (0 <= n <= 90)%Z ->
  calculate_irradiance_factor (IZR n) 0 (sun_elevation test) (sun_azimuth test)
    = 1 /\
  forall y, (0 <= y < 91)%Z -> y <> n ->
    calculate_irradiance_factor (IZR y) 0 (sun_elevation test) (sun_azimuth test)
    < 1.
Proof.
  intros Haz Hel Hn.
  assert (Hf : forall t,
    calculate_irradiance_factor (IZR t) 0 (sun_elevation test) (sun_azimuth test)
    = Rmax 0 (cos (radians (IZR t) - radians (IZR n)))).
  { intros t.
    rewrite irradiance_cosine_law, Haz, Hel.
    replace (radians 0 - radians 0) with 0 by lra. rewrite cos_0, cos_minus.
    f_equal. lra. }
  split.
  - rewrite Hf. replace (radians (IZR n) - radians (IZR n)) with 0 by lra.
    rewrite cos_0. apply Rmax_right. lra.
  - intros y Hy Hne. rewrite Hf.
    pose proof PI_RGT_0 as Hpi.
    assert (H0n : 0 <= IZR n <= 90) by (split; apply IZR_le; lia).
    assert (H0y : 0 <= IZR y <= 90) by (split; apply IZR_le; lia).
    apply Rmax_lub_lt; [lra|].
    apply cos_lt_1; unfold radians.
    + intros Heq.
      assert (IZR y = IZR n) by nra.
      apply Hne. apply eq_IZR. assumption.
    + split; nra.
Qed.

Lemma abeam_is_strict_max :
  sun_azimuth test = 90 ->
  0 < sun_elevation test <= 90 ->
  0 < sin (radians (sun_elevation test)) /\
  calculate_irradiance_factor (IZR 90) 0 (sun_elevation test) (sun_azimuth test)
    = sin (radians (sun_elevation test)) /\
  forall y, (0 <= y < 91)%Z -> y <> 90%Z ->
    calculate_irradiance_factor (IZR y) 0 (sun_elevation test) (sun_azimuth test)
    < sin (radians (sun_elevation test)).
Proof.
  intros Haz Hel.
  pose proof PI_RGT_0 as Hpi.
  assert (Hs : 0 < sin (radians (sun_elevation test))).
  { apply sin_gt_0; unfold radians; nra. }
  assert (Hf : forall t, (0 <= t < 91)%Z ->
    calculate_irradiance_factor (IZR t) 0 (sun_elevation test) (sun_azimuth test)
    = sin (radians (IZR t)) * sin (radians (sun_elevation test))).
  { intros t Ht.
    rewrite irradiance_cosine_law, Haz.
    replace (radians 0 - radians 90) with (- (PI / 2)) by (unfold radians; lra).
    rewrite cos_neg, cos_PI2.
    assert (H0t : 0 <= IZR t <= 90) by (split; apply IZR_le; lia).
    assert (0 <= sin (radians (IZR t))).
    { apply sin_ge_0; unfold radians; nra. }
    rewrite Rmax_right; [lra|].
    assert (0 <= sin (radians (IZR t)) * sin (radians (sun_elevation test)))
      by (apply Rmult_le_pos; lra).
    lra. }
  split; [exact Hs|]. split.
  - rewrite Hf by lia.
    replace (radians (IZR 90)) with (PI / 2) by (unfold radians; lra).
    rewrite sin_PI2. lra.
  - intros y Hy Hne. rewrite Hf by exact Hy.
    assert (H0y : 0 <= IZR y <= 89) by (split; apply IZR_le; lia).
    assert (sin (radians (IZR y)) < 1).
    { rewrite <- sin_PI2. apply sin_increasing_1; unfold radians; nra. }
    nra.
Qed.

(** X22.  For a sun due north (azimuth 0, the panel's own azimuth) at a whole
    number of degrees of elevation between 0 and 90, the grid search of the
    self-test returns that elevation as the tilt from the vertical, with
    irradiance factor 1. *)
Theorem search_finds_facing_tilt (n : Z) :
  sun_azimuth test = 0 ->
  sun_elevation test = IZR n ->
  (0 <= n <= 90)%Z ->
  search test = (1, n).
Proof.
  intros Haz Hel Hn.
  destruct (facing_is_strict_max n Haz Hel Hn) as [Hx Hmax].
  rewrite <- Hx. apply search_strict_max.
  - lia.
  - rewrite Hx. lra.
  - intros y Hy Hne. rewrite Hx. apply Hmax; assumption.
Qed.

(** X23.  For a sun due east (azimuth 90) above the horizon, the grid search of
    the self-test returns the horizontal panel, tilt 90 from the vertical,
    whatever the elevation is: a panel facing north gains nothing by
    tilting towards a sun that stands abeam. *)
Theorem search_with_sun_abeam :
  sun_azimuth test = 90 ->
  0 < sun_elevation test <= 90 ->
  search test = (sin (radians (sun_elevation test)), 90%Z).
Proof.
  intros Haz Hel.
  destruct (abeam_is_strict_max Haz Hel) as (Hs & Hx & Hmax).
  rewrite <- Hx. apply search_strict_max.
  - lia.
  - rewrite Hx. exact Hs.
  - intros y Hy Hne. rewrite Hx. apply Hmax; assumption.
Qed.

End GridSearch.

Section SelfTest.

Import Charging.

(** X24.  The built-in self-test passes its first two cases and fails the third:
    for a sun at elevation 30 and azimuth 90 the search returns tilt 90,
    which is 60 degrees away from the expected 30. *)
Theorem self_test_verdicts :
  verify_calculation_logic = [true; true; false].
Proof.
  assert (H1 : snd (search (mk_test_case 90 0 90 0)) = 90%Z).
  { destruct (facing_is_strict_max (mk_test_case 90 0 90 0) 90
                eq_refl eq_refl) as [Hx Hmax]; [lia|].
    rewrite (search_strict_max _ 90); [reflexivity | lia | rewrite Hx; lra |].
    intros y Hy Hne. rewrite Hx. apply Hmax; assumption. }
  assert (H2 : snd (search (mk_test_case 45 0 45 45)) = 45%Z).
  { destruct (facing_is_strict_max (mk_test_case 45 0 45 45) 45
                eq_refl eq_refl) as [Hx Hmax]; [lia|].
    rewrite (search_strict_max _ 45); [reflexivity | lia | rewrite Hx; lra |].
    intros y Hy Hne. rewrite Hx. apply Hmax; assumption. }
  assert (H3 : snd (search (mk_test_case 30 90 30 60)) = 90%Z).
  { destruct (abeam_is_strict_max (mk_test_case 30 90 30 60) eq_refl)
      as (Hs & Hx & Hmax); [simpl; lra|].
    rewrite (search_strict_max _ 90); [reflexivity | lia | rewrite Hx; exact Hs |].
    intros y Hy Hne. rewrite Hx. apply Hmax; assumption. }
  unfold verify_calculation_logic, test_cases, verdict. cbn [map].
  rewrite H1, H2, H3. reflexivity.
Qed.

End SelfTest.

Section SolarPosition.

Import Charging.

Lemma solar_elevation_eq (latitude longitude : R) (t : utc_time) :
  fst (solar_position latitude longitude t)
    = degrees (asin (arcsin_argument latitude longitude t)).
Proof. reflexivity. Qed.

Lemma cosine_law_ge_m1 (a b c s d : R) :
  a ^ 2 + b ^ 2 = 1 -> c ^ 2 + s ^ 2 = 1 -> -1 <= d <= 1 ->
  -1 <= a * c * d + b * s.
Proof.
  intros Hab Hcs Hd.
  assert (H : (- a) * c * d + (- b) * s <= 1).
  { apply cosine_law_le_1; [| exact Hcs | exact Hd].
    rewrite <- Hab. ring. }
  lra.
Qed.

Lemma arcsin_argument_range (latitude longitude : R) (t : utc_time) :
  -1 <= arcsin_argument latitude longitude t <= 1.
Proof.
  unfold arcsin_argument.
  pose proof (sin2_cos2_pow (radians latitude)) as Hl.
  pose proof (sin2_cos2_pow (radians (declination_of t))) as Hd.
  pose proof (COS_bound (radians (hour_angle_of longitude t))) as Hh.
  split.
  - replace (_ + _) with
      (cos (radians latitude) * cos (radians (declination_of t))
       * cos (radians (hour_angle_of longitude t))
       + sin (radians latitude) * sin (radians (declination_of t))) by ring.
    apply cosine_law_ge_m1; assumption.
  - replace (_ + _) with
      (cos (radians latitude) * cos (radians (declination_of t))
       * cos (radians (hour_angle_of longitude t))
       + sin (radians latitude) * sin (radians (declination_of t))) by ring.
    apply cosine_law_le_1; assumption.
Qed.

Lemma degrees_le (x y : R) : x <= y -> degrees x <= degrees y.
Proof.
  intros H. unfold degrees. pose proof PI_RGT_0.
  apply Rmult_le_compat_r; [|exact H].
  apply Rlt_le. apply Rdiv_lt_0_compat; lra.
Qed.

Lemma asin_le (x y : R) : -1 <= x -> x <= y -> y <= 1 -> asin x <= asin y.
Proof.
  intros Hx Hxy Hy.
  destruct (Rle_dec (asin x) (asin y)) as [H|H]; [exact H|].
  apply Rnot_le_lt in H.
  pose proof (asin_bound x). pose proof (asin_bound y).
  apply sin_increasing_1 in H; try lra.
  rewrite !sin_asin in H by lra. lra.
Qed.

Lemma declination_bound (t : utc_time) : -23.45 <= declination_of t <= 23.45.
Proof.
  unfold declination_of.
  pose proof (SIN_bound (radians (360 * (284 + IZR (tm_yday t)) / 365))).
  lra.
Qed.

Lemma asin_cos (x : R) : - PI <= x <= PI -> asin (cos x) = PI / 2 - Rabs x.
Proof.
  intros Hx.
  destruct (Rle_dec 0 x) as [Hpos|Hneg].
  - rewrite Rabs_right by lra.
    rewrite <- sin_shift. apply asin_sin. lra.
  - rewrite Rabs_left by lra.
    rewrite <- (cos_neg x), <- sin_shift. apply asin_sin. lra.
Qed.

(** X27.  At a latitude between -90 and 90, the elevation at any time of a day is
    at most the elevation at solar noon of that day, which is 90 degrees
    minus the distance between the latitude and the day's declination. *)
Theorem noon_is_highest (latitude longitude : R) (t noon : utc_time) :
  -90 <= latitude <= 90 ->
  tm_yday t = tm_yday noon ->
  solar_time_of longitude noon = 12 ->
  fst (solar_position latitude longitude t)
    <= fst (solar_position latitude longitude noon) /\
  fst (solar_position latitude longitude noon)
    = 90 - Rabs (latitude - declination_of noon).
Proof.
  intros Hlat Hday Hnoon.
  pose proof PI_RGT_0 as Hpi.
  pose proof (declination_bound noon) as Hdec.
  assert (Hdd : declination_of t = declination_of noon).
  { unfold declination_of. rewrite Hday. reflexivity. }
  assert (Hcl : 0 <= cos (radians latitude)).
  { apply cos_ge_0; unfold radians; nra. }
  assert (Hcd : 0 <= cos (radians (declination_of noon))).
  { apply cos_ge_0; unfold radians; nra. }
  assert (Hn : arcsin_argument latitude longitude noon
               = cos (radians latitude - radians (declination_of noon))).
  { unfold arcsin_argument, hour_angle_of. rewrite Hnoon.
    replace (radians (15 * (12 - 12))) with 0 by (unfold radians; lra).
    rewrite cos_0, cos_minus. ring. }
  rewrite !solar_elevation_eq. split.
  - apply degrees_le. apply asin_le.
    + apply arcsin_argument_range.
    + rewrite Hn, cos_minus. unfold arcsin_argument. rewrite Hdd.
      pose proof (COS_bound (radians (hour_angle_of longitude t))) as Hh.
      assert (cos (radians latitude) * cos (radians (declination_of noon))
              * cos (radians (hour_angle_of longitude t))
              <= cos (radians latitude) * cos (radians (declination_of noon)) * 1).
      { apply Rmult_le_compat_l; [apply Rmult_le_pos; assumption | lra]. }
      lra.
    + apply arcsin_argument_range.
  - rewrite Hn, asin_cos by (unfold radians; split; nra).
    replace (radians latitude - radians (declination_of noon))
      with (radians (latitude - declination_of noon)) by (unfold radians; lra).
    unfold radians at 1.
    rewrite Rabs_mult, (Rabs_right (PI / 180)) by lra.
    unfold degrees. field. lra.
Qed.

End SolarPosition.

Section PeriodSearch.

Import Charging.

Variables (latitude longitude panel_azimuth : R).

Lemma fold_left_Rplus_acc (l : list R) (a : R) :
  fold_left Rplus l a = a + fold_left Rplus l 0.
Proof.
  revert a. induction l as [|x l IH]; intros a; simpl; [lra|].
  rewrite IH, (IH (0 + x)). lra.
Qed.

Lemma period_fold (tilt : Z) (times : list utc_time) (acc : R * Z) :
  fold_left
    (fun (acc : R * Z) time_point =>
       let '(elevation, azimuth) := solar_position latitude longitude time_point in
       if Rlt_dec 0 elevation then
         (fst acc + calculate_irradiance_factor (IZR tilt) panel_azimuth
                      elevation azimuth,
          (snd acc + 1)%Z)
       else acc)
    times acc
  = (fold_left Rplus
       (map (fun p => calculate_irradiance_factor (IZR tilt) panel_azimuth
                        (fst p) (snd p))
            (filter sun_is_up (map (solar_position latitude longitude) times)))
       (fst acc),
     (snd acc
      + Z.of_nat (length (filter sun_is_up
                            (map (solar_position latitude longitude) times))))%Z).
Proof.
  revert acc. induction times as [|t times IH]; intros [s c].
  - simpl. rewrite Z.add_0_r. reflexivity.
  - cbn [fold_left map filter]. rewrite IH.
    destruct (solar_position latitude longitude t) as [el az].
    assert (Hs : sun_is_up (el, az) = if Rlt_dec 0 el then true else false)
      by reflexivity.
    rewrite Hs. cbn [fst snd].
    destruct (Rlt_dec 0 el) as [Hup|Hdown].
    + cbn [fst snd map fold_left length]. f_equal. lia.
    + reflexivity.
Qed.

Lemma irradiance_values_eq (times : list utc_time) :
  irradiance_values
    (optimize_single_period latitude longitude times panel_azimuth)
  = map (mean_irradiance panel_azimuth
           (filter sun_is_up (map (solar_position latitude longitude) times)))
        (Python.range 91).
Proof.
  unfold optimize_single_period. cbv zeta.
  match goal with
  | |- irradiance_values (match ?l with [] => _ | _ => _ end) = _ =>
      replace (irradiance_values (match l with [] => _ | _ => _ end)) with l
        by (destruct l; reflexivity)
  end.
  apply map_ext. intros tilt. rewrite period_fold. cbn [fst snd].
  unfold mean_irradiance. rewrite Z.add_0_l. reflexivity.
Qed.

Lemma sun_positions_eq (times : list utc_time) :
  sun_positions
    (optimize_single_period latitude longitude times panel_azimuth)
  = filter sun_is_up (map (solar_position latitude longitude) times).
Proof.
  unfold optimize_single_period. cbv zeta.
  match goal with
  | |- sun_positions (match ?l with [] => _ | _ => _ end) = _ =>
      destruct l; reflexivity
  end.
Qed.

Lemma sum_factor_bounds (tilt : Z) (positions : list (R * R)) :
  0 <= fold_left Rplus
         (map (fun p => calculate_irradiance_factor (IZR tilt) panel_azimuth
                          (fst p) (snd p)) positions) 0
    <= INR (length positions).
Proof.
  induction positions as [|p positions IH].
  - simpl. lra.
  - cbn [map fold_left length]. rewrite fold_left_Rplus_acc, S_INR.
    pose proof (irradiance_factor_bounds (IZR tilt) panel_azimuth
                  (fst p) (snd p)).
    lra.
Qed.

Lemma mean_irradiance_bounds (tilt : Z) (positions : list (R * R)) :
  0 <= mean_irradiance panel_azimuth positions tilt <= 1.
Proof.
  unfold mean_irradiance.
  pose proof (sum_factor_bounds tilt positions) as [Hlo Hhi].
  rewrite INR_IZR_INZ in Hhi.
  assert (Hd : 1 <= IZR (Z.max 1 (Z.of_nat (length positions))))
    by (apply IZR_le; lia).
  assert (Hn : IZR (Z.of_nat (length positions))
               <= IZR (Z.max 1 (Z.of_nat (length positions))))
    by (apply IZR_le; lia).
  split.
  - unfold Rdiv. apply Rmult_le_pos; [lra|].
    apply Rlt_le, Rinv_0_lt_compat. lra.
  - apply Rmult_le_reg_r with (IZR (Z.max 1 (Z.of_nat (length positions))));
      [lra|].
    unfold Rdiv. rewrite Rmult_assoc, Rinv_l by lra. lra.
Qed.

Lemma argmax_from_spec (l pre : list R) (bi : nat) (b : R) :
  (bi < length pre)%nat ->
  nth bi pre 0 = b ->
  (forall j, (j < length pre)%nat -> nth j pre 0 <= b) ->
  (forall j, (j < bi)%nat -> nth j pre 0 < b) ->
  (argmax_from bi b (length pre) l < length (pre ++ l))%nat /\
  (forall j, (j < length (pre ++ l))%nat ->
     nth j (pre ++ l) 0 <= nth (argmax_from bi b (length pre) l) (pre ++ l) 0) /\
  (forall j, (j < argmax_from bi b (length pre) l)%nat ->
     nth j (pre ++ l) 0 < nth (argmax_from bi b (length pre) l) (pre ++ l) 0).
Proof.
  revert pre bi b. induction l as [|x l IH]; intros pre bi b Hbi Hb Hle Hlt.
  - cbn [argmax_from]. rewrite app_nil_r, Hb. auto.
  - cbn [argmax_from].
    replace (pre ++ x :: l) with ((pre ++ [x]) ++ l)
      by (rewrite <- app_assoc; reflexivity).
    replace (S (length pre)) with (length (pre ++ [x]))
      by (rewrite length_app; simpl; lia).
    destruct (Rlt_dec b x) as [Hbx|Hbx].
    + apply IH.
      * rewrite length_app. simpl. lia.
      * rewrite app_nth2, Nat.sub_diag by lia. reflexivity.
      * intros j Hj. rewrite length_app in Hj. simpl in Hj.
        destruct (Nat.eq_dec j (length pre)) as [->|Hne].
        -- rewrite app_nth2, Nat.sub_diag by lia. simpl. lra.
        -- rewrite app_nth1 by lia.
           assert (nth j pre 0 <= b) by (apply Hle; lia). lra.
      * intros j Hj. rewrite app_nth1 by lia.
        assert (nth j pre 0 <= b) by (apply Hle; lia). lra.
    + apply IH.
      * rewrite length_app. simpl. lia.
      * rewrite app_nth1 by lia. exact Hb.
      * intros j Hj. rewrite length_app in Hj. simpl in Hj.
        destruct (Nat.eq_dec j (length pre)) as [->|Hne].
        -- rewrite app_nth2, Nat.sub_diag by lia. simpl. lra.
        -- rewrite app_nth1 by lia. apply Hle. lia.
      * intros j Hj. rewrite app_nth1 by lia. apply Hlt. exact Hj.
Qed.

Lemma argmax_spec (l : list R) :
  l <> [] ->
  (argmax l < length l)%nat /\
  (forall j, (j < length l)%nat -> nth j l 0 <= nth (argmax l) l 0) /\
  (forall j, (j < argmax l)%nat -> nth j l 0 < nth (argmax l) l 0).
Proof.
  destruct l as [|x l]; [congruence|]. intros _.
  apply (argmax_from_spec l [x] 0 x).
  - simpl. lia.
  - reflexivity.
  - intros j Hj. simpl in Hj. replace j with 0%nat by lia. simpl. lra.
  - intros j Hj. lia.
Qed.

Lemma argmax_from_keeps (l : list R) (bi i : nat) (b : R) :
  (forall x, In x l -> x <= b) -> argmax_from bi b i l = bi.
Proof.
  revert i. induction l as [|x l IH]; intros i H; [reflexivity|].
  cbn [argmax_from].
  destruct (Rlt_dec b x) as [Hbx|_].
  - assert (x <= b) by (apply H; left; reflexivity). lra.
  - apply IH. intros y Hy. apply H. right. exact Hy.
Qed.

Lemma range_91_cons : exists l, Python.range 91 = 0%Z :: l.
Proof. eexists. vm_compute. reflexivity. Qed.

Lemma optimize_single_period_eq (times : list utc_time) :
  optimize_single_period latitude longitude times panel_azimuth =
    mk_period_result
      (nth (argmax (map (mean_irradiance panel_azimuth
                           (filter sun_is_up
                              (map (solar_position latitude longitude) times)))
                        (Python.range 91)))
           (Python.range 91) 0%Z)
      (90 - nth (argmax (map (mean_irradiance panel_azimuth
                                (filter sun_is_up
                                   (map (solar_position latitude longitude) times)))
                             (Python.range 91)))
                (Python.range 91) 0%Z)
      (nth (argmax (map (mean_irradiance panel_azimuth
                           (filter sun_is_up
                              (map (solar_position latitude longitude) times)))
                        (Python.range 91)))
           (map (mean_irradiance panel_azimuth
                   (filter sun_is_up
                      (map (solar_position latitude longitude) times)))
                (Python.range 91)) 0)
      (match filter sun_is_up (map (solar_position latitude longitude) times) with
       | [] => 0
       | _ => fold_left Rplus
                (map fst (filter sun_is_up
                            (map (solar_position latitude longitude) times))) 0
              / INR (length (filter sun_is_up
                               (map (solar_position latitude longitude) times)))
       end)
      (filter sun_is_up (map (solar_position latitude longitude) times))
      (Python.range 91)
      (map (mean_irradiance panel_azimuth
              (filter sun_is_up
                 (map (solar_position latitude longitude) times)))
           (Python.range 91)).
Proof.
  rewrite <- irradiance_values_eq.
  unfold optimize_single_period. cbv zeta.
  destruct range_91_cons as [l ->]. reflexivity.
Qed.

(** X28.  The tilt reported by [optimize_single_period] is a whole number of
    degrees between 0 and 90, the tilt from the horizontal is its
    complement, and the reported irradiance is the value of the tested
    tilts' table at that tilt: a number between 0 and 1 that no other
    tilt exceeds and no smaller tilt reaches. *)
Theorem period_optimum (times : list utc_time) :
  tilt_angles (optimize_single_period latitude longitude times panel_azimuth)
    = Python.range 91 /\
  length (irradiance_values
            (optimize_single_period latitude longitude times panel_azimuth))
    = 91%nat /\
  (0 <= optimal_tilt_from_vertical
          (optimize_single_period latitude longitude times panel_azimuth)
     <= 90)%Z /\
  optimal_tilt_from_horizontal
    (optimize_single_period latitude longitude times panel_azimuth)
    = (90 - optimal_tilt_from_vertical
              (optimize_single_period latitude longitude times panel_azimuth))%Z /\
  max_irradiance (optimize_single_period latitude longitude times panel_azimuth)
    = nth (Z.to_nat (optimal_tilt_from_vertical
                       (optimize_single_period latitude longitude times
                          panel_azimuth)))
          (irradiance_values
             (optimize_single_period latitude longitude times panel_azimuth)) 0 /\
  0 <= max_irradiance
         (optimize_single_period latitude longitude times panel_azimuth) <= 1 /\
  (forall tilt, (0 <= tilt <= 90)%Z ->
     nth (Z.to_nat tilt)
         (irradiance_values
            (optimize_single_period latitude longitude times panel_azimuth)) 0
     <= max_irradiance
          (optimize_single_period latitude longitude times panel_azimuth)) /\
  (forall tilt,
     (0 <= tilt < optimal_tilt_from_vertical
                    (optimize_single_period latitude longitude times
                       panel_azimuth))%Z ->
     nth (Z.to_nat tilt)
         (irradiance_values
            (optimize_single_period latitude longitude times panel_azimuth)) 0
     < max_irradiance
         (optimize_single_period latitude longitude times panel_azimuth)).
Proof.
  rewrite optimize_single_period_eq.
  cbn [tilt_angles irradiance_values optimal_tilt_from_vertical
       optimal_tilt_from_horizontal max_irradiance].
  set (values := map (mean_irradiance panel_azimuth
                        (filter sun_is_up
                           (map (solar_position latitude longitude) times)))
                     (Python.range 91)).
  assert (Hlen : length values = 91%nat).
  { unfold values. rewrite length_map, range_length. reflexivity. }
  assert (Hne : values <> []).
  { intros E. rewrite E in Hlen. discriminate Hlen. }
  destruct (argmax_spec values Hne) as (Hidx & Hmax & Hfirst).
  rewrite Hlen in Hidx, Hmax.
  assert (Hnth : nth (argmax values) (Python.range 91) 0%Z
                 = Z.of_nat (argmax values)).
  { unfold Python.range.
    rewrite (nth_indep _ 0%Z (Z.of_nat 0)) by (rewrite length_map, length_seq; lia).
    rewrite map_nth, seq_nth by lia. reflexivity. }
  rewrite Hnth, Nat2Z.id.
  split; [reflexivity|]. split; [exact Hlen|]. split; [lia|].
  split; [reflexivity|]. split; [reflexivity|]. split.
  - unfold values.
    rewrite (nth_indep _ 0 (mean_irradiance panel_azimuth
                              (filter sun_is_up
                                 (map (solar_position latitude longitude) times))
                              0%Z))
      by (fold values; lia).
    rewrite map_nth. apply mean_irradiance_bounds.
  - split.
    + intros tilt Ht. apply Hmax. lia.
    + intros tilt Ht. apply Hfirst. lia.
Qed.

(** X29.  The table of [optimize_single_period] holds, for each tested tilt, the
    mean irradiance factor over exactly the sun positions it reports,
    which are the positions of the period's time points with the sun above
    the horizon, in order. *)
Theorem irradiance_is_mean_over_sun_positions (times : list utc_time) :
  sun_positions (optimize_single_period latitude longitude times panel_azimuth)
    = filter sun_is_up (map (solar_position latitude longitude) times) /\
  irradiance_values
    (optimize_single_period latitude longitude times panel_azimuth)
    = map (mean_irradiance panel_azimuth
             (sun_positions
                (optimize_single_period latitude longitude times panel_azimuth)))
          (Python.range 91) /\
  (forall p,
     In p (sun_positions
             (optimize_single_period latitude longitude times panel_azimuth)) ->
     0 < fst p).
Proof.
  rewrite sun_positions_eq, irradiance_values_eq.
  split; [reflexivity|]. split; [reflexivity|].
  intros p Hp. apply filter_In in Hp. destruct Hp as [_ Hup].
  unfold sun_is_up in Hup. destruct (Rlt_dec 0 (fst p)); [assumption|discriminate].
Qed.

(** X30.  For a period in which the sun never rises above the horizon,
    [optimize_single_period] reports no sun position, average elevation 0,
    a table of zeros, and as optimum the vertical panel: tilt 0 from the
    vertical, 90 from the horizontal, irradiance 0. *)
Theorem night_period_defaults (times : list utc_time) :
  (forall t, In t times -> fst (solar_position latitude longitude t) <= 0) ->
  sun_positions (optimize_single_period latitude longitude times panel_azimuth)
    = [] /\
  avg_sun_elevation
    (optimize_single_period latitude longitude times panel_azimuth) = 0 /\
  (forall x,
     In x (irradiance_values
             (optimize_single_period latitude longitude times panel_azimuth)) ->
     x = 0) /\
  optimal_tilt_from_vertical
    (optimize_single_period latitude longitude times panel_azimuth) = 0%Z /\
  optimal_tilt_from_horizontal
    (optimize_single_period latitude longitude times panel_azimuth) = 90%Z /\
  max_irradiance
    (optimize_single_period latitude longitude times panel_azimuth) = 0.
Proof.
  intros Hnight.
  assert (Hpos : filter sun_is_up (map (solar_position latitude longitude) times)
                 = []).
  { induction times as [|t ts IH]; [reflexivity|].
    cbn [map filter]. unfold sun_is_up at 1.
    destruct (Rlt_dec 0 (fst (solar_position latitude longitude t))) as [Hup|_].
    - assert (fst (solar_position latitude longitude t) <= 0)
        by (apply Hnight; left; reflexivity).
      lra.
    - apply IH. intros t' Ht'. apply Hnight. right. exact Ht'. }
  rewrite optimize_single_period_eq, Hpos.
  cbn [sun_positions avg_sun_elevation irradiance_values
       optimal_tilt_from_vertical optimal_tilt_from_horizontal max_irradiance].
  assert (Hzero : forall tilt, mean_irradiance panel_azimuth [] tilt = 0).
  { intros tilt. unfold mean_irradiance. simpl. lra. }
  assert (Hvals : map (mean_irradiance panel_azimuth []) (Python.range 91)
                  = map (fun _ => 0) (Python.range 91)).
  { apply map_ext. exact Hzero. }
  rewrite Hvals.
  assert (Harg : argmax (map (fun _ : Z => 0) (Python.range 91)) = 0%nat).
  { destruct range_91_cons as [l ->]. cbn [map argmax].
    apply argmax_from_keeps.
    intros x Hx. apply in_map_iff in Hx. destruct Hx as (_ & <- & _). lra. }
  rewrite Harg.
  split; [reflexivity|]. split; [reflexivity|]. split.
  - intros x Hx. apply in_map_iff in Hx. destruct Hx as (_ & <- & _). reflexivity.
  - destruct range_91_cons as [l ->]. cbn [nth map].
    split; [reflexivity|]. split; reflexivity.
Qed.

End PeriodSearch.

Section SampleSun.

Import Charging.

Lemma search_finds_facing_tilt_witness :
  search (mk_test_case 45 0 45 45) = (1, 45%Z).
Proof.
  apply (search_finds_facing_tilt (mk_test_case 45 0 45 45) 45).
  - reflexivity.
  - reflexivity.
  - lia.
Defined.

Lemma search_with_sun_abeam_witness :
  search (mk_test_case 30 90 30 60) = (sin (radians 30), 90%Z).
Proof.
  apply (search_with_sun_abeam (mk_test_case 30 90 30 60)).
  - reflexivity.
  - simpl. lra.
Defined.

Lemma equator_midnight (day : Z) :
  fst (solar_position 0 0 (mk_utc day 0 0 0)) < 0.
Proof.
  rewrite solar_elevation_eq.
  pose proof PI_RGT_0 as Hpi.
  pose proof (declination_bound (mk_utc day 0 0 0)) as Hdec.
  assert (Hc : 0 < cos (radians (declination_of (mk_utc day 0 0 0)))).
  { apply cos_gt_0; unfold radians; nra. }
  assert (Ha : arcsin_argument 0 0 (mk_utc day 0 0 0)
               = - cos (radians (declination_of (mk_utc day 0 0 0)))).
  { unfold arcsin_argument, hour_angle_of, solar_time_of. cbn [hour minute second].
    replace (radians 0) with 0 by (unfold radians; lra).
    replace (radians (15 * (0 + 0 / 60 + 0 / 3600 + 0 / 15 - 12)))
      with (- PI) by (unfold radians; lra).
    rewrite sin_0, cos_0, cos_neg, cos_PI. lra. }
  pose proof (arcsin_argument_range 0 0 (mk_utc day 0 0 0)) as Hr.
  assert (Hle : asin (arcsin_argument 0 0 (mk_utc day 0 0 0)) <= asin 0)
    by (apply asin_le; lra).
  rewrite asin_0 in Hle.
  assert (Hne : asin (arcsin_argument 0 0 (mk_utc day 0 0 0)) <> 0).
  { intros E. pose proof (sin_asin _ Hr) as Hs. rewrite E, sin_0 in Hs. lra. }
  unfold degrees.
  assert (0 < 180 / PI) by (apply Rdiv_lt_0_compat; lra).
  nra.
Qed.

Lemma noon_is_highest_witness :
  fst (solar_position (-34.9285) 138.6 (mk_utc 227 0 0 0))
    <= fst (solar_position (-34.9285) 138.6 (mk_utc 227 2 45 36)) /\
  fst (solar_position (-34.9285) 138.6 (mk_utc 227 2 45 36))
    = 90 - Rabs (-34.9285 - declination_of (mk_utc 227 2 45 36)).
Proof.
  apply (noon_is_highest (-34.9285) 138.6 (mk_utc 227 0 0 0) (mk_utc 227 2 45 36)).
  - lra.
  - reflexivity.
  - unfold solar_time_of. simpl. lra.
Defined.

Lemma night_period_defaults_witness :
  fst (solar_position 0 0 (mk_utc 227 0 0 0)) < 0 /\
  optimal_tilt_from_vertical
    (optimize_single_period 0 0 [mk_utc 227 0 0 0] 0) = 0%Z /\
  max_irradiance (optimize_single_period 0 0 [mk_utc 227 0 0 0] 0) = 0.
Proof.
  split; [apply equator_midnight|].
  destruct (night_period_defaults 0 0 0 [mk_utc 227 0 0 0])
    as (_ & _ & _ & Ht & _ & Hm).
  - intros t [<-|[]]. apply Rlt_le, equator_midnight.
  - split; [exact Ht | exact Hm].
Defined.

End SampleSun.
